(** * MEC Library: tutorial filtering, ordering and URL state

    A shallow embedding of the tutorial library script (search, year and
    topic filters, tiered ordering inside year groups, URL parameters,
    debounced search) together with the properties its specification
    states about it, followed by further properties of the script, of the
    text of its cards, of the drop-downs of the navigation bar and of the
    theme toggle. *)

From Stdlib Require Import List String Ascii ZArith Bool Arith Lia.
From Stdlib Require Import Permutation Sorted DecimalString DecimalNat.
Import ListNotations.

Local Open Scope string_scope.
Local Open Scope list_scope.
Local Open Scope nat_scope.

(* ===================================================================== *)
(** ** Strings *)
(* ===================================================================== *)

(** Strings are sequences of 8-bit characters, the UTF-8 form of a text.
    The functions of this section are the string functions of the
    platform on texts of the ASCII range: outside it [toLowerCase] here
    leaves a character as it is where the platform folds every cased
    letter, and [trim] here keeps the white space that is not ASCII (the
    no-break space and others) where the platform removes it.  The
    properties that depend on these functions are stated for texts of that
    range, or over the functions as parameters. *)

Definition is_upper (c : ascii) : bool :=
  (65 <=? nat_of_ascii c) && (nat_of_ascii c <=? 90).

Definition lower_char (c : ascii) : ascii :=
  if is_upper c then ascii_of_nat (nat_of_ascii c + 32) else c.

(** [String.prototype.toLowerCase] on a text of the ASCII range. *)
Fixpoint toLowerCase (s : string) : string :=
  match s with
  | EmptyString => EmptyString
  | String c s' => String (lower_char c) (toLowerCase s')
  end.

(** White space: TAB, LF, VT, FF, CR, SP. *)
Definition is_space (c : ascii) : bool :=
  let n := nat_of_ascii c in
  ((9 <=? n) && (n <=? 13)) || (n =? 32).

Fixpoint trimStart (s : string) : string :=
  match s with
  | EmptyString => EmptyString
  | String c s' => if is_space c then trimStart s' else s
  end.

Fixpoint all_space (s : string) : bool :=
  match s with
  | EmptyString => true
  | String c s' => is_space c && all_space s'
  end.

Fixpoint trimEnd (s : string) : string :=
  match s with
  | EmptyString => EmptyString
  | String c s' => if all_space s then EmptyString else String c (trimEnd s')
  end.

(** [String.prototype.trim] on a text of the ASCII range. *)
Definition trim (s : string) : string := trimEnd (trimStart s).

(** [String.prototype.includes]: [sub] occurs in [s] at some position. *)
Fixpoint includes (s sub : string) : bool :=
  prefix sub s ||
  match s with
  | EmptyString => false
  | String _ s' => includes s' sub
  end.

(** Truthiness of a string: only the empty string is falsy. *)
Definition truthy (s : string) : bool :=
  match s with
  | EmptyString => false
  | String _ _ => true
  end.

(* ===================================================================== *)
(** ** Numbers and the comparison [number == string] *)
(* ===================================================================== *)

Local Open Scope Z_scope.

(** The numeric values that the conversion of a string can produce.
    [Decimal m e] stands for the exact value [m * 10^e]; rounding to
    binary64 is not represented. *)
Inductive Number : Type :=
| NaN
| Infinity (negative : bool)
| Decimal (m e : Z).

Definition digit_of (base : Z) (c : ascii) : option Z :=
  let n := Z.of_nat (nat_of_ascii c) in
  let d := if (48 <=? n) && (n <=? 57) then n - 48
           else if (97 <=? n) && (n <=? 102) then n - 87
           else if (65 <=? n) && (n <=? 70) then n - 55
           else base in
  if d <? base then Some d else None.

(** Value of a string of digits in [base], continuing from [acc];
    [None] when a character is not a digit of that base. *)
Fixpoint digits_val (base acc : Z) (s : string) : option Z :=
  match s with
  | EmptyString => Some acc
  | String c s' =>
      match digit_of base c with
      | Some d => digits_val base (acc * base + d) s'
      | None => None
      end
  end.

(** Splits [s] before the first character satisfying [p]. *)
Fixpoint break (p : ascii -> bool) (s : string) : string * string :=
  match s with
  | EmptyString => (EmptyString, EmptyString)
  | String c s' =>
      if p c then (EmptyString, s)
      else let (a, b) := break p s' in (String c a, b)
  end.

Definition is_char (c d : ascii) : bool := Ascii.eqb c d.

(** [ExponentPart]: after the [e], an optional sign and at least one digit. *)
Definition exponent_val (s : string) : option Z :=
  match s with
  | EmptyString => Some 0%Z
  | String _ rest =>
      let (neg, ds) :=
        match rest with
        | String "-" r => (true, r)
        | String "+" r => (false, r)
        | _ => (false, rest)
        end in
      match ds with
      | EmptyString => None
      | _ => option_map (fun v => if neg then (- v)%Z else v) (digits_val 10 0 ds)
      end
  end.

(** [StrUnsignedDecimalLiteral] other than [Infinity]. *)
Definition unsigned_decimal (s : string) : option (Z * Z) :=
  let (mant, ex) := break (fun c => is_char c "e" || is_char c "E") s in
  let (ip, dotfp) := break (fun c => is_char c ".") mant in
  let fp := match dotfp with
            | EmptyString => EmptyString
            | String _ r => r
            end in
  match ip, fp with
  | EmptyString, EmptyString => None
  | _, _ =>
      match digits_val 10 0 ip, exponent_val ex with
      | Some i, Some x =>
          match digits_val 10 i fp with
          | Some m => Some (m, (x - Z.of_nat (String.length fp))%Z)
          | None => None
          end
      | _, _ => None
      end
  end.

Definition radix_literal (base : Z) (ds : string) : Number :=
  match ds with
  | EmptyString => NaN
  | _ => match digits_val base 0 ds with
         | Some v => Decimal v 0
         | None => NaN
         end
  end.

Definition signed_decimal (neg : bool) (s : string) : Number :=
  if String.eqb s "Infinity" then Infinity neg
  else match unsigned_decimal s with
       | Some (m, e) => Decimal (if neg then (- m)%Z else m) e
       | None => NaN
       end.

(** [StringToNumber]: white space is stripped, the empty string is [0],
    then a binary, octal or hexadecimal integer or a signed decimal
    literal; anything else is [NaN].  The value is the exact one of the
    literal: it is the number of the platform for a string of the ASCII
    range whose value a binary64 number holds exactly, as the decimal
    string of an integer up to [2^53] in magnitude; a literal of more
    digits is rounded by the platform and is not here. *)
Definition StringToNumber (s : string) : Number :=
  match trim s with
  | EmptyString => Decimal 0 0
  | String "0" (String "x" ds) | String "0" (String "X" ds) => radix_literal 16 ds
  | String "0" (String "o" ds) | String "0" (String "O" ds) => radix_literal 8 ds
  | String "0" (String "b" ds) | String "0" (String "B" ds) => radix_literal 2 ds
  | String "-" r => signed_decimal true r
  | String "+" r => signed_decimal false r
  | r => signed_decimal false r
  end.

(** [Number::equal]: [NaN] equals nothing, finite values are compared
    exactly. *)
Definition number_equal (a b : Number) : bool :=
  match a, b with
  | Infinity n1, Infinity n2 => Bool.eqb n1 n2
  | Decimal m1 e1, Decimal m2 e2 =>
      let d := Z.min e1 e2 in
      (m1 * 10 ^ (e1 - d) =? m2 * 10 ^ (e2 - d))%Z
  | _, _ => false
  end.

(** [n == s] for a number [n] and a string [s]: the string is converted
    with [StringToNumber] and the numbers are compared, exactly (see
    [StringToNumber] for the strings on which this is the comparison of
    the platform). *)
Definition loose_eq (n : Z) (s : string) : bool :=
  number_equal (Decimal n 0) (StringToNumber s).

Local Close Scope Z_scope.

(** The decimal digits of a natural number, as a template literal or a
    conversion to a string prints it. *)
Definition show_nat (n : nat) : string := NilZero.string_of_uint (Nat.to_uint n).

(** [String(n)] for an integer [n] (below [10^21] in magnitude, where the
    decimal notation is used). *)
Definition show_Z (z : Z) : string :=
  match z with
  | Z0 => "0"
  | Zpos p => show_nat (Pos.to_nat p)
  | Zneg p => String "-" (show_nat (Pos.to_nat p))
  end.

(* ===================================================================== *)
(** ** Data model *)
(* ===================================================================== *)

(** The tier of a tutorial. *)
Inductive Status : Type := regular | finalist | winner.

(** Modelled from the spec: the record of one tutorial of
    [data/tutorials.json] (the data file and its schema are not among the
    sources).  [status] is one of the three tiers or unset, the year is an
    integer, and [thumbnail] and [url] are optional. *)
Record Tutorial : Type := {
  title : string;
  authors : list string;
  year : Z;
  status : option Status;
  keywords : list string;
  thumbnail : option string;
  url : option string
}.

(** The current filters: the values of the search box ([searchInput.value])
    and of the two drop-downs ([yearSelect.value], [topicSelect.value]).
    The empty string is the unset filter.  A control holds the string
    that was last typed, chosen or assigned to its [value]. *)
Record FilterState : Type := {
  searchText : string;
  yearFilter : string;
  topicFilter : string
}.

(** How a control treats an assignment to its [value] (the markup of the
    page is not among the sources).  A text field holds any string.  A
    drop-down, that is a [select] element, holds the value of its selected
    option: an assignment selects the option of that value, and when the
    drop-down offers none no option is selected and [value] is the empty
    string. *)
Inductive Control : Type :=
| TextField
| DropDown (offers : string -> bool).

(** What [control.value] holds after [control.value = v]. *)
Definition assign_value (control : Control) (v : string) : string :=
  match control with
  | TextField => v
  | DropDown offers => if offers v then v else EmptyString
  end.

(** [Math.random()]: a value [numer / denom] of the interval [0, 1). *)
Record Draw : Type := {
  numer : nat;
  denom : nat;
  in_unit : numer < denom
}.

(** [Math.floor(u * n)] *)
Definition floor_scaled (u : Draw) (n : nat) : nat := (numer u * n) / denom u.

(** The sequence of values that successive calls of [Math.random] return;
    the number of calls made so far is threaded through the code below. *)
Definition Random : Type := nat -> Draw.

(* ===================================================================== *)
(** ** Filtering *)
(* ===================================================================== *)

Definition searchTerm (st : FilterState) : string :=
  trim (toLowerCase (searchText st)).

Definition matchesSearch (term : string) (t : Tutorial) : bool :=
  negb (truthy term)
  || includes (toLowerCase (title t)) term
  || existsb (fun author => includes (toLowerCase author) term) (authors t)
  || existsb (fun kw => includes (toLowerCase kw) term) (keywords t).

Definition matchesYear (selectedYear : string) (t : Tutorial) : bool :=
  negb (truthy selectedYear) || loose_eq (year t) selectedYear.

Definition matchesTopic (selectedTopic : string) (t : Tutorial) : bool :=
  negb (truthy selectedTopic) || existsb (String.eqb selectedTopic) (keywords t).

(** The callback of [allTutorials.filter] in [filterTutorials]. *)
Definition matches (st : FilterState) (t : Tutorial) : bool :=
  matchesSearch (searchTerm st) t
  && matchesYear (yearFilter st) t
  && matchesTopic (topicFilter st) t.

Definition filtered (allTutorials : list Tutorial) (st : FilterState) : list Tutorial :=
  filter (matches st) allTutorials.

(* ===================================================================== *)
(** ** The filter callback on objects *)
(* ===================================================================== *)

(** The outcome of evaluating an expression: a value, or a [TypeError]
    raised by calling the method [method] on [undefined]. *)
Inductive Completion (A : Type) : Type :=
| Normal (value : A)
| TypeError (method : string).

Arguments Normal {A} value.
Arguments TypeError {A} method.

Definition bind {A B : Type} (c : Completion A) (k : A -> Completion B)
    : Completion B :=
  match c with
  | Normal v => k v
  | TypeError m => TypeError m
  end.

Notation "x <- c ;; k" := (bind c (fun x => k))
  (at level 61, c at next level, right associativity).

(** The properties of a tutorial object that the callback reads; on an
    object taken from JSON any of them may be missing. *)
Record JsTutorial : Type := {
  js_title : option string;
  js_authors : option (list string);
  js_year : option Z;
  js_keywords : option (list string)
}.

(** [value.method(...)]: the receiver must not be [undefined]. *)
Definition receiver {A : Type} (method : string) (value : option A) : Completion A :=
  match value with
  | Some v => Normal v
  | None => TypeError method
  end.

(** [a || b], where [b] is evaluated only when [a] is false. *)
Definition or_else (a : bool) (b : Completion bool) : Completion bool :=
  if a then Normal true else b.

Definition js_matchesSearch (term : string) (t : JsTutorial) : Completion bool :=
  or_else (negb (truthy term))
    (title <- receiver "toLowerCase" (js_title t) ;;
     or_else (includes (toLowerCase title) term)
       (authors <- receiver "some" (js_authors t) ;;
        or_else (existsb (fun author => includes (toLowerCase author) term) authors)
          (keywords <- receiver "some" (js_keywords t) ;;
           Normal (existsb (fun kw => includes (toLowerCase kw) term) keywords)))).

Definition js_matchesYear (selectedYear : string) (t : JsTutorial) : bool :=
  negb (truthy selectedYear)
  || match js_year t with
     | Some y => loose_eq y selectedYear
     | None => false
     end.

Definition js_matchesTopic (selectedTopic : string) (t : JsTutorial)
    : Completion bool :=
  or_else (negb (truthy selectedTopic))
    (keywords <- receiver "includes" (js_keywords t) ;;
     Normal (existsb (String.eqb selectedTopic) keywords)).

Definition js_matches (st : FilterState) (t : JsTutorial) : Completion bool :=
  matchesSearch <- js_matchesSearch (searchTerm st) t ;;
  let matchesYear := js_matchesYear (yearFilter st) t in
  matchesTopic <- js_matchesTopic (topicFilter st) t ;;
  Normal (matchesSearch && matchesYear && matchesTopic).

(** [Array.prototype.filter] with a callback that may raise. *)
Fixpoint js_filter {A : Type} (callback : A -> Completion bool) (arr : list A)
    : Completion (list A) :=
  match arr with
  | [] => Normal []
  | a :: arr' =>
      keep <- callback a ;;
      rest <- js_filter callback arr' ;;
      Normal (if keep then a :: rest else rest)
  end.

(** The object of a tutorial of the data model. *)
Definition to_object (t : Tutorial) : JsTutorial :=
  {| js_title := Some (title t); js_authors := Some (authors t);
     js_year := Some (year t); js_keywords := Some (keywords t) |}.

(* ===================================================================== *)
(** ** Grouping by year and ordering *)
(* ===================================================================== *)

(** The object [byYear]: its own properties in the order of their
    creation, each holding the array of the tutorials of one year.  The
    property key of a year is its decimal string, so the properties are
    identified by the year itself. *)
Definition ByYear : Type := list (Z * list Tutorial).

(** [byYear[y]] *)
Fixpoint lookup (y : Z) (m : ByYear) : option (list Tutorial) :=
  match m with
  | [] => None
  | (k, g) :: m' => if (k =? y)%Z then Some g else lookup y m'
  end.

(** [byYear[y] = g]: an existing property keeps its place, a new one is
    created last. *)
Fixpoint assign (y : Z) (g : list Tutorial) (m : ByYear) : ByYear :=
  match m with
  | [] => [(y, g)]
  | (k, g0) :: m' =>
      if (k =? y)%Z then (k, g) :: m' else (k, g0) :: assign y g m'
  end.

(** [if (!byYear[t.year]) byYear[t.year] = []; byYear[t.year].push(t)] *)
Definition push_year (m : ByYear) (t : Tutorial) : ByYear :=
  match lookup (year t) m with
  | None => assign (year t) [t] m
  | Some g => assign (year t) (g ++ [t]) m
  end.

(** The [forEach] loop that fills [byYear]. *)
Definition group_by_year (tutorials : list Tutorial) : ByYear :=
  fold_left push_year tutorials [].

(** [Array.prototype.sort] with a comparison function: [a] stays before
    [b] when [cmp a b <= 0]; the sort is stable. *)
Fixpoint insert_by {A : Type} (cmp : A -> A -> Z) (a : A) (l : list A) : list A :=
  match l with
  | [] => [a]
  | b :: l' => if (cmp a b <=? 0)%Z then a :: l else b :: insert_by cmp a l'
  end.

Fixpoint sort_by {A : Type} (cmp : A -> A -> Z) (l : list A) : list A :=
  match l with
  | [] => []
  | a :: l' => insert_by cmp a (sort_by cmp l')
  end.

(** A property key that is an array index (an integer from [0] to
    [2^32 - 2]) is enumerated before the other keys. *)
Definition is_array_index (y : Z) : bool :=
  ((0 <=? y) && (y <? 2 ^ 32 - 1))%Z.

(** [Object.keys(byYear)]: the array indices in ascending order, then the
    other keys in the order of their creation. *)
Definition own_keys (m : ByYear) : list Z :=
  sort_by (fun a b => (a - b)%Z) (filter is_array_index (map fst m))
  ++ filter (fun y => negb (is_array_index y)) (map fst m).

(** [years.sort((a, b) => b - a)] *)
Definition sort_descending (years : list Z) : list Z :=
  sort_by (fun a b => (b - a)%Z) years.

(** ** Tiers and the shuffle of the regular tier *)

Definition is_winner (t : Tutorial) : bool :=
  match status t with Some winner => true | _ => false end.

Definition is_finalist (t : Tutorial) : bool :=
  match status t with Some finalist => true | _ => false end.

(** [!t.status || t.status === 'regular'] *)
Definition is_regular (t : Tutorial) : bool :=
  match status t with None | Some regular => true | _ => false end.

(** [arr[i] = x] for an index inside the array. *)
Fixpoint set_nth {A : Type} (i : nat) (x : A) (arr : list A) : list A :=
  match arr, i with
  | [], _ => []
  | _ :: arr', O => x :: arr'
  | a :: arr', S i' => a :: set_nth i' x arr'
  end.

(** [[arr[i], arr[j]] = [arr[j], arr[i]]]: both elements are read, then
    [arr[i]] and [arr[j]] are written in this order.  The loop below only
    uses indices inside the array. *)
Definition swap {A : Type} (i j : nat) (arr : list A) : list A :=
  match nth_error arr i, nth_error arr j with
  | Some a, Some b => set_nth j a (set_nth i b arr)
  | _, _ => arr
  end.

(** [for (let i = ...; i > 0; i--) { j = floor(random() * (i + 1)); swap }],
    entered with the index [i]; [calls] counts the calls of [Math.random]. *)
Fixpoint fisher_yates {A : Type} (rnd : Random) (i : nat) (arr : list A)
    (calls : nat) : list A * nat :=
  match i with
  | O => (arr, calls)
  | S i' =>
      let j := floor_scaled (rnd calls) (i + 1) in
      fisher_yates rnd i' (swap i j arr) (S calls)
  end.

(** The body of the loop over the year groups: winners, then finalists,
    then the shuffled regular tutorials. *)
Definition arrange_group (rnd : Random) (group : list Tutorial) (calls : nat)
    : list Tutorial * nat :=
  let winners := filter is_winner group in
  let finalists := filter is_finalist group in
  let regulars := filter is_regular group in
  let (shuffled, calls') :=
    fisher_yates rnd (List.length regulars - 1) regulars calls in
  (winners ++ finalists ++ shuffled, calls').

(** [Object.keys(byYear).forEach(year => ... byYear[year] = [...])] *)
Definition arrange_step (rnd : Random) (acc : ByYear * nat) (y : Z) : ByYear * nat :=
  let (m, calls) := acc in
  match lookup y m with
  | Some group =>
      let (g, calls') := arrange_group rnd group calls in
      (assign y g m, calls')
  | None => acc
  end.

Definition arrange_all (rnd : Random) (m : ByYear) (calls : nat) : ByYear * nat :=
  fold_left (arrange_step rnd) (own_keys m) (m, calls).

(** [keys.flatMap(year => byYear[year])] *)
Definition flatten (m : ByYear) (keys : list Z) : list Tutorial :=
  flat_map (fun y => match lookup y m with Some g => g | None => [] end) keys.

(** [shuffleWithinYears]: the ordered array and the number of calls of
    [Math.random] made so far. *)
Definition shuffleWithinYears (rnd : Random) (tutorials : list Tutorial)
    (calls : nat) : list Tutorial * nat :=
  let byYear := group_by_year tutorials in
  let (byYear', calls') := arrange_all rnd byYear calls in
  (flatten byYear' (sort_descending (own_keys byYear')), calls').

(** The Filter Engine: the filter followed by [shuffleWithinYears], as in
    [filterTutorials]. *)
Definition apply (rnd : Random) (allTutorials : list Tutorial)
    (st : FilterState) (calls : nat) : list Tutorial * nat :=
  shuffleWithinYears rnd (filtered allTutorials st) calls.

(** The year sections that [renderTutorials] lays out for a non-empty
    result: the result is grouped by year again and the years are sorted
    in descending order. *)
Definition year_sections (tutorials : list Tutorial) : list (Z * list Tutorial) :=
  let byYear := group_by_year tutorials in
  map (fun y => (y, match lookup y byYear with Some g => g | None => [] end))
      (sort_descending (own_keys byYear)).

(* ===================================================================== *)
(** ** The filter over the string functions of the platform *)
(* ===================================================================== *)

(** The callback of [filterTutorials] with the built-in functions that it
    calls taken as parameters: [lower] for [String.prototype.toLowerCase],
    [strip] for [String.prototype.trim] and [equals] for the comparison
    [==] of a number with a string.  The definitions of the section
    Filtering are the instance at [toLowerCase], [trim] and [loose_eq],
    which are those functions on texts of the ASCII range and on the
    decimal strings of integers. *)
Section Platform.
Variables lower strip : string -> string.
Variable equals : Z -> string -> bool.

Definition searchTerm_with (st : FilterState) : string :=
  strip (lower (searchText st)).

Definition matchesSearch_with (term : string) (t : Tutorial) : bool :=
  negb (truthy term)
  || includes (lower (title t)) term
  || existsb (fun author => includes (lower author) term) (authors t)
  || existsb (fun kw => includes (lower kw) term) (keywords t).

Definition matchesYear_with (selectedYear : string) (t : Tutorial) : bool :=
  negb (truthy selectedYear) || equals (year t) selectedYear.

Definition matches_with (st : FilterState) (t : Tutorial) : bool :=
  matchesSearch_with (searchTerm_with st) t
  && matchesYear_with (yearFilter st) t
  && matchesTopic (topicFilter st) t.

(** The filter followed by [shuffleWithinYears], as in [filterTutorials]. *)
Definition apply_with (rnd : Random) (allTutorials : list Tutorial)
    (st : FilterState) (calls : nat) : list Tutorial * nat :=
  shuffleWithinYears rnd (filter (matches_with st) allTutorials) calls.

End Platform.

(* ===================================================================== *)
(** ** [shuffleWithinYears] on objects of any status *)
(* ===================================================================== *)

(** [shuffleWithinYears] over objects of any kind, with the properties it
    reads as parameters: [year_of] for [t.year] and the three tests of the
    tier filters.  The definitions of the section Grouping by year and
    ordering are the instance at the tutorials of the data model. *)
Section Objects.
Context {A : Type}.
Variable year_of : A -> Z.
Variables winner_test finalist_test regular_test : A -> bool.

Fixpoint lookup_of (y : Z) (m : list (Z * list A)) : option (list A) :=
  match m with
  | [] => None
  | (k, g) :: m' => if (k =? y)%Z then Some g else lookup_of y m'
  end.

Fixpoint assign_of (y : Z) (g : list A) (m : list (Z * list A))
    : list (Z * list A) :=
  match m with
  | [] => [(y, g)]
  | (k, g0) :: m' =>
      if (k =? y)%Z then (k, g) :: m' else (k, g0) :: assign_of y g m'
  end.

Definition push_year_of (m : list (Z * list A)) (t : A) : list (Z * list A) :=
  match lookup_of (year_of t) m with
  | None => assign_of (year_of t) [t] m
  | Some g => assign_of (year_of t) (g ++ [t]) m
  end.

Definition group_by_year_of (objects : list A) : list (Z * list A) :=
  fold_left push_year_of objects [].

Definition own_keys_of (m : list (Z * list A)) : list Z :=
  sort_by (fun a b => (a - b)%Z) (filter is_array_index (map fst m))
  ++ filter (fun y => negb (is_array_index y)) (map fst m).

Definition arrange_group_of (rnd : Random) (group : list A) (calls : nat)
    : list A * nat :=
  let winners := filter winner_test group in
  let finalists := filter finalist_test group in
  let regulars := filter regular_test group in
  let (shuffled, calls') :=
    fisher_yates rnd (List.length regulars - 1) regulars calls in
  (winners ++ finalists ++ shuffled, calls').

Definition arrange_step_of (rnd : Random) (acc : list (Z * list A) * nat) (y : Z)
    : list (Z * list A) * nat :=
  let (m, calls) := acc in
  match lookup_of y m with
  | Some group =>
      let (g, calls') := arrange_group_of rnd group calls in
      (assign_of y g m, calls')
  | None => acc
  end.

Definition arrange_all_of (rnd : Random) (m : list (Z * list A)) (calls : nat)
    : list (Z * list A) * nat :=
  fold_left (arrange_step_of rnd) (own_keys_of m) (m, calls).

Definition flatten_of (m : list (Z * list A)) (keys : list Z) : list A :=
  flat_map (fun y => match lookup_of y m with Some g => g | None => [] end) keys.

Definition shuffleWithinYears_of (rnd : Random) (objects : list A) (calls : nat)
    : list A * nat :=
  let byYear := group_by_year_of objects in
  let (byYear', calls') := arrange_all_of rnd byYear calls in
  (flatten_of byYear' (sort_descending (own_keys_of byYear')), calls').

End Objects.

(** A tutorial object as [shuffleWithinYears] reads it: its year and its
    [status], which in the document is any string or is missing; the
    title tells the objects apart. *)
Record JsRanked : Type := {
  ranked_title : string;
  ranked_year : Z;
  ranked_status : option string
}.

(** [t.status === 'winner'] *)
Definition js_is_winner (t : JsRanked) : bool :=
  match ranked_status t with
  | Some s => (s =? "winner")%string
  | None => false
  end.

(** [t.status === 'finalist'] *)
Definition js_is_finalist (t : JsRanked) : bool :=
  match ranked_status t with
  | Some s => (s =? "finalist")%string
  | None => false
  end.

(** [!t.status || t.status === 'regular'] *)
Definition js_is_regular (t : JsRanked) : bool :=
  match ranked_status t with
  | Some s => negb (truthy s) || (s =? "regular")%string
  | None => true
  end.

(** [shuffleWithinYears] on the objects of the document. *)
Definition js_shuffleWithinYears (rnd : Random) (objects : list JsRanked)
    (calls : nat) : list JsRanked * nat :=
  shuffleWithinYears_of ranked_year js_is_winner js_is_finalist js_is_regular
                        rnd objects calls.

(* ===================================================================== *)
(** ** URL parameters *)
(* ===================================================================== *)

(** [URLSearchParams]: the list of name-value pairs. *)
Definition URLSearchParams : Type := list (string * string).

(** [params.has(name)] *)
Definition params_has (name : string) (params : URLSearchParams) : bool :=
  existsb (fun p => String.eqb (fst p) name) params.

(** [params.get(name)]: the value of the first pair of that name, or
    [null]. *)
Fixpoint params_get (name : string) (params : URLSearchParams) : option string :=
  match params with
  | [] => None
  | (n, v) :: params' =>
      if String.eqb n name then Some v else params_get name params'
  end.

(** [params.set(name, value)]: the first pair of that name takes the new
    value and the others of that name are removed; without such a pair a
    new one is appended. *)
Fixpoint params_set (name value : string) (params : URLSearchParams)
    : URLSearchParams :=
  match params with
  | [] => [(name, value)]
  | (n, v) :: params' =>
      if String.eqb n name
      then (n, value) :: filter (fun p => negb (String.eqb (fst p) name)) params'
      else (n, v) :: params_set name value params'
  end.

(** *** Serialising ([params.toString()]) *)

Definition hex_digit (n : nat) : ascii :=
  if n <? 10 then ascii_of_nat (48 + n) else ascii_of_nat (55 + n).

(** Characters that the form-urlencoded serialiser leaves as they are:
    letters, digits and [* - . _]. *)
Definition is_unreserved (c : ascii) : bool :=
  let n := nat_of_ascii c in
  ((48 <=? n) && (n <=? 57)) || ((65 <=? n) && (n <=? 90))
  || ((97 <=? n) && (n <=? 122))
  || (n =? 42) || (n =? 45) || (n =? 46) || (n =? 95).

Definition encode_char (c : ascii) : string :=
  if is_unreserved c then String c EmptyString
  else if (nat_of_ascii c =? 32) then "+"
  else String "%" (String (hex_digit (nat_of_ascii c / 16))
                  (String (hex_digit (nat_of_ascii c mod 16)) EmptyString)).

Fixpoint urlencode (s : string) : string :=
  match s with
  | EmptyString => EmptyString
  | String c s' => (encode_char c ++ urlencode s')%string
  end.

Fixpoint join (sep : string) (parts : list string) : string :=
  match parts with
  | [] => EmptyString
  | [p] => p
  | p :: parts' => (p ++ sep ++ join sep parts')%string
  end.

Definition params_toString (params : URLSearchParams) : string :=
  join "&" (map (fun p => (urlencode (fst p) ++ "=" ++ urlencode (snd p))%string)
                params).

(** *** Parsing ([new URLSearchParams(query)]) *)

Definition hex_value (c : ascii) : option nat :=
  let n := nat_of_ascii c in
  if (48 <=? n) && (n <=? 57) then Some (n - 48)
  else if (65 <=? n) && (n <=? 70) then Some (n - 55)
  else if (97 <=? n) && (n <=? 102) then Some (n - 87)
  else None.

(** Percent-decoding: [%XY] gives the byte [XY].  The platform then reads
    the bytes as UTF-8 and writes U+FFFD for a sequence that is not
    UTF-8; here the bytes are kept, which is the same for every query
    that the serialiser writes. *)
Fixpoint percent_decode (s : string) : string :=
  match s with
  | EmptyString => EmptyString
  | String c s1 =>
      if is_char c "%" then
        match s1 with
        | String a (String b rest) =>
            match hex_value a, hex_value b with
            | Some h, Some l => String (ascii_of_nat (16 * h + l)) (percent_decode rest)
            | _, _ => String c (percent_decode s1)
            end
        | _ => String c (percent_decode s1)
        end
      else String c (percent_decode s1)
  end.

Fixpoint plus_to_space (s : string) : string :=
  match s with
  | EmptyString => EmptyString
  | String c s' => String (if is_char c "+" then " "%char else c) (plus_to_space s')
  end.

Definition urldecode (s : string) : string := percent_decode (plus_to_space s).

(** The pieces of [s] between the occurrences of [sep]. *)
Fixpoint split_on (sep : ascii) (s : string) : list string :=
  match s with
  | EmptyString => [EmptyString]
  | String c s' =>
      if is_char c sep then EmptyString :: split_on sep s'
      else match split_on sep s' with
           | [] => [String c EmptyString]
           | p :: ps => String c p :: ps
           end
  end.

(** One [name=value] sequence: split at the first [=]; without [=] the
    value is empty. *)
Definition parse_pair (piece : string) : string * string :=
  let (name, rest) := break (fun c => is_char c "=") piece in
  let value := match rest with
               | EmptyString => EmptyString
               | String _ v => v
               end in
  (urldecode name, urldecode value).

Definition parse_urlencoded (s : string) : URLSearchParams :=
  map parse_pair (filter truthy (split_on "&" s)).

(** [new URLSearchParams(init)]: a leading [?] is dropped. *)
Definition new_URLSearchParams (init : string) : URLSearchParams :=
  match init with
  | String "?" s => parse_urlencoded s
  | _ => parse_urlencoded init
  end.

(** *** The filters in the URL *)

(** The parameters that [updateURL] builds from the three controls. *)
Definition url_params (st : FilterState) : URLSearchParams :=
  let params := [] in
  let params := if truthy (searchText st)
                then params_set "search" (searchText st) params else params in
  let params := if truthy (yearFilter st)
                then params_set "year" (yearFilter st) params else params in
  let params := if truthy (topicFilter st)
                then params_set "topic" (topicFilter st) params else params in
  params.

(** [toQuery]: the query string of the URL that [updateURL] installs. *)
Definition toQuery (st : FilterState) : string := params_toString (url_params st).

(** The argument of [history.replaceState] in [updateURL]. *)
Definition newURL (pathname : string) (st : FilterState) : string :=
  if truthy (toQuery st) then (pathname ++ "?" ++ toQuery st)%string
  else pathname.

(** [window.location.search] once that URL is installed: the query with
    its [?], or the empty string when there is no query. *)
Definition search_of (st : FilterState) : string :=
  if truthy (toQuery st) then ("?" ++ toQuery st)%string else EmptyString.

(** The assignments of [initializeFromURL]: a control is written only when
    its parameter is present.  The search box is a text field;
    [yearSelect] and [topicSelect] are the controls given. *)
Definition read_params (params : URLSearchParams)
    (yearSelect topicSelect : Control) (controls : FilterState) : FilterState :=
  let from name control old :=
    if params_has name params
    then match params_get name params with
         | Some v => assign_value control v
         | None => old
         end
    else old in
  {| searchText := from "search" TextField (searchText controls);
     yearFilter := from "year" yearSelect (yearFilter controls);
     topicFilter := from "topic" topicSelect (topicFilter controls) |}.

(** The controls of a freshly loaded page: nothing typed, nothing chosen. *)
Definition no_filters : FilterState :=
  {| searchText := EmptyString; yearFilter := EmptyString; topicFilter := EmptyString |}.

(** [fromQuery]: the filter state that [initializeFromURL] establishes on a
    freshly loaded page whose [location.search] is [query]. *)
Definition fromQuery (yearSelect topicSelect : Control) (query : string)
    : FilterState :=
  read_params (new_URLSearchParams query) yearSelect topicSelect no_filters.

(* ===================================================================== *)
(** ** The page and its controller *)
(* ===================================================================== *)

(** The markup of the page, as far as the script depends on it: which of
    the elements that the script guards with a null test were found in
    the document ([libraryContainer], [resultsCount], [clearButton]), and
    whether [yearSelect] and [topicSelect] are [select] elements or
    controls that hold any string assigned to them. *)
Record Page : Type := {
  libraryContainer : bool;
  resultsCount : bool;
  clearButton : bool;
  selects : bool
}.

(** What the script does to the page, to the address bar and to its own
    result variable:
    - [ShowLoading], [ShowEmptyState], [ShowError]: the container shows
      the loading, the empty or the error state;
    - [ClearContainer]: [libraryContainer.innerHTML = ''];
    - [RenderSections]: a header and a grid of cards are appended for each
      year section;
    - [SetResultsCount]: the text of the count indicator is set;
    - [ReplaceState]: [history.replaceState] installs the URL;
    - [SetClearButton]: [clearButton.style.display] is set;
    - [Filtered]: the filter and [shuffleWithinYears] have run on the
      control values [st] and [filteredTutorials] holds their result. *)
Inductive Effect : Type :=
| ShowLoading
| ShowError (message : string)
| ClearContainer
| ShowEmptyState
| RenderSections (sections : list (Z * list Tutorial))
| SetResultsCount (text : string)
| ReplaceState (url : string)
| SetClearButton (display : string)
| Filtered (st : FilterState) (result : list Tutorial).

(** The life cycle of the page: the data is loading, has arrived, or the
    load has failed. *)
Inductive Phase : Type := Loading | Ready | Failed.

(** The state of the script and of its environment.  [timers] holds the
    pending timeouts with the time at which each becomes due; [clock] is
    the time in milliseconds; [trace] records the effects with the time
    at which each happened. *)
Record World : Type := {
  allTutorials : list Tutorial;
  filteredTutorials : list Tutorial;
  controls : FilterState;
  pathname : string;
  location_search : string;
  searchDebounce : option nat;
  timers : list (nat * Z);
  next_timer : nat;
  random_calls : nat;
  clock : Z;
  phase : Phase;
  trace : list (Z * Effect)
}.

Definition emit (e : Effect) (w : World) : World :=
  {| allTutorials := allTutorials w; filteredTutorials := filteredTutorials w;
     controls := controls w; pathname := pathname w;
     location_search := location_search w;
     searchDebounce := searchDebounce w; timers := timers w;
     next_timer := next_timer w; random_calls := random_calls w;
     clock := clock w; phase := phase w;
     trace := trace w ++ [(clock w, e)] |}.

Definition set_controls (st : FilterState) (w : World) : World :=
  {| allTutorials := allTutorials w; filteredTutorials := filteredTutorials w;
     controls := st; pathname := pathname w;
     location_search := location_search w;
     searchDebounce := searchDebounce w; timers := timers w;
     next_timer := next_timer w; random_calls := random_calls w;
     clock := clock w; phase := phase w; trace := trace w |}.

Definition set_timers (debounce : option nat) (pending : list (nat * Z))
    (next : nat) (w : World) : World :=
  {| allTutorials := allTutorials w; filteredTutorials := filteredTutorials w;
     controls := controls w; pathname := pathname w;
     location_search := location_search w;
     searchDebounce := debounce; timers := pending;
     next_timer := next; random_calls := random_calls w;
     clock := clock w; phase := phase w; trace := trace w |}.

Definition set_clock (t : Z) (w : World) : World :=
  {| allTutorials := allTutorials w; filteredTutorials := filteredTutorials w;
     controls := controls w; pathname := pathname w;
     location_search := location_search w;
     searchDebounce := searchDebounce w; timers := timers w;
     next_timer := next_timer w; random_calls := random_calls w;
     clock := t; phase := phase w; trace := trace w |}.

Definition count_text (count total : nat) : string :=
  if count =? total
  then ("Showing all " ++ show_nat total ++ " tutorials")%string
  else ("Showing " ++ show_nat count ++ " of " ++ show_nat total ++ " tutorials")%string.

Definition updateResultsCount (page : Page) (count : nat) (w : World) : World :=
  if negb (resultsCount page) then w
  else emit (SetResultsCount (count_text count (List.length (allTutorials w)))) w.

Definition showLoading (page : Page) (w : World) : World :=
  if negb (libraryContainer page) then w else emit ShowLoading w.

Definition showEmptyState (page : Page) (w : World) : World :=
  if negb (libraryContainer page) then w else emit ShowEmptyState w.

Definition showError (page : Page) (message : string) (w : World) : World :=
  if negb (libraryContainer page) then w else emit (ShowError message) w.

Definition renderTutorials (page : Page) (tutorials : list Tutorial) (w : World)
    : World :=
  if negb (libraryContainer page) then w
  else
    let w := emit ClearContainer w in
    match tutorials with
    | [] => updateResultsCount page 0 (showEmptyState page w)
    | _ :: _ =>
        let w := emit (RenderSections (year_sections tutorials)) w in
        updateResultsCount page (List.length tutorials) w
    end.

(** [updateURL]: the current entry of the history is replaced; afterwards
    [location.search] is the new query. *)
Definition updateURL (w : World) : World :=
  let w := emit (ReplaceState (newURL (pathname w) (controls w))) w in
  {| allTutorials := allTutorials w; filteredTutorials := filteredTutorials w;
     controls := controls w; pathname := pathname w;
     location_search := search_of (controls w);
     searchDebounce := searchDebounce w; timers := timers w;
     next_timer := next_timer w; random_calls := random_calls w;
     clock := clock w; phase := phase w; trace := trace w |}.

(** [searchInput.value || yearSelect.value || topicSelect.value] *)
Definition hasFilters (st : FilterState) : bool :=
  truthy (searchText st) || truthy (yearFilter st) || truthy (topicFilter st).

Definition updateClearButton (page : Page) (w : World) : World :=
  if negb (clearButton page) then w
  else emit (SetClearButton (if hasFilters (controls w) then "inline-block" else "none")) w.

(** The assignment [filteredTutorials = filtered] after the filter and
    [shuffleWithinYears] have run on the values [st] read from the
    controls. *)
Definition store_filtered (st : FilterState) (result : list Tutorial)
    (calls : nat) (w : World) : World :=
  let w := emit (Filtered st result) w in
  {| allTutorials := allTutorials w; filteredTutorials := result;
     controls := controls w; pathname := pathname w;
     location_search := location_search w;
     searchDebounce := searchDebounce w; timers := timers w;
     next_timer := next_timer w; random_calls := calls;
     clock := clock w; phase := phase w; trace := trace w |}.

Definition filterTutorials (rnd : Random) (page : Page) (w : World) : World :=
  let st := controls w in
  let (result, calls) := apply rnd (allTutorials w) st (random_calls w) in
  let w := store_filtered st result calls w in
  let w := renderTutorials page result w in
  let w := updateURL w in
  updateClearButton page w.

(** [clearTimeout(id)]: a pending timeout of that id is dropped; [null]
    or the id of a timeout that has fired changes nothing. *)
Definition clearTimeout (id : option nat) (w : World) : World :=
  match id with
  | Some i =>
      set_timers (searchDebounce w)
                 (filter (fun p => negb (fst p =? i)) (timers w))
                 (next_timer w) w
  | None => w
  end.

(** [searchDebounce = setTimeout(() => filterTutorials(), delay)] *)
Definition setTimeout_debounce (delay : Z) (w : World) : World :=
  set_timers (Some (next_timer w))
             (timers w ++ [(next_timer w, (clock w + delay)%Z)])
             (S (next_timer w)) w.

Definition handleSearch (w : World) : World :=
  setTimeout_debounce 300 (clearTimeout (searchDebounce w) w).

Definition clearFilters (rnd : Random) (page : Page) (w : World) : World :=
  filterTutorials rnd page (set_controls no_filters w).


Definition double_quote : string := String (ascii_of_nat 34) EmptyString.

(** The text that the [catch] of [loadTutorials] shows. *)
Definition load_error_text (message : string) : string :=
  if includes message "Failed to fetch"
  then ("Cannot load tutorials. Please make sure you are viewing this page through a web server (not file://). Try using "
        ++ double_quote ++ "python3 -m http.server" ++ double_quote
        ++ " or similar.")%string
  else ("Failed to load tutorials: " ++ message)%string.

(** [[...new Set(values)]]: the values without repetition, each at the
    place of its first occurrence. *)
Definition distinct (values : list Z) : list Z :=
  fold_left (fun seen y => if existsb (Z.eqb y) seen then seen else seen ++ [y])
            values [].

(** The values of the options that [populateFilters] gives to the year
    drop-down: the empty value of "All Years", then the distinct years in
    descending order. *)
Definition year_option_values (tutorials : list Tutorial) : list string :=
  EmptyString :: map show_Z (sort_descending (distinct (map year tutorials))).

Definition year_offers (tutorials : list Tutorial) (v : string) : bool :=
  existsb (String.eqb v) (year_option_values tutorials).

(** The topic drop-down after [populateFilters]: the empty value of "All
    Topics" and every keyword of every tutorial.  (The script orders the
    options with [localeCompare]; only which values are offered matters
    here.) *)
Definition topic_offers (tutorials : list Tutorial) (v : string) : bool :=
  negb (truthy v)
  || existsb (fun t => existsb (String.eqb v) (keywords t)) tutorials.

(** The year control once [populateFilters] has run.  The script names it
    [yearSelect] and fills it with [option] elements, which is what a
    [select] element holds: its [value] is that of the selected option. *)
Definition year_control (page : Page) (tutorials : list Tutorial) : Control :=
  if selects page then DropDown (year_offers tutorials) else TextField.

Definition topic_control (page : Page) (tutorials : list Tutorial) : Control :=
  if selects page then DropDown (topic_offers tutorials) else TextField.

(** [populateFilters]: the options of the two drop-downs are replaced by
    those of the loaded data.  A [select] element whose options are
    replaced has its first option, of value [""], selected. *)
Definition populateFilters (page : Page) (w : World) : World :=
  if selects page
  then set_controls
         {| searchText := searchText (controls w);
            yearFilter := EmptyString; topicFilter := EmptyString |} w
  else w.

(** [initializeFromURL], called when [populateFilters] has filled the
    drop-downs from [allTutorials]. *)
Definition initializeFromURL (rnd : Random) (page : Page) (w : World) : World :=
  let params := new_URLSearchParams (location_search w) in
  filterTutorials rnd page
    (set_controls
       (read_params params (year_control page (allTutorials w))
                    (topic_control page (allTutorials w)) (controls w))
       w).

(** The continuation of [loadTutorials] once the data has arrived:
    [allTutorials] is set, then [populateFilters] and [initializeFromURL]
    run. *)
Definition load_succeeds (rnd : Random) (page : Page) (data : list Tutorial)
    (w : World) : World :=
  initializeFromURL rnd page
    (populateFilters page
       {| allTutorials := data; filteredTutorials := filteredTutorials w;
          controls := controls w; pathname := pathname w;
          location_search := location_search w;
          searchDebounce := searchDebounce w; timers := timers w;
          next_timer := next_timer w; random_calls := random_calls w;
          clock := clock w; phase := Ready; trace := trace w |}).

Definition load_fails (page : Page) (message : string) (w : World) : World :=
  showError page (load_error_text message)
    {| allTutorials := allTutorials w; filteredTutorials := filteredTutorials w;
       controls := controls w; pathname := pathname w;
       location_search := location_search w;
       searchDebounce := searchDebounce w; timers := timers w;
       next_timer := next_timer w; random_calls := random_calls w;
       clock := clock w; phase := Failed; trace := trace w |}.

(** [init]: the listeners are installed, then [loadTutorials] starts and
    shows the loading state; the data arrives later. *)
Definition init (page : Page) (path query : string) : World :=
  showLoading page
    {| allTutorials := []; filteredTutorials := [];
       controls := no_filters; pathname := path; location_search := query;
       searchDebounce := None; timers := []; next_timer := 0;
       random_calls := 0; clock := 0%Z; phase := Loading; trace := [] |}.

(** What can happen to the page once [init] has run: the events that the
    listeners of [initializeEventListeners] receive, a timeout that fires,
    and the two outcomes of the load. *)
Inductive Action : Type :=
| SearchInput (text : string)
| YearChange (value : string)
| TopicChange (value : string)
| ClearClick
| TimerFires (id : nat)
| LoadSucceeds (data : list Tutorial)
| LoadFails (message : string).

Definition with_search (text : string) (st : FilterState) : FilterState :=
  {| searchText := text; yearFilter := yearFilter st; topicFilter := topicFilter st |}.

Definition with_year (value : string) (st : FilterState) : FilterState :=
  {| searchText := searchText st; yearFilter := value; topicFilter := topicFilter st |}.

Definition with_topic (value : string) (st : FilterState) : FilterState :=
  {| searchText := searchText st; yearFilter := yearFilter st; topicFilter := value |}.

Fixpoint due_time (id : nat) (pending : list (nat * Z)) : option Z :=
  match pending with
  | [] => None
  | (i, due) :: pending' => if i =? id then Some due else due_time id pending'
  end.

(** One action at the time [t].  Time does not run backwards; a timeout
    fires only when it is pending and due, and is then no longer pending;
    the load ends once.  [None] marks an action that cannot happen in
    this state. *)
Definition step (rnd : Random) (page : Page) (event : Z * Action) (w : World)
    : option World :=
  let (t, action) := event in
  if (t <? clock w)%Z then None
  else
    let w := set_clock t w in
    match action with
    | SearchInput text =>
        Some (handleSearch (set_controls (with_search text (controls w)) w))
    | YearChange value =>
        Some (filterTutorials rnd page (set_controls (with_year value (controls w)) w))
    | TopicChange value =>
        Some (filterTutorials rnd page (set_controls (with_topic value (controls w)) w))
    | ClearClick =>
        if clearButton page then Some (clearFilters rnd page w) else None
    | TimerFires id =>
        match due_time id (timers w) with
        | Some due =>
            if (due <=? t)%Z
            then Some (filterTutorials rnd page
                         (set_timers (searchDebounce w)
                                     (filter (fun p => negb (fst p =? id)) (timers w))
                                     (next_timer w) w))
            else None
        | None => None
        end
    | LoadSucceeds data =>
        match phase w with
        | Loading => Some (load_succeeds rnd page data w)
        | _ => None
        end
    | LoadFails message =>
        match phase w with
        | Loading => Some (load_fails page message w)
        | _ => None
        end
    end.

Fixpoint run (rnd : Random) (page : Page) (events : list (Z * Action)) (w : World)
    : option World :=
  match events with
  | [] => Some w
  | event :: events' =>
      match step rnd page event w with
      | Some w' => run rnd page events' w'
      | None => None
      end
  end.

(* ===================================================================== *)
(** ** Cards *)
(* ===================================================================== *)

Definition is_lower (c : ascii) : bool :=
  (97 <=? nat_of_ascii c) && (nat_of_ascii c <=? 122).

Definition upper_char (c : ascii) : ascii :=
  if is_lower c then ascii_of_nat (nat_of_ascii c - 32) else c.

(** [capitalizeFirst]: [str.charAt(0).toUpperCase() + str.slice(1)], and
    the empty string when [str] is empty; for a text whose first character
    is of the ASCII range (the platform also changes other letters, and
    writes two letters for some). *)
Definition capitalizeFirst (str : string) : string :=
  match str with
  | EmptyString => EmptyString
  | String c rest => String (upper_char c) rest
  end.

(** [div.innerHTML] of an element whose [textContent] is [text]: the
    serialisation of a text node writes [&], [<] and [>] as the character
    references [&amp;], [&lt;] and [&gt;], and the no-break space (the
    bytes 194 160 of its UTF-8 form) as [&nbsp;]; every other character
    is written as it is. *)
Fixpoint text_markup (text : string) : string :=
  match text with
  | EmptyString => EmptyString
  | String c rest =>
      if is_char c "&" then ("&amp;" ++ text_markup rest)%string
      else if is_char c "<" then ("&lt;" ++ text_markup rest)%string
      else if is_char c ">" then ("&gt;" ++ text_markup rest)%string
      else if nat_of_ascii c =? 194 then
        match rest with
        | String d rest' =>
            if nat_of_ascii d =? 160
            then ("&nbsp;" ++ text_markup rest')%string
            else String c (text_markup rest)
        | EmptyString => String c EmptyString
        end
      else String c (text_markup rest)
  end.

(** [escapeHtml]: the empty string for a value that is not a string
    ([None]), else the markup of the text. *)
Definition escapeHtml (text : option string) : string :=
  match text with
  | Some s => text_markup s
  | None => EmptyString
  end.

(** [renderAuthors]; [None] is a tutorial without the property. *)
Definition renderAuthors (authors : option (list string)) : string :=
  match authors with
  | None | Some [] => "Unknown"
  | Some names => escapeHtml (Some (join ", " names))
  end.

(** The opening tag of one keyword. *)
Definition keyword_open : string :=
  ("<span class=" ++ double_quote ++ "mec-card__keyword" ++ double_quote ++ ">")%string.

(** [kw => `<span class="mec-card__keyword">${escapeHtml(kw)}</span>`] *)
Definition keyword_tag (kw : string) : string :=
  (keyword_open ++ escapeHtml (Some kw) ++ "</span>")%string.

(** [renderKeywords]: the first five keywords, each in a tag of its own;
    [None] is a tutorial without the property. *)
Definition renderKeywords (keywords : option (list string)) : string :=
  match keywords with
  | None | Some [] => EmptyString
  | Some kws =>
      ("<div class=" ++ double_quote ++ "mec-card__keywords" ++ double_quote ++ ">"
       ++ join "" (map keyword_tag (firstn 5 kws)) ++ "</div>")%string
  end.

(** The message of the error that [loadTutorials] throws when the
    response is not [ok]: [`HTTP error! status: ${response.status}`]. *)
Definition http_error_message (status : nat) : string :=
  ("HTTP error! status: " ++ show_nat status)%string.

(* ===================================================================== *)
(** ** The drop-downs of the navigation bar *)
(* ===================================================================== *)

(** One element of the class [nav-dropdown]: whether it contains an
    element of the class [nav-dropdown-toggle], and whether its class
    list holds [active].  The drop-downs are taken not to be nested, so
    that a toggle belongs to one drop-down. *)
Record NavDropdown : Type := {
  has_toggle : bool;
  active : bool
}.

(** [classList.remove('active')] *)
Definition remove_active (d : NavDropdown) : NavDropdown :=
  {| has_toggle := has_toggle d; active := false |}.

(** [classList.toggle('active')] *)
Definition toggle_active (d : NavDropdown) : NavDropdown :=
  {| has_toggle := has_toggle d; active := negb (active d) |}.

(** [dropdowns.forEach(other => { if (other !== dropdown)
    other.classList.remove('active') })] for the drop-down at the place
    [i]. *)
Fixpoint close_others (i : nat) (dropdowns : list NavDropdown) : list NavDropdown :=
  match dropdowns with
  | [] => []
  | d :: rest =>
      match i with
      | O => d :: map remove_active rest
      | S i' => remove_active d :: close_others i' rest
      end
  end.

(** [dropdown.classList.toggle('active')] for the drop-down at the place
    [i]. *)
Fixpoint toggle_at (i : nat) (dropdowns : list NavDropdown) : list NavDropdown :=
  match dropdowns with
  | [] => []
  | d :: rest =>
      match i with
      | O => toggle_active d :: rest
      | S i' => d :: toggle_at i' rest
      end
  end.

(** What the user does: a click on the toggle of the drop-down at some
    place, a click anywhere else (inside some drop-down or outside of all
    of them), or a key. *)
Inductive NavEvent : Type :=
| ToggleClick (place : nat)
| OtherClick (inside_dropdown : bool)
| KeyDown (key : string).

(** The listeners.  The listener of a toggle exists only for a drop-down
    that has one; it stops the propagation of the click, so the listener
    of the document does not see it.  [None] marks a click on a toggle
    that does not exist. *)
Definition nav_step (event : NavEvent) (dropdowns : list NavDropdown)
    : option (list NavDropdown) :=
  match event with
  | ToggleClick i =>
      match nth_error dropdowns i with
      | Some d =>
          if has_toggle d then Some (toggle_at i (close_others i dropdowns))
          else None
      | None => None
      end
  | OtherClick inside =>
      if negb inside then Some (map remove_active dropdowns) else Some dropdowns
  | KeyDown key =>
      if (key =? "Escape")%string then Some (map remove_active dropdowns)
      else Some dropdowns
  end.

Fixpoint nav_run (events : list NavEvent) (dropdowns : list NavDropdown)
    : option (list NavDropdown) :=
  match events with
  | [] => Some dropdowns
  | event :: events' =>
      match nav_step event dropdowns with
      | Some dropdowns' => nav_run events' dropdowns'
      | None => None
      end
  end.

(* ===================================================================== *)
(** ** The theme toggle *)
(* ===================================================================== *)

Module ThemeToggle.

(** The page and the browser as the theme script sees them:
    - [readable], [writable]: whether [localStorage.getItem] and
      [localStorage.setItem] return rather than throw;
    - [stored]: the item [msb-theme] of the storage;
    - [prefers_dark]: the answer of the media query
      [(prefers-color-scheme: dark)], [None] when [window.matchMedia] is
      missing;
    - [data_theme]: the attribute [data-theme] of the document element;
    - [theme_toggle], [theme_icon]: whether the button [#theme-toggle]
      and the element [.theme-icon] inside it exist;
    - [icon_html], [aria_label]: the markup of the icon and the label of
      the button;
    - [warnings]: the messages written with [console.warn]. *)
Record ThemeEnv : Type := {
  readable : bool;
  writable : bool;
  stored : option string;
  prefers_dark : option bool;
  data_theme : option string;
  theme_toggle : bool;
  theme_icon : bool;
  icon_html : string;
  aria_label : option string;
  warnings : list string
}.

Definition THEME_LIGHT : string := "light".
Definition THEME_DARK : string := "dark".

(** [getStoredTheme]: [null] when the storage throws. *)
Definition getStoredTheme (env : ThemeEnv) : option string :=
  if readable env then stored env else None.

(** [setStoredTheme]: a warning when the storage throws. *)
Definition setStoredTheme (theme : string) (env : ThemeEnv) : ThemeEnv :=
  if writable env
  then {| readable := readable env; writable := writable env;
          stored := Some theme; prefers_dark := prefers_dark env;
          data_theme := data_theme env; theme_toggle := theme_toggle env;
          theme_icon := theme_icon env; icon_html := icon_html env;
          aria_label := aria_label env; warnings := warnings env |}
  else {| readable := readable env; writable := writable env;
          stored := stored env; prefers_dark := prefers_dark env;
          data_theme := data_theme env; theme_toggle := theme_toggle env;
          theme_icon := theme_icon env; icon_html := icon_html env;
          aria_label := aria_label env;
          warnings := warnings env ++ ["Unable to store theme preference"] |}.

(** [getPreferredTheme]: the stored theme when there is one (and it is
    not the empty string), else the preference of the system. *)
Definition getPreferredTheme (env : ThemeEnv) : string :=
  match getStoredTheme env with
  | Some (String c s) => String c s
  | _ =>
      match prefers_dark env with
      | Some true => THEME_DARK
      | _ => THEME_LIGHT
      end
  end.

Definition sun_icon : string :=
  ("<i class=" ++ double_quote ++ "fa fa-sun-o" ++ double_quote ++ "></i>")%string.

Definition moon_icon : string :=
  ("<i class=" ++ double_quote ++ "fa fa-moon-o" ++ double_quote ++ "></i>")%string.

(** [applyTheme] *)
Definition applyTheme (theme : string) (env : ThemeEnv) : ThemeEnv :=
  {| readable := readable env; writable := writable env;
     stored := stored env; prefers_dark := prefers_dark env;
     data_theme := Some theme;
     theme_toggle := theme_toggle env; theme_icon := theme_icon env;
     icon_html :=
       if theme_toggle env && theme_icon env
       then (if (theme =? THEME_DARK)%string then sun_icon else moon_icon)
       else icon_html env;
     aria_label :=
       if theme_toggle env
       then Some (if (theme =? THEME_DARK)%string
                  then "Switch to light mode" else "Switch to dark mode")
       else aria_label env;
     warnings := warnings env |}.

(** [toggleTheme], the listener of the button. *)
Definition toggleTheme (env : ThemeEnv) : ThemeEnv :=
  let currentTheme :=
    match data_theme env with
    | Some (String c s) => String c s
    | _ => THEME_LIGHT
    end in
  let newTheme :=
    if (currentTheme =? THEME_LIGHT)%string then THEME_DARK else THEME_LIGHT in
  setStoredTheme newTheme (applyTheme newTheme env).

(** [init]: the preferred theme is applied; the listener of the button
    is installed when the button exists.  (The last two lines of the
    script apply the preferred theme once more.) *)
Definition init (env : ThemeEnv) : ThemeEnv :=
  applyTheme (getPreferredTheme env) env.

(** [n] clicks on the button; without the button there is no listener. *)
Fixpoint clicks (n : nat) (env : ThemeEnv) : ThemeEnv :=
  match n with
  | O => env
  | S n' => clicks n' (if theme_toggle env then toggleTheme env else env)
  end.

End ThemeToggle.

(* ===================================================================== *)
(** * Properties *)
(* ===================================================================== *)

(** ** Characters of a string *)

Fixpoint all_chars (p : ascii -> bool) (s : string) : bool :=
  match s with
  | EmptyString => true
  | String c s' => p c && all_chars p s'
  end.

Lemma all_chars_app p s1 s2 :
  all_chars p (s1 ++ s2)%string = all_chars p s1 && all_chars p s2.
Proof.
  induction s1 as [|c s1 IH]; simpl; auto. now rewrite IH, andb_assoc.
Qed.

Lemma all_chars_impl (p q : ascii -> bool) s :
  (forall c, p c = true -> q c = true) ->
  all_chars p s = true -> all_chars q s = true.
Proof.
  intros H. induction s as [|c s IH]; simpl; auto.
  rewrite !andb_true_iff. intros [Hc Hs]. auto.
Qed.

(** Case analysis over the 256 characters. *)
Ltac each_char c :=
  destruct c as [[] [] [] [] [] [] [] []].

(** ** Arrays: writes, swaps and the shuffle *)

Section Arrays.
Context {A : Type}.
Implicit Types (arr : list A) (i j : nat).

Lemma set_nth_length i (x : A) arr : List.length (set_nth i x arr) = List.length arr.
Proof.
  revert i; induction arr as [|a arr IH]; intros [|i]; simpl; auto.
Qed.

Lemma nth_error_set_nth_eq i (x : A) arr :
  i < List.length arr -> nth_error (set_nth i x arr) i = Some x.
Proof.
  revert i; induction arr as [|a arr IH]; intros [|i] H; simpl in *;
    try lia; auto.
  apply IH; lia.
Qed.

Lemma nth_error_set_nth_ne i j (x : A) arr :
  i <> j -> nth_error (set_nth i x arr) j = nth_error arr j.
Proof.
  revert i j; induction arr as [|a arr IH]; intros [|i] [|j] H; simpl;
    try congruence; auto.
Qed.

(** Writing [x] over the element [a] trades [a] for [x]. *)
Lemma set_nth_exchange i (x a : A) arr :
  nth_error arr i = Some a ->
  Permutation (x :: arr) (a :: set_nth i x arr).
Proof.
  revert i; induction arr as [|b arr IH]; intros [|i] H; simpl in *;
    try discriminate.
  - injection H as ->. apply perm_swap.
  - etransitivity; [apply perm_swap|].
    etransitivity; [apply perm_skip, (IH _ H)|]. apply perm_swap.
Qed.

Lemma swap_permutation i j arr : Permutation (swap i j arr) arr.
Proof.
  unfold swap.
  destruct (nth_error arr i) as [a|] eqn:Hi; [|reflexivity].
  destruct (nth_error arr j) as [b|] eqn:Hj; [|reflexivity].
  assert (Hj' : nth_error (set_nth i b arr) j = Some b).
  { destruct (Nat.eq_dec i j) as [->|Hne].
    - apply nth_error_set_nth_eq. apply nth_error_Some. congruence.
    - rewrite nth_error_set_nth_ne by assumption. exact Hj. }
  apply Permutation_cons_inv with (a := b).
  rewrite <- (set_nth_exchange j a b _ Hj').
  symmetry. apply set_nth_exchange. exact Hi.
Qed.

Lemma swap_length i j arr : List.length (swap i j arr) = List.length arr.
Proof. apply Permutation_length, swap_permutation. Qed.

Lemma fisher_yates_permutation rnd i arr calls :
  Permutation (fst (fisher_yates rnd i arr calls)) arr.
Proof.
  revert arr calls; induction i as [|i IH]; intros arr calls; simpl.
  - reflexivity.
  - rewrite IH. apply swap_permutation.
Qed.

(** An array of at most one element is returned as it is, without a
    call of [Math.random]. *)
Lemma fisher_yates_short rnd arr calls :
  List.length arr <= 1 ->
  fisher_yates rnd (List.length arr - 1) arr calls = (arr, calls).
Proof.
  intros H. replace (List.length arr - 1) with 0 by lia. reflexivity.
Qed.
End Arrays.

(** The index drawn at step [i] lies between [0] and [i]. *)
Lemma floor_scaled_lt (u : Draw) (n : nat) : 0 < n -> floor_scaled u n < n.
Proof.
  intros Hn. unfold floor_scaled.
  pose proof (in_unit u) as Hu.
  apply Nat.Div0.div_lt_upper_bound. nia.
Qed.

(** The indices that the shuffle swaps: [i] runs from its start down to
    [1], and [j] is drawn for each. *)
Fixpoint swapped_indices (rnd : Random) (i calls : nat) : list (nat * nat) :=
  match i with
  | O => []
  | S i' => (i, floor_scaled (rnd calls) (i + 1)) :: swapped_indices rnd i' (S calls)
  end.

(** Started at the last index of the array, the shuffle only swaps
    elements inside the array: [j <= i < length]. *)
Lemma swapped_indices_in_range {A : Type} rnd (arr : list A) calls :
  Forall (fun ij => snd ij <= fst ij /\ fst ij < List.length arr)
         (swapped_indices rnd (List.length arr - 1) calls).
Proof.
  assert (H : forall i calls, i < List.length arr \/ i = 0 ->
              Forall (fun ij => snd ij <= fst ij /\ fst ij < List.length arr)
                     (swapped_indices rnd i calls)).
  { induction i as [|i IH]; intros k Hi; simpl; constructor.
    - simpl. split; [|lia].
      match goal with
      | |- context [floor_scaled ?u ?n] => pose proof (floor_scaled_lt u n)
      end. lia.
    - apply IH. lia. }
  apply H. destruct arr; simpl; lia.
Qed.

Lemma swap_in_range {A : Type} i j (arr : list A) :
  j <= i -> i < List.length arr ->
  exists a b, nth_error arr i = Some a /\ nth_error arr j = Some b
              /\ swap i j arr = set_nth j a (set_nth i b arr).
Proof.
  intros Hj Hi. unfold swap.
  destruct (nth_error arr i) as [a|] eqn:Ei.
  2:{ apply nth_error_None in Ei. lia. }
  destruct (nth_error arr j) as [b|] eqn:Ej.
  2:{ apply nth_error_None in Ej. lia. }
  eauto.
Qed.

(** ** The object [byYear] *)

Definition year_is (y : Z) (t : Tutorial) : bool := (year t =? y)%Z.

(** The array held under [y], or the empty array. *)
Definition group_of (m : ByYear) (y : Z) : list Tutorial :=
  match lookup y m with Some g => g | None => [] end.

Lemma lookup_assign_eq y g m : lookup y (assign y g m) = Some g.
Proof.
  induction m as [|[k g0] m IH]; simpl.
  - now rewrite Z.eqb_refl.
  - destruct (k =? y)%Z eqn:E; simpl; rewrite E; auto.
Qed.

Lemma lookup_assign_ne y y' g m :
  y <> y' -> lookup y' (assign y g m) = lookup y' m.
Proof.
  intros Hne. induction m as [|[k g0] m IH]; simpl.
  - destruct (Z.eqb_spec y y'); congruence.
  - destruct (Z.eqb_spec k y) as [->|]; simpl.
    + destruct (Z.eqb_spec y y'); congruence.
    + now rewrite IH.
Qed.

Lemma lookup_None y m : lookup y m = None <-> ~ In y (map fst m).
Proof.
  induction m as [|[k g] m IH]; simpl.
  - tauto.
  - destruct (Z.eqb_spec k y).
    + split; [discriminate | tauto].
    + rewrite IH. tauto.
Qed.

Lemma lookup_Some_In y m : lookup y m <> None <-> In y (map fst m).
Proof.
  rewrite lookup_None. destruct (in_dec Z.eq_dec y (map fst m)); tauto.
Qed.

Lemma keys_assign y g m :
  map fst (assign y g m) =
  match lookup y m with Some _ => map fst m | None => map fst m ++ [y] end.
Proof.
  induction m as [|[k g0] m IH]; simpl; auto.
  destruct (Z.eqb_spec k y); simpl; auto.
  rewrite IH. now destruct (lookup y m).
Qed.

Lemma keys_push_NoDup m t :
  NoDup (map fst m) -> NoDup (map fst (push_year m t)).
Proof.
  intros H. unfold push_year.
  destruct (lookup (year t) m) eqn:E; rewrite keys_assign, E; auto.
  apply lookup_None in E.
  apply NoDup_rev in H. rewrite <- (rev_involutive (_ ++ _)).
  apply NoDup_rev. rewrite rev_app_distr. simpl.
  constructor; auto. now rewrite <- in_rev.
Qed.

Lemma lookup_push y m t :
  lookup y (push_year m t) =
  if year_is y t
  then Some (group_of m y ++ [t])
  else lookup y m.
Proof.
  unfold push_year, year_is, group_of.
  destruct (Z.eqb_spec (year t) y) as [->|Hne].
  - destruct (lookup y m); now rewrite lookup_assign_eq.
  - destruct (lookup (year t) m); now rewrite lookup_assign_ne.
Qed.

Lemma lookup_fold_push y ts m :
  lookup y (fold_left push_year ts m) =
  if existsb (year_is y) ts
  then Some (group_of m y ++ filter (year_is y) ts)
  else lookup y m.
Proof.
  revert m; induction ts as [|t ts IH]; intros m; simpl; auto.
  rewrite IH. unfold group_of at 1. rewrite !lookup_push.
  destruct (year_is y t) eqn:Et; simpl; [|reflexivity].
  rewrite <- app_assoc. simpl.
  destruct (existsb (year_is y) ts) eqn:E; [reflexivity|].
  replace (filter (year_is y) ts) with (@nil Tutorial); [reflexivity|].
  clear IH. induction ts as [|t' ts IH]; simpl in *; auto.
  apply orb_false_iff in E as [-> E]. auto.
Qed.

Lemma keys_fold_push_NoDup ts m :
  NoDup (map fst m) -> NoDup (map fst (fold_left push_year ts m)).
Proof.
  revert m; induction ts as [|t ts IH]; intros m H; simpl; auto.
  apply IH, keys_push_NoDup, H.
Qed.

(** After the grouping loop, the property of a year holds the tutorials of
    that year in the order of the input; years without a tutorial have no
    property. *)
Lemma lookup_group_by_year y ts :
  lookup y (group_by_year ts) =
  if existsb (year_is y) ts then Some (filter (year_is y) ts) else None.
Proof. unfold group_by_year. now rewrite lookup_fold_push. Qed.

Lemma group_of_group_by_year y ts :
  group_of (group_by_year ts) y = filter (year_is y) ts.
Proof.
  unfold group_of. rewrite lookup_group_by_year.
  destruct (existsb (year_is y) ts) eqn:E; auto.
  symmetry. induction ts as [|t ts IH]; simpl in *; auto.
  apply orb_false_iff in E as [-> E]. auto.
Qed.

Lemma keys_group_by_year_NoDup ts : NoDup (map fst (group_by_year ts)).
Proof. apply keys_fold_push_NoDup. constructor. Qed.

Lemma keys_group_by_year y ts :
  In y (map fst (group_by_year ts)) <-> In y (map year ts).
Proof.
  rewrite <- lookup_Some_In, lookup_group_by_year.
  destruct (existsb (year_is y) ts) eqn:E.
  - apply existsb_exists in E as (t & Ht & Hy).
    apply Z.eqb_eq in Hy. split; [intros _|discriminate].
    apply in_map_iff. eauto.
  - split; [congruence|]. intros H. apply in_map_iff in H as (t & Hy & Ht).
    assert (existsb (year_is y) ts = true); [|congruence].
    apply existsb_exists. exists t. split; auto. now apply Z.eqb_eq.
Qed.

(** ** Sorting *)

Section Sorting.
Context {A : Type} (cmp : A -> A -> Z).

Lemma insert_by_permutation a l : Permutation (insert_by cmp a l) (a :: l).
Proof.
  induction l as [|b l IH]; simpl; auto.
  destruct (cmp a b <=? 0)%Z; auto.
  rewrite IH. apply perm_swap.
Qed.

Lemma sort_by_permutation l : Permutation (sort_by cmp l) l.
Proof.
  induction l as [|a l IH]; simpl; auto.
  rewrite insert_by_permutation. now constructor.
Qed.
End Sorting.

Lemma insert_descending a l :
  StronglySorted Z.ge l -> StronglySorted Z.ge (insert_by (fun a b => (b - a)%Z) a l).
Proof.
  induction 1 as [|b l Hs IH Hb]; simpl.
  - repeat constructor.
  - destruct (Z.leb_spec (b - a) 0).
    + constructor; [now constructor|].
      constructor; [lia|]. eapply Forall_impl; [|exact Hb]. simpl; lia.
    + constructor; auto.
      eapply Permutation_Forall; [symmetry; apply insert_by_permutation|].
      constructor; [lia|assumption].
Qed.

Lemma sort_descending_sorted l : StronglySorted Z.ge (sort_descending l).
Proof.
  unfold sort_descending. induction l as [|a l IH]; simpl.
  - constructor.
  - now apply insert_descending.
Qed.

Lemma sort_descending_permutation l : Permutation (sort_descending l) l.
Proof. apply sort_by_permutation. Qed.

Lemma sorted_ge_NoDup_gt l :
  StronglySorted Z.ge l -> NoDup l -> StronglySorted Z.gt l.
Proof.
  induction 1 as [|a l Hs IH Ha]; intros Hnd; constructor;
    inversion Hnd as [|? ? Hni Hnd']; subst; auto.
  rewrite Forall_forall in *. intros b Hb.
  specialize (Ha b Hb). assert (a <> b) by congruence. lia.
Qed.

(** Distinct years sorted with [(a, b) => b - a] are strictly descending. *)
Lemma sort_descending_strict l :
  NoDup l -> StronglySorted Z.gt (sort_descending l).
Proof.
  intros H. apply sorted_ge_NoDup_gt.
  - apply sort_descending_sorted.
  - eapply Permutation_NoDup; [symmetry; apply sort_descending_permutation|exact H].
Qed.

Lemma own_keys_permutation m : Permutation (own_keys m) (map fst m).
Proof.
  unfold own_keys. rewrite sort_by_permutation.
  induction (map fst m) as [|y l IH]; simpl; auto.
  destruct (is_array_index y); simpl.
  - now constructor.
  - rewrite <- Permutation_middle. now constructor.
Qed.

Lemma own_keys_NoDup m : NoDup (map fst m) -> NoDup (own_keys m).
Proof.
  intros H. eapply Permutation_NoDup; [symmetry; apply own_keys_permutation|exact H].
Qed.

Lemma own_keys_In y m : In y (own_keys m) <-> In y (map fst m).
Proof.
  split; apply Permutation_in;
    [|symmetry]; apply own_keys_permutation.
Qed.

(** ** Tiers inside a year group *)

(** [g'] is [g] rearranged as the loop over the year groups does it: the
    winners of [g] in their order, the finalists of [g] in their order,
    then the regular tutorials of [g] in some order. *)
Definition tiered (g g' : list Tutorial) : Prop :=
  exists r, Permutation r (filter is_regular g) /\
            g' = filter is_winner g ++ filter is_finalist g ++ r.

Lemma arrange_group_tiered rnd g calls :
  tiered g (fst (arrange_group rnd g calls)).
Proof.
  unfold arrange_group.
  destruct (fisher_yates rnd _ (filter is_regular g) calls) as [r calls'] eqn:E.
  exists r. split; [|reflexivity].
  change r with (fst (r, calls')). rewrite <- E.
  apply fisher_yates_permutation.
Qed.

Lemma tiers_partition g :
  Permutation (filter is_winner g ++ filter is_finalist g ++ filter is_regular g) g.
Proof.
  induction g as [|t g IH]; simpl; auto.
  unfold is_winner, is_finalist, is_regular at 1.
  destruct (status t) as [[]|]; simpl.
  - rewrite <- !Permutation_middle. now constructor.
  - rewrite <- !Permutation_middle. now constructor.
  - now constructor.
  - rewrite <- !Permutation_middle. now constructor.
Qed.

Lemma tiered_permutation g g' : tiered g g' -> Permutation g' g.
Proof.
  intros (r & Hr & ->). rewrite Hr. apply tiers_partition.
Qed.

Lemma tiered_nil : tiered [] [].
Proof. exists []. split; [constructor|reflexivity]. Qed.

(** The loop over [Object.keys(byYear)]: it keeps the keys and their order
    and replaces the array of every visited year by its tiered
    arrangement. *)
Lemma arrange_fold rnd ys :
  NoDup ys ->
  forall m calls,
    let m' := fst (fold_left (arrange_step rnd) ys (m, calls)) in
    map fst m' = map fst m /\
    forall y,
      (In y ys -> forall g, lookup y m = Some g ->
                  exists g', lookup y m' = Some g' /\ tiered g g') /\
      (~ In y ys -> lookup y m' = lookup y m).
Proof.
  induction 1 as [|y0 ys Hni Hnd IH]; intros m calls; simpl.
  - split; [reflexivity|]. intros y; split; [tauto|reflexivity].
  - destruct (lookup y0 m) as [g0|] eqn:E0.
    + pose proof (arrange_group_tiered rnd g0 calls) as Ht.
      destruct (arrange_group rnd g0 calls) as [g1 calls1]. simpl in Ht.
      specialize (IH (assign y0 g1 m) calls1). simpl in IH.
      destruct IH as [Hk Hl]. split.
      * rewrite Hk, keys_assign, E0. reflexivity.
      * intros y. destruct (Hl y) as [Hin Hout]. split.
        -- intros [<-|Hy] g Hg.
           ++ rewrite (Hout Hni), lookup_assign_eq.
              exists g1. split; congruence.
           ++ apply Hin; auto.
              rewrite lookup_assign_ne; [exact Hg|]. congruence.
        -- intros Hy. rewrite Hout by tauto.
           apply lookup_assign_ne. tauto.
    + specialize (IH m calls). simpl in IH.
      destruct IH as [Hk Hl]. split; [exact Hk|].
      intros y. destruct (Hl y) as [Hin Hout]. split.
      * intros [<-|Hy] g Hg; [congruence|]. now apply Hin.
      * intros Hy. apply Hout. tauto.
Qed.

Lemma arrange_all_spec rnd m calls :
  NoDup (map fst m) ->
  let m' := fst (arrange_all rnd m calls) in
  map fst m' = map fst m /\
  forall y, tiered (group_of m y) (group_of m' y).
Proof.
  intros Hnd. unfold arrange_all.
  destruct (arrange_fold rnd (own_keys m) (own_keys_NoDup m Hnd) m calls)
    as [Hk Hl].
  split; [exact Hk|]. intros y. unfold group_of.
  destruct (Hl y) as [Hin Hout].
  destruct (lookup y m) as [g|] eqn:E.
  - destruct (Hin) with (g := g) as (g' & -> & Ht); auto.
    apply own_keys_In, lookup_Some_In. congruence.
  - rewrite Hout; [apply tiered_nil|].
    rewrite own_keys_In. now apply lookup_None.
Qed.

(** What [shuffleWithinYears] returns: the arrays of an object whose keys
    are the distinct years of the input, taken in descending order of the
    year, each array being the tiered arrangement of the tutorials of that
    year. *)
Lemma shuffleWithinYears_groups rnd ts calls :
  exists m',
    fst (shuffleWithinYears rnd ts calls)
      = flat_map (group_of m') (sort_descending (own_keys m')) /\
    NoDup (map fst m') /\
    (forall y, In y (map fst m') <-> In y (map year ts)) /\
    (forall y, tiered (filter (year_is y) ts) (group_of m' y)).
Proof.
  unfold shuffleWithinYears.
  pose proof (arrange_all_spec rnd (group_by_year ts) calls
                (keys_group_by_year_NoDup ts)) as [Hk Ht].
  destruct (arrange_all rnd (group_by_year ts) calls) as [m' calls'].
  simpl in *. exists m'. split; [reflexivity|]. split; [|split].
  - rewrite Hk. apply keys_group_by_year_NoDup.
  - intros y. rewrite Hk. apply keys_group_by_year.
  - intros y. rewrite <- group_of_group_by_year. apply Ht.
Qed.

(** ** Flattening year groups *)

Lemma flat_map_pointwise_permutation {A B : Type} (f g : A -> list B) l :
  (forall a, Permutation (f a) (g a)) ->
  Permutation (flat_map f l) (flat_map g l).
Proof.
  intros H. induction l as [|a l IH]; simpl; auto.
  now apply Permutation_app.
Qed.

Lemma filter_disjoint_or {A : Type} (p q : A -> bool) l :
  (forall a, p a = true -> q a = false) ->
  Permutation (filter (fun a => p a || q a) l) (filter p l ++ filter q l).
Proof.
  intros H. induction l as [|a l IH]; simpl; auto.
  destruct (p a) eqn:Ep; simpl.
  - rewrite (H a Ep). now constructor.
  - destruct (q a); auto. rewrite <- Permutation_middle. now constructor.
Qed.

Definition year_among (ys : list Z) (t : Tutorial) : bool :=
  existsb (fun y => year_is y t) ys.

Lemma flat_map_years ts ys :
  NoDup ys ->
  Permutation (flat_map (fun y => filter (year_is y) ts) ys)
              (filter (year_among ys) ts).
Proof.
  induction 1 as [|y ys Hni Hnd IH]; simpl.
  - induction ts; simpl; auto.
  - rewrite IH. symmetry. apply filter_disjoint_or.
    intros t Ht. apply Z.eqb_eq in Ht.
    destruct (year_among ys t) eqn:E; auto.
    apply existsb_exists in E as (y' & Hy' & E). apply Z.eqb_eq in E.
    congruence.
Qed.

Lemma filter_all {A : Type} (p : A -> bool) l :
  (forall a, In a l -> p a = true) -> filter p l = l.
Proof.
  induction l as [|a l IH]; simpl; intros H; auto.
  rewrite (H a) by auto. f_equal. auto.
Qed.

Lemma filter_none {A : Type} (p : A -> bool) l :
  (forall a, In a l -> p a = false) -> filter p l = [].
Proof.
  induction l as [|a l IH]; simpl; intros H; auto.
  rewrite (H a) by auto. auto.
Qed.

(** The tutorials of the year [y] in a flattened sequence of year groups
    are the group of [y]. *)
Lemma filter_year_flat_map (f : Z -> list Tutorial) ys y :
  NoDup ys ->
  (forall y' t, In t (f y') -> year t = y') ->
  In y ys \/ f y = [] ->
  filter (year_is y) (flat_map f ys) = f y.
Proof.
  intros Hnd Hyear. induction Hnd as [|y0 ys Hni Hnd IH]; simpl; intros Hy.
  - destruct Hy as [[]|Hy]. now rewrite Hy.
  - rewrite filter_app. destruct (Z.eq_dec y0 y) as [->|Hne].
    + rewrite filter_all.
      2:{ intros t Ht. apply Z.eqb_eq. eauto. }
      rewrite filter_none; [apply app_nil_r|].
      intros t Ht. apply in_flat_map in Ht as (y' & Hy' & Ht).
      apply Z.eqb_neq. rewrite (Hyear _ _ Ht). congruence.
    + rewrite filter_none.
      2:{ intros t Ht. apply Z.eqb_neq. rewrite (Hyear _ _ Ht). exact Hne. }
      apply IH. destruct Hy as [[|]|]; auto. congruence.
Qed.

Lemma strongly_sorted_app {A : Type} (R : A -> A -> Prop) l1 l2 :
  StronglySorted R l1 -> StronglySorted R l2 ->
  (forall a b, In a l1 -> In b l2 -> R a b) ->
  StronglySorted R (l1 ++ l2).
Proof.
  induction 1 as [|a l1 Hs IH Ha]; simpl; intros H2 H; auto.
  constructor.
  - apply IH; auto.
  - apply Forall_app. split; auto.
    apply Forall_forall. intros b Hb. apply H; simpl; auto.
Qed.

Lemma strongly_sorted_all {A : Type} (R : A -> A -> Prop) l :
  (forall a b, In a l -> In b l -> R a b) -> StronglySorted R l.
Proof.
  induction l as [|a l IH]; intros H; constructor.
  - apply IH. intros; apply H; simpl; auto.
  - apply Forall_forall. intros b Hb. apply H; simpl; auto.
Qed.

Definition year_ge (a b : Tutorial) : Prop := (year a >= year b)%Z.

Lemma flat_map_years_sorted (f : Z -> list Tutorial) ys :
  (forall y t, In t (f y) -> year t = y) ->
  StronglySorted Z.gt ys ->
  StronglySorted year_ge (flat_map f ys).
Proof.
  intros Hyear. induction 1 as [|y ys Hs IH Hy]; simpl.
  - constructor.
  - apply strongly_sorted_app; auto.
    + apply strongly_sorted_all. intros a b Ha Hb. unfold year_ge.
      rewrite (Hyear _ _ Ha), (Hyear _ _ Hb). lia.
    + intros a b Ha Hb. apply in_flat_map in Hb as (y' & Hy' & Hb).
      rewrite Forall_forall in Hy. specialize (Hy _ Hy').
      unfold year_ge. rewrite (Hyear _ _ Ha), (Hyear _ _ Hb). lia.
Qed.

(** ** The result of [shuffleWithinYears] *)

Lemma tiered_year y ts g t :
  tiered (filter (year_is y) ts) g -> In t g -> year t = y.
Proof.
  intros Ht Hin. apply tiered_permutation in Ht.
  apply (Permutation_in _ Ht) in Hin. apply filter_In in Hin as [_ Hy].
  now apply Z.eqb_eq.
Qed.

Lemma shuffle_permutation rnd ts calls :
  Permutation (fst (shuffleWithinYears rnd ts calls)) ts.
Proof.
  destruct (shuffleWithinYears_groups rnd ts calls)
    as (m' & -> & Hnd & Hkeys & Ht).
  set (ks := sort_descending (own_keys m')).
  assert (Hks : Permutation ks (map fst m')).
  { unfold ks. rewrite sort_descending_permutation. apply own_keys_permutation. }
  rewrite (flat_map_pointwise_permutation _ (fun y => filter (year_is y) ts)).
  2:{ intros y. apply tiered_permutation, Ht. }
  rewrite flat_map_years.
  2:{ eapply Permutation_NoDup; [symmetry; exact Hks|exact Hnd]. }
  rewrite filter_all; [reflexivity|].
  intros t Hin. apply existsb_exists. exists (year t). split.
  - apply (Permutation_in _ (Permutation_sym Hks)), Hkeys.
    now apply in_map.
  - apply Z.eqb_refl.
Qed.

(** The tutorials of one year in the result are the tiered arrangement of
    the tutorials of that year in the input. *)
Lemma shuffle_year_group rnd ts calls y :
  tiered (filter (year_is y) ts)
         (filter (year_is y) (fst (shuffleWithinYears rnd ts calls))).
Proof.
  destruct (shuffleWithinYears_groups rnd ts calls)
    as (m' & -> & Hnd & Hkeys & Ht).
  rewrite filter_year_flat_map; auto.
  - eapply Permutation_NoDup; [|exact Hnd].
    symmetry. rewrite sort_descending_permutation. apply own_keys_permutation.
  - intros y' t. apply tiered_year with (ts := ts), Ht.
  - destruct (in_dec Z.eq_dec y (map fst m')) as [Hin|Hout].
    + left. eapply Permutation_in; [|exact Hin].
      symmetry. rewrite sort_descending_permutation. apply own_keys_permutation.
    + right. unfold group_of. apply lookup_None in Hout. now rewrite Hout.
Qed.

Lemma shuffle_sorted rnd ts calls :
  StronglySorted year_ge (fst (shuffleWithinYears rnd ts calls)).
Proof.
  destruct (shuffleWithinYears_groups rnd ts calls)
    as (m' & -> & Hnd & Hkeys & Ht).
  apply flat_map_years_sorted.
  - intros y t. apply tiered_year with (ts := ts), Ht.
  - apply sort_descending_strict, own_keys_NoDup, Hnd.
Qed.

(** ** The year sections of the page *)

Lemma year_sections_years ts :
  map fst (year_sections ts) = sort_descending (own_keys (group_by_year ts)).
Proof.
  unfold year_sections. rewrite map_map. simpl. apply map_id.
Qed.

Lemma year_sections_group ts y g :
  In (y, g) (year_sections ts) ->
  In y (map year ts) /\ g = filter (year_is y) ts.
Proof.
  unfold year_sections. intros H.
  apply in_map_iff in H as (y' & [= <- <-] & Hy). split.
  - apply keys_group_by_year, own_keys_In.
    eapply Permutation_in; [apply sort_descending_permutation|exact Hy].
  - apply group_of_group_by_year.
Qed.

Lemma year_sections_strict ts :
  StronglySorted Z.gt (map fst (year_sections ts)).
Proof.
  rewrite year_sections_years.
  apply sort_descending_strict, own_keys_NoDup, keys_group_by_year_NoDup.
Qed.

Lemma year_sections_cover ts y :
  In y (map year ts) -> In y (map fst (year_sections ts)).
Proof.
  intros H. rewrite year_sections_years.
  eapply Permutation_in; [symmetry; apply sort_descending_permutation|].
  now apply own_keys_In, keys_group_by_year.
Qed.

(** Two strictly descending lists with the same elements are equal. *)
Lemma strict_sorted_unique l1 l2 :
  StronglySorted Z.gt l1 -> StronglySorted Z.gt l2 ->
  (forall x, In x l1 <-> In x l2) -> l1 = l2.
Proof.
  intros H1. revert l2.
  induction H1 as [|a l1 Hs1 IH Ha]; intros l2 H2 Heq.
  - destruct l2 as [|b l2]; auto. destruct (proj2 (Heq b)); simpl; auto.
  - destruct H2 as [|b l2 Hs2 Hb].
    + destruct (proj1 (Heq a)); simpl; auto.
    + rewrite Forall_forall in Ha, Hb.
      assert (a = b) as <-.
      { destruct (proj1 (Heq a)) as [->|Hin]; simpl; auto.
        destruct (proj2 (Heq b)) as [->|Hin']; simpl; auto.
        specialize (Ha _ Hin'). specialize (Hb _ Hin). lia. }
      f_equal. apply IH; auto.
      intros x. split; intros Hx.
      * destruct (proj1 (Heq x)) as [<-|]; simpl; auto.
        specialize (Ha _ Hx). lia.
      * destruct (proj2 (Heq x)) as [<-|]; simpl; auto.
        specialize (Hb _ Hx). lia.
Qed.

(** The sections of the page, one after the other, are the result of
    [shuffleWithinYears] in its own order. *)
Lemma year_sections_flatten rnd ts calls :
  let rs := fst (shuffleWithinYears rnd ts calls) in
  flat_map snd (year_sections rs) = rs.
Proof.
  intros rs.
  pose proof (shuffle_permutation rnd ts calls) as Hperm. fold rs in Hperm.
  assert (Hgroup : forall y, tiered (filter (year_is y) ts) (filter (year_is y) rs))
    by (intros y; apply shuffle_year_group).
  destruct (shuffleWithinYears_groups rnd ts calls)
    as (m' & Hrs & Hnd & Hkeys & Ht).
  fold rs in Hrs.
  assert (Hks : sort_descending (own_keys (group_by_year rs))
                = sort_descending (own_keys m')).
  { apply strict_sorted_unique.
    - apply sort_descending_strict, own_keys_NoDup, keys_group_by_year_NoDup.
    - apply sort_descending_strict, own_keys_NoDup, Hnd.
    - intros y.
      assert (Hiff : forall m, In y (sort_descending (own_keys m))
                               <-> In y (map fst m)).
      { intros m. rewrite <- own_keys_In.
        split; apply Permutation_in;
          [|symmetry]; apply sort_descending_permutation. }
      rewrite !Hiff, keys_group_by_year, Hkeys.
      split; apply Permutation_in; [|symmetry];
        apply Permutation_map, Hperm. }
  unfold year_sections. rewrite flat_map_concat_map, map_map. simpl.
  rewrite Hks.
  transitivity (flat_map (group_of m') (sort_descending (own_keys m')));
    [|symmetry; exact Hrs].
  rewrite flat_map_concat_map. f_equal.
  apply map_ext_in. intros y Hy.
  change (match lookup y (group_by_year rs) with Some g => g | None => [] end)
    with (group_of (group_by_year rs) y).
  rewrite group_of_group_by_year.
  rewrite Hrs. apply filter_year_flat_map.
  - eapply Permutation_NoDup; [|apply (own_keys_NoDup _ Hnd)].
    symmetry. apply sort_descending_permutation.
  - intros y' t. apply tiered_year with (ts := ts), Ht.
  - now left.
Qed.

(** ** Order inside and between the year groups *)

(** The typed [shuffleWithinYears] is [shuffleWithinYears_of] at the
    tutorials of the data model. *)
Lemma shuffleWithinYears_instance rnd tutorials calls :
  shuffleWithinYears_of year is_winner is_finalist is_regular rnd tutorials calls
  = shuffleWithinYears rnd tutorials calls.
Proof. reflexivity. Qed.

(** Four objects of the year 2023: a winner, an object whose status is
    none of the three tiers, a regular one and one without status. *)
Definition ranked_winner : JsRanked :=
  {| ranked_title := "W"; ranked_year := 2023; ranked_status := Some "winner" |}.

Definition ranked_honorable : JsRanked :=
  {| ranked_title := "H"; ranked_year := 2023;
     ranked_status := Some "honorable mention" |}.

Definition ranked_regular : JsRanked :=
  {| ranked_title := "R"; ranked_year := 2023; ranked_status := Some "regular" |}.

Definition ranked_unset : JsRanked :=
  {| ranked_title := "U"; ranked_year := 2023; ranked_status := None |}.

(** C10, the failing input.  [shuffleWithinYears] puts an object whose
    status is a string other than [winner], [finalist] and [regular] in
    none of its three tiers, and the array it builds for the year from
    the tiers lacks it: of the four objects W, H, R and U it returns
    three, in the one order W, R, U or the other W, U, R, for every
    sequence of random values; H is dropped.  On the tutorials of the
    data model, whose status is one of the three tiers or unset, nothing
    is dropped. *)
Theorem shuffleWithinYears_drops_an_unknown_status :
  (forall (rnd : Random) (calls : nat),
      let result :=
        fst (js_shuffleWithinYears rnd
               [ranked_winner; ranked_honorable; ranked_regular; ranked_unset]
               calls) in
      (result = [ranked_winner; ranked_regular; ranked_unset]
       \/ result = [ranked_winner; ranked_unset; ranked_regular])
      /\ ~ In ranked_honorable result
      /\ ~ Permutation result
            [ranked_winner; ranked_honorable; ranked_regular; ranked_unset])
  /\ (forall (rnd : Random) (tutorials : list Tutorial) (calls : nat),
        Permutation
          (fst (shuffleWithinYears_of year is_winner is_finalist is_regular
                                      rnd tutorials calls))
          tutorials).
Proof.
  split.
  - intros rnd calls result.
    assert (H : result = [ranked_winner; ranked_regular; ranked_unset]
                \/ result = [ranked_winner; ranked_unset; ranked_regular]).
    { subst result.
      unfold js_shuffleWithinYears, shuffleWithinYears_of.
      cbv [group_by_year_of fold_left push_year_of lookup_of assign_of
           ranked_year ranked_winner ranked_honorable ranked_regular
           ranked_unset app Z.eqb Pos.eqb].
      cbv [arrange_all_of own_keys_of map fst filter is_array_index sort_by
           insert_by negb app fold_left arrange_step_of lookup_of].
      cbn [Z.leb Z.ltb Z.compare Z.pow Z.pow_pos Pos.iter Z.mul Pos.mul Z.sub
           Z.add Z.opp Z.pos_sub Z.succ_double Z.pred_double Z.double
           Pos.pred_double Pos.compare Pos.compare_cont andb Z.eqb Pos.eqb].
      unfold arrange_group_of.
      cbn [filter js_is_winner js_is_finalist js_is_regular ranked_status
           ranked_winner ranked_honorable ranked_regular ranked_unset
           String.eqb Ascii.eqb Bool.eqb truthy negb orb andb List.length
           Nat.sub app].
      cbn [fisher_yates Nat.add].
      pose proof (floor_scaled_lt (rnd calls) 2) as Hj.
      destruct (floor_scaled (rnd calls) 2) as [|[|j]]; [| |lia].
      - right. reflexivity.
      - left. reflexivity. }
    split; [exact H|]. split.
    + intros Hin. destruct H as [H|H]; rewrite H in Hin;
        destruct Hin as [E|[E|[E|[]]]]; discriminate E.
    + intros Hp. apply Permutation_length in Hp.
      destruct H as [H|H]; rewrite H in Hp; discriminate Hp.
  - intros rnd tutorials calls. rewrite shuffleWithinYears_instance.
    apply shuffle_permutation.
Qed.

(** C2. In every result of the Filter Engine, every year section consists
    of the winners of that year among the matched tutorials, in the order
    of the input collection, followed by the finalists of that year, in
    the order of the input collection, followed by the tutorials of that
    year whose status is regular or unset, in some order; only this last
    tier is rearranged. *)
Theorem tiers_in_year_sections :
  forall (rnd : Random) (allTutorials : list Tutorial) (st : FilterState)
         (calls : nat),
    let matched := filtered allTutorials st in
    let result := fst (apply rnd allTutorials st calls) in
    Forall (fun section : Z * list Tutorial =>
              let (y, group) := section in
              exists shuffled,
                group = filter is_winner (filter (year_is y) matched)
                        ++ filter is_finalist (filter (year_is y) matched)
                        ++ shuffled
                /\ Permutation shuffled
                     (filter is_regular (filter (year_is y) matched))
                /\ Forall (fun t => is_regular t = true) shuffled)
           (year_sections result).
Proof.
  intros rnd allTutorials st calls matched result.
  apply Forall_forall. intros [y group] Hin.
  apply year_sections_group in Hin as [_ ->].
  destruct (shuffle_year_group rnd matched calls y) as (r & Hr & Heq).
  exists r. split; [exact Heq|]. split; [exact Hr|].
  apply Forall_forall. intros t Ht.
  apply (Permutation_in _ Hr) in Ht. now apply filter_In in Ht.
Qed.

(** C3. In every result of the Filter Engine the years of the sections are
    strictly descending as integers, the result itself is sorted by
    descending year, and the sections taken one after the other are the
    result. *)
Theorem year_groups_strictly_descending :
  forall (rnd : Random) (allTutorials : list Tutorial) (st : FilterState)
         (calls : nat),
    let result := fst (apply rnd allTutorials st calls) in
    StronglySorted Z.gt (map fst (year_sections result))
    /\ StronglySorted year_ge result
    /\ flat_map snd (year_sections result) = result.
Proof.
  intros rnd allTutorials st calls result. split; [|split].
  - apply year_sections_strict.
  - apply shuffle_sorted.
  - apply year_sections_flatten.
Qed.

(** ** Years as strings *)

Definition is_digit (c : ascii) : bool :=
  (48 <=? nat_of_ascii c) && (nat_of_ascii c <=? 57).

Lemma string_of_uint_digits d : all_chars is_digit (NilEmpty.string_of_uint d) = true.
Proof. induction d; simpl; auto. Qed.

Lemma digits_val_uint d : forall acc,
  digits_val 10 (Z.of_nat acc) (NilEmpty.string_of_uint d)
  = Some (Z.of_nat (Nat.of_uint_acc d acc)).
Proof.
  induction d; intros acc; cbn [NilEmpty.string_of_uint Nat.of_uint_acc digits_val];
    try reflexivity;
    match goal with
    | |- context [digit_of 10 ?c] =>
        let v := eval vm_compute in (digit_of 10 c) in
        change (digit_of 10 c) with v; cbv iota beta
    end;
    rewrite <- IHd; f_equal; rewrite Nat.tail_mul_spec; lia.
Qed.

Lemma to_uint_not_nil n : Nat.to_uint n <> Decimal.Nil.
Proof.
  intros H. pose proof (Unsigned.of_to n) as E. rewrite H in E.
  cbn in E. subst n. discriminate H.
Qed.

Lemma show_nat_uint n : show_nat n = NilEmpty.string_of_uint (Nat.to_uint n).
Proof.
  unfold show_nat, NilZero.string_of_uint.
  pose proof (to_uint_not_nil n). destruct (Nat.to_uint n); congruence.
Qed.

Lemma show_nat_digits n : all_chars is_digit (show_nat n) = true.
Proof. rewrite show_nat_uint. apply string_of_uint_digits. Qed.

Lemma show_nat_value n : digits_val 10 0 (show_nat n) = Some (Z.of_nat n).
Proof.
  rewrite show_nat_uint. change 0%Z with (Z.of_nat 0).
  rewrite digits_val_uint. f_equal. f_equal. apply Unsigned.of_to.
Qed.

Lemma show_nat_not_empty n : show_nat n <> "".
Proof.
  rewrite show_nat_uint. pose proof (to_uint_not_nil n).
  destruct (Nat.to_uint n); simpl; congruence.
Qed.

Lemma trimStart_id s :
  all_chars (fun c => negb (is_space c)) s = true -> trimStart s = s.
Proof.
  destruct s as [|c s]; simpl; auto. intros H.
  apply andb_true_iff in H as [Hc _]. apply negb_true_iff in Hc. now rewrite Hc.
Qed.

Lemma trimEnd_id s :
  all_chars (fun c => negb (is_space c)) s = true -> trimEnd s = s.
Proof.
  induction s as [|c s IH]; simpl; auto. intros H.
  apply andb_true_iff in H as [Hc H]. apply negb_true_iff in Hc.
  rewrite Hc. simpl. now rewrite IH.
Qed.

Lemma trim_id s :
  all_chars (fun c => negb (is_space c)) s = true -> trim s = s.
Proof. intros H. unfold trim. now rewrite trimStart_id, trimEnd_id. Qed.

Lemma break_none p s :
  all_chars (fun c => negb (p c)) s = true -> break p s = (s, "").
Proof.
  induction s as [|c s IH]; simpl; auto. intros H.
  apply andb_true_iff in H as [Hc H]. apply negb_true_iff in Hc.
  now rewrite Hc, IH.
Qed.

Lemma digit_plain c :
  is_digit c = true ->
  negb (is_space c) = true
  /\ negb (is_char c "e" || is_char c "E") = true
  /\ negb (is_char c ".") = true.
Proof. each_char c; simpl; intros; try discriminate; auto. Qed.

Lemma signed_decimal_digits neg s v :
  s <> "" -> all_chars is_digit s = true -> digits_val 10 0 s = Some v ->
  signed_decimal neg s = Decimal (if neg then (- v)%Z else v) 0.
Proof.
  intros Hne Hd Hv. unfold signed_decimal.
  assert (Hinf : String.eqb s "Infinity" = false).
  { destruct s as [|c s]; [congruence|]. simpl in Hd.
    apply andb_true_iff in Hd as [Hc _]. revert Hc.
    each_char c; simpl; intros; try discriminate; auto. }
  rewrite Hinf. unfold unsigned_decimal.
  rewrite break_none.
  2:{ eapply all_chars_impl; [|exact Hd]. intros c Hc. now apply digit_plain. }
  rewrite break_none.
  2:{ eapply all_chars_impl; [|exact Hd]. intros c Hc. now apply digit_plain. }
  destruct s as [|c s]; [congruence|].
  rewrite Hv. simpl. reflexivity.
Qed.

Lemma StringToNumber_digits s v :
  s <> "" -> all_chars is_digit s = true -> digits_val 10 0 s = Some v ->
  StringToNumber s = Decimal v 0.
Proof.
  intros Hne Hd Hv. unfold StringToNumber.
  rewrite trim_id.
  2:{ eapply all_chars_impl; [|exact Hd]. intros c Hc. now apply digit_plain. }
  rewrite <- (signed_decimal_digits false s v Hne Hd Hv).
  destruct s as [|c s]; [congruence|].
  simpl in Hd. apply andb_true_iff in Hd as [Hc Hd]. revert Hc.
  each_char c; simpl; intros Hc; try discriminate; try reflexivity.
  destruct s as [|c' s]; [reflexivity|].
  simpl in Hd. apply andb_true_iff in Hd as [Hc' Hd]. revert Hc'.
  clear. each_char c'; simpl; intros Hc'; try discriminate; reflexivity.
Qed.

Lemma StringToNumber_show_Z z : StringToNumber (show_Z z) = Decimal z 0.
Proof.
  destruct z as [|p|p]; [reflexivity| |].
  - simpl. rewrite (StringToNumber_digits _ (Z.pos p)).
    + reflexivity.
    + apply show_nat_not_empty.
    + apply show_nat_digits.
    + rewrite show_nat_value. f_equal. apply positive_nat_Z.
  - unfold show_Z, StringToNumber.
    assert (Hsp : all_chars (fun c => negb (is_space c))
                    (String "-" (show_nat (Pos.to_nat p))) = true).
    { simpl. eapply all_chars_impl; [|apply show_nat_digits].
      intros c Hc. now apply digit_plain. }
    rewrite (trim_id _ Hsp).
    rewrite (signed_decimal_digits true _ (Z.pos p)).
    + reflexivity.
    + apply show_nat_not_empty.
    + apply show_nat_digits.
    + rewrite show_nat_value. f_equal. apply positive_nat_Z.
Qed.

Lemma loose_eq_show_Z y z : loose_eq y (show_Z z) = (y =? z)%Z.
Proof.
  unfold loose_eq. rewrite StringToNumber_show_Z. simpl.
  now rewrite !Z.mul_1_r.
Qed.

Lemma distinct_In (values : list Z) y : In y (distinct values) -> In y values.
Proof.
  unfold distinct.
  assert (H : forall seen,
             In y (fold_left (fun seen y => if existsb (Z.eqb y) seen
                                            then seen else seen ++ [y])
                             values seen) ->
             In y seen \/ In y values).
  { induction values as [|v values IH]; intros seen Hin; simpl in *; auto.
    apply IH in Hin as [Hin|Hin]; auto.
    destruct (existsb (Z.eqb v) seen); auto.
    apply in_app_or in Hin as [Hin|[<-|[]]]; auto. }
  intros Hin. apply H in Hin as [[]|Hin]. exact Hin.
Qed.

(** Every year that the drop-down offers is the decimal string of the
    year of some tutorial. *)
Lemma year_option_values_spec tutorials value :
  In value (year_option_values tutorials) ->
  value = "" \/ exists t, In t tutorials /\ value = show_Z (year t).
Proof.
  intros [<-|Hin]; [now left|right].
  apply in_map_iff in Hin as (y & <- & Hy).
  apply (Permutation_in _ (sort_descending_permutation _)) in Hy.
  apply distinct_In, in_map_iff in Hy as (t & <- & Ht). eauto.
Qed.

(** ** The filter predicate *)

(** [sub] occurs in [s]. *)
Definition substring_of (sub s : string) : Prop :=
  exists pre post, s = (pre ++ sub ++ post)%string.

Lemma prefix_spec p s : prefix p s = true <-> exists r, s = (p ++ r)%string.
Proof.
  revert s; induction p as [|c p IH]; intros s; simpl.
  - split; [intros _; exists s; reflexivity|now destruct s].
  - destruct s as [|d s]; simpl.
    + split; [discriminate|]. intros [r H]. discriminate.
    + destruct (ascii_dec c d) as [->|Hne].
      * rewrite IH. split; intros [r H]; exists r; simpl in *; congruence.
      * split; [discriminate|]. intros [r H]. simpl in H. congruence.
Qed.

Lemma includes_spec s sub : includes s sub = true <-> substring_of sub s.
Proof.
  unfold substring_of.
  induction s as [|c s IH]; cbn [includes]; rewrite orb_true_iff, prefix_spec.
  - split.
    + intros [[r H]|]; [|discriminate]. exists "", r. exact H.
    + intros (pre & post & H). left. exists post.
      destruct pre; [exact H|discriminate].
  - rewrite IH. split.
    + intros [[r H]|(pre & post & H)].
      * exists "", r. exact H.
      * exists (String c pre), post. simpl. now rewrite H.
    + intros (pre & post & H). destruct pre as [|d pre]; simpl in H.
      * left. eauto.
      * right. exists pre, post. congruence.
Qed.

Lemma truthy_false s : negb (truthy s) = true <-> s = "".
Proof. destruct s; simpl; split; congruence. Qed.

(** The search filter as the code applies it to a search term. *)
Definition search_holds (term : string) (t : Tutorial) : Prop :=
  term = ""
  \/ substring_of term (toLowerCase (title t))
  \/ Exists (fun author => substring_of term (toLowerCase author)) (authors t)
  \/ Exists (fun kw => substring_of term (toLowerCase kw)) (keywords t).

(** The year filter: unset, or equal to the year of the tutorial under
    the comparison [==] of a number with a string. *)
Definition year_holds (selectedYear : string) (t : Tutorial) : Prop :=
  selectedYear = "" \/ loose_eq (year t) selectedYear = true.

(** The topic filter: unset, or one of the keywords of the tutorial. *)
Definition topic_holds (selectedTopic : string) (t : Tutorial) : Prop :=
  selectedTopic = "" \/ In selectedTopic (keywords t).

Lemma existsb_includes term l :
  existsb (fun s => includes (toLowerCase s) term) l = true <->
  Exists (fun s => substring_of term (toLowerCase s)) l.
Proof.
  rewrite existsb_exists, Exists_exists.
  split; intros (s & Hin & H); exists s; split; auto; now apply includes_spec.
Qed.

Lemma matchesSearch_spec term t :
  matchesSearch term t = true <-> search_holds term t.
Proof.
  unfold matchesSearch, search_holds.
  rewrite !orb_true_iff, truthy_false, includes_spec, !existsb_includes.
  tauto.
Qed.

Lemma matchesYear_spec selectedYear t :
  matchesYear selectedYear t = true <-> year_holds selectedYear t.
Proof.
  unfold matchesYear, year_holds. now rewrite orb_true_iff, truthy_false.
Qed.

Lemma matchesTopic_spec selectedTopic t :
  matchesTopic selectedTopic t = true <-> topic_holds selectedTopic t.
Proof.
  unfold matchesTopic, topic_holds.
  rewrite orb_true_iff, truthy_false, existsb_exists.
  split; (intros [H|H]; [now left|right]).
  - destruct H as (kw & Hin & Heq). apply String.eqb_eq in Heq. now subst.
  - exists selectedTopic. split; auto. apply String.eqb_refl.
Qed.

Lemma matches_spec st t :
  matches st t = true <->
  search_holds (searchTerm st) t
  /\ year_holds (yearFilter st) t
  /\ topic_holds (topicFilter st) t.
Proof.
  unfold matches.
  rewrite !andb_true_iff, matchesSearch_spec, matchesYear_spec, matchesTopic_spec.
  tauto.
Qed.

Lemma apply_In rnd allTutorials st calls t :
  In t (fst (apply rnd allTutorials st calls)) <->
  In t allTutorials /\ matches st t = true.
Proof.
  unfold apply, filtered. rewrite <- filter_In.
  split; apply Permutation_in; [|symmetry]; apply shuffle_permutation.
Qed.

(** The search filter as the specification words it: the search text
    itself, compared without regard to case. *)
Definition ci_substring_of (text s : string) : Prop :=
  substring_of (toLowerCase text) (toLowerCase s).

Definition stated_search_holds (st : FilterState) (t : Tutorial) : Prop :=
  searchText st = ""
  \/ ci_substring_of (searchText st) (title t)
  \/ Exists (ci_substring_of (searchText st)) (authors t)
  \/ Exists (ci_substring_of (searchText st)) (keywords t).

Lemma year_holds_show_Z y t : year_holds (show_Z y) t <-> year t = y.
Proof.
  unfold year_holds. rewrite loose_eq_show_Z, Z.eqb_eq.
  split; [|now right]. intros [H|H]; [|exact H].
  exfalso. destruct y as [|p|p]; simpl in H; try discriminate.
  now apply show_nat_not_empty in H.
Qed.

(** The search filter over the string function [lower]: the term is
    empty, or occurs in the lower-cased title, in a lower-cased author or
    in a lower-cased keyword. *)
Definition search_holds_with (lower : string -> string) (term : string)
    (t : Tutorial) : Prop :=
  term = ""
  \/ substring_of term (lower (title t))
  \/ Exists (fun author => substring_of term (lower author)) (authors t)
  \/ Exists (fun kw => substring_of term (lower kw)) (keywords t).

Lemma existsb_includes_with (lower : string -> string) term l :
  existsb (fun s => includes (lower s) term) l = true <->
  Exists (fun s => substring_of term (lower s)) l.
Proof.
  rewrite existsb_exists, Exists_exists.
  split; intros (s & Hs & H); exists s; (split; [exact Hs|]);
    now apply includes_spec.
Qed.

Lemma matches_with_spec lower strip equals st t :
  matches_with lower strip equals st t = true <->
  search_holds_with lower (strip (lower (searchText st))) t
  /\ (yearFilter st = "" \/ equals (year t) (yearFilter st) = true)
  /\ topic_holds (topicFilter st) t.
Proof.
  unfold matches_with, matchesSearch_with, matchesYear_with, searchTerm_with,
    search_holds_with.
  rewrite !andb_true_iff, !orb_true_iff, !truthy_false, !includes_spec,
    !existsb_includes_with, matchesTopic_spec.
  tauto.
Qed.

Lemma apply_with_In lower strip equals rnd allTutorials st calls t :
  In t (fst (apply_with lower strip equals rnd allTutorials st calls)) <->
  In t allTutorials /\ matches_with lower strip equals st t = true.
Proof.
  unfold apply_with. rewrite <- filter_In. split; intros H.
  - exact (Permutation_in _ (shuffle_permutation _ _ _) H).
  - exact (Permutation_in _ (Permutation_sym (shuffle_permutation _ _ _)) H).
Qed.

(** C1 (as amended). For every collection and filter state, a tutorial is
    in the result of the Filter Engine exactly when it is in the
    collection and satisfies the three filters together, where the search
    filter uses the search text in lower case with the white space at its
    ends removed: it holds when that term is empty or occurs in the
    lower-cased title, in a lower-cased author or in a lower-cased
    keyword; the year filter holds when it is unset or the year equals
    it under [==]; the topic filter holds when it is unset or is one of
    the keywords.  This holds whatever [toLowerCase], [trim] and [==]
    compute, so for those of the platform on every text; the filter of
    this file is the instance at the functions of the ASCII range, and
    for the decimal string of an integer that a number holds exactly (the
    values that the year drop-down offers) [==] is equality with that
    integer. *)
Theorem matched_set_characterisation :
  forall (lower strip : string -> string) (equals : Z -> string -> bool)
         (rnd : Random) (allTutorials : list Tutorial) (st : FilterState)
         (calls : nat) (t : Tutorial),
    (In t (fst (apply_with lower strip equals rnd allTutorials st calls)) <->
     In t allTutorials
     /\ search_holds_with lower (strip (lower (searchText st))) t
     /\ (yearFilter st = "" \/ equals (year t) (yearFilter st) = true)
     /\ topic_holds (topicFilter st) t)
    /\ apply_with toLowerCase trim loose_eq rnd allTutorials st calls
       = apply rnd allTutorials st calls
    /\ (forall y : Z,
          (Z.abs y <= 2 ^ 53)%Z ->
          (year_holds (show_Z y) t <-> year t = y)).
Proof.
  intros. split; [|split].
  - rewrite apply_with_In, matches_with_spec. reflexivity.
  - reflexivity.
  - intros y _. apply year_holds_show_Z.
Qed.

Definition first_draw : Draw := {| numer := 0; denom := 1; in_unit := Nat.lt_0_1 |}.

Definition graphs_101 : Tutorial :=
  {| title := "Graphs 101"; authors := []; year := 2023;
     status := Some regular; keywords := ["theory"];
     thumbnail := None; url := None |}.

Definition padded_search : FilterState :=
  {| searchText := " graph"; yearFilter := ""; topicFilter := "" |}.

(** C1, counterexample.  With the search text [" graph"] (a leading
    space) the tutorial "Graphs 101" is in the result, although the
    search text is not empty and does not occur, whatever the case, in
    its title, authors or keywords. *)
Lemma search_text_is_trimmed :
  ~ (In graphs_101 (fst (apply (fun _ => first_draw) [graphs_101] padded_search 0))
     <-> In graphs_101 [graphs_101]
         /\ stated_search_holds padded_search graphs_101
         /\ year_holds (yearFilter padded_search) graphs_101
         /\ topic_holds (topicFilter padded_search) graphs_101).
Proof.
  intros [H _].
  destruct H as (_ & Hs & _); [vm_compute; auto|].
  destruct Hs as [Hs|[Hs|[Hs|Hs]]].
  - discriminate.
  - apply includes_spec in Hs. vm_compute in Hs. discriminate.
  - inversion Hs.
  - apply Exists_exists in Hs as (kw & [<-|[]] & Hs).
    apply includes_spec in Hs. vm_compute in Hs. discriminate.
Qed.

(** ** The URL codec *)

(** The characters that the serialiser writes. *)
Definition is_encoded_char (c : ascii) : bool :=
  is_unreserved c || is_char c "+" || is_char c "%".

Lemma encode_char_chars c : all_chars is_encoded_char (encode_char c) = true.
Proof. each_char c; reflexivity. Qed.

Lemma urlencode_chars s : all_chars is_encoded_char (urlencode s) = true.
Proof.
  induction s as [|c s IH]; simpl; auto.
  now rewrite all_chars_app, encode_char_chars, IH.
Qed.

Lemma encoded_char_not_amp c : is_encoded_char c = true -> negb (is_char c "&") = true.
Proof. each_char c; simpl; auto. Qed.

Lemma encoded_char_not_eq c : is_encoded_char c = true -> negb (is_char c "=") = true.
Proof. each_char c; simpl; auto. Qed.

Lemma plus_to_space_app s1 s2 :
  plus_to_space (s1 ++ s2)%string = (plus_to_space s1 ++ plus_to_space s2)%string.
Proof. induction s1 as [|c s1 IH]; simpl; auto. now rewrite IH. Qed.

Lemma decode_encode_char c rest :
  percent_decode (plus_to_space (encode_char c) ++ rest)%string
  = String c (percent_decode rest).
Proof. each_char c; reflexivity. Qed.

Lemma urldecode_urlencode s : urldecode (urlencode s) = s.
Proof.
  unfold urldecode. induction s as [|c s IH]; simpl; auto.
  now rewrite plus_to_space_app, decode_encode_char, IH.
Qed.

Lemma break_app p s1 c s2 :
  all_chars (fun a => negb (p a)) s1 = true -> p c = true ->
  break p (s1 ++ String c s2)%string = (s1, String c s2).
Proof.
  intros H1 Hc. induction s1 as [|a s1 IH]; simpl in *.
  - now rewrite Hc.
  - apply andb_true_iff in H1 as [Ha H1]. apply negb_true_iff in Ha.
    now rewrite Ha, IH.
Qed.

Lemma split_on_whole sep s :
  all_chars (fun a => negb (is_char a sep)) s = true -> split_on sep s = [s].
Proof.
  induction s as [|a s IH]; simpl; auto.
  intros H. apply andb_true_iff in H as [Ha H]. apply negb_true_iff in Ha.
  now rewrite Ha, IH.
Qed.

Lemma split_on_app sep s1 s2 :
  all_chars (fun a => negb (is_char a sep)) s1 = true ->
  split_on sep (s1 ++ String sep s2)%string = s1 :: split_on sep s2.
Proof.
  induction s1 as [|a s1 IH]; simpl.
  - intros _. unfold is_char. now rewrite Ascii.eqb_refl.
  - intros H. apply andb_true_iff in H as [Ha H]. apply negb_true_iff in Ha.
    now rewrite Ha, IH.
Qed.

Definition encode_pair (p : string * string) : string :=
  (urlencode (fst p) ++ "=" ++ urlencode (snd p))%string.

Lemma encode_pair_no_amp p :
  all_chars (fun a => negb (is_char a "&")) (encode_pair p) = true.
Proof.
  unfold encode_pair. rewrite !all_chars_app. simpl.
  rewrite !(all_chars_impl is_encoded_char _ _ encoded_char_not_amp);
    auto using urlencode_chars.
Qed.

Lemma encode_pair_truthy p : truthy (encode_pair p) = true.
Proof.
  unfold encode_pair. destruct (urlencode (fst p)); reflexivity.
Qed.

Lemma parse_encode_pair p : parse_pair (encode_pair p) = p.
Proof.
  unfold parse_pair, encode_pair. simpl.
  rewrite break_app.
  - rewrite !urldecode_urlencode. now destruct p.
  - apply (all_chars_impl is_encoded_char _ _ encoded_char_not_eq),
      urlencode_chars.
  - reflexivity.
Qed.

Lemma split_join_pairs params :
  params <> [] ->
  split_on "&" (join "&" (map encode_pair params)) = map encode_pair params.
Proof.
  induction params as [|p params IH]; [congruence|]. intros _.
  destruct params as [|q params].
  - simpl. apply split_on_whole, encode_pair_no_amp.
  - change (join "&" (map encode_pair (p :: q :: params)))
      with (encode_pair p ++ String "&" (join "&" (map encode_pair (q :: params))))%string.
    rewrite split_on_app by apply encode_pair_no_amp.
    rewrite IH by discriminate. reflexivity.
Qed.

(** Parsing what the serialiser wrote gives the pairs back. *)
Lemma parse_toString params : parse_urlencoded (params_toString params) = params.
Proof.
  unfold parse_urlencoded, params_toString.
  fold encode_pair. change (fun p => encode_pair p) with encode_pair.
  destruct params as [|p params]; [reflexivity|].
  rewrite split_join_pairs by discriminate.
  rewrite filter_all.
  - rewrite map_map. rewrite <- (map_id (p :: params)) at 2.
    apply map_ext. apply parse_encode_pair.
  - intros s Hs. apply in_map_iff in Hs as (q & <- & _).
    apply encode_pair_truthy.
Qed.

Lemma toString_empty params : params_toString params = "" -> params = [].
Proof.
  intros H. rewrite <- (parse_toString params), H. reflexivity.
Qed.

Lemma params_of_search st : new_URLSearchParams (search_of st) = url_params st.
Proof.
  unfold search_of, toQuery.
  destruct (params_toString (url_params st)) as [|c q] eqn:E; simpl.
  - symmetry. now apply toString_empty.
  - rewrite <- E. apply parse_toString.
Qed.

(** [updateURL] writes exactly the filters that are set, in the order
    search, year, topic. *)
Lemma url_params_spec st :
  url_params st =
  filter (fun p => truthy (snd p))
         [("search", searchText st); ("year", yearFilter st);
          ("topic", topicFilter st)].
Proof.
  unfold url_params. simpl.
  destruct (truthy (searchText st)), (truthy (yearFilter st)),
    (truthy (topicFilter st)); reflexivity.
Qed.

Lemma truthy_empty s : truthy s = false -> s = "".
Proof. now destruct s. Qed.

Lemma read_url_params st yearSelect topicSelect controls :
  read_params (url_params st) yearSelect topicSelect controls =
  {| searchText := if truthy (searchText st) then searchText st
                   else searchText controls;
     yearFilter := if truthy (yearFilter st)
                   then assign_value yearSelect (yearFilter st)
                   else yearFilter controls;
     topicFilter := if truthy (topicFilter st)
                    then assign_value topicSelect (topicFilter st)
                    else topicFilter controls |}.
Proof.
  rewrite url_params_spec. unfold read_params. simpl.
  destruct (truthy (searchText st)), (truthy (yearFilter st)),
    (truthy (topicFilter st)); reflexivity.
Qed.

(** The control holds [v] once [v] is assigned to it. *)
Definition retains (control : Control) (v : string) : Prop :=
  assign_value control v = v.

Lemma retains_text_field v : retains TextField v.
Proof. reflexivity. Qed.

Lemma retains_empty control : retains control "".
Proof. destruct control as [|offers]; unfold retains; simpl; auto.
  now destruct (offers "").
Qed.

Lemma fromQuery_toQuery yearSelect topicSelect st :
  retains yearSelect (yearFilter st) ->
  retains topicSelect (topicFilter st) ->
  fromQuery yearSelect topicSelect (search_of st) = st.
Proof.
  unfold fromQuery, retains. intros Hy Ht.
  rewrite params_of_search, read_url_params, Hy, Ht.
  destruct st as [s y t]. simpl.
  destruct (truthy s) eqn:Es, (truthy y) eqn:Ey, (truthy t) eqn:Et;
    repeat match goal with H : truthy _ = false |- _ =>
             apply truthy_empty in H; subst end;
    reflexivity.
Qed.

Lemma params_toString_chars params :
  all_chars (fun c => negb (is_char c "?")) (params_toString params) = true.
Proof.
  assert (Henc : forall c, is_encoded_char c = true -> negb (is_char c "?") = true)
    by (intros c; each_char c; simpl; auto).
  assert (Hpair : forall p, all_chars (fun c => negb (is_char c "?")) (encode_pair p) = true).
  { intros p. unfold encode_pair. rewrite !all_chars_app. simpl.
    rewrite !(all_chars_impl is_encoded_char _ _ Henc); auto using urlencode_chars. }
  unfold params_toString. fold encode_pair.
  change (fun p => encode_pair p) with encode_pair.
  induction params as [|p params IH]; [reflexivity|].
  destruct params as [|q params]; [apply Hpair|].
  change (join "&" (map encode_pair (p :: q :: params)))
    with (encode_pair p ++ String "&" (join "&" (map encode_pair (q :: params))))%string.
  rewrite all_chars_app, Hpair. simpl. exact IH.
Qed.

Lemma new_URLSearchParams_plain s :
  all_chars (fun c => negb (is_char c "?")) s = true ->
  new_URLSearchParams s = parse_urlencoded s.
Proof.
  destruct s as [|c s]; [reflexivity|]. simpl. intros H.
  apply andb_true_iff in H as [Hc _]. revert Hc.
  each_char c; simpl; intros Hc; congruence.
Qed.

Lemma params_of_toQuery st : new_URLSearchParams (toQuery st) = url_params st.
Proof.
  unfold toQuery.
  rewrite new_URLSearchParams_plain by apply params_toString_chars.
  apply parse_toString.
Qed.

(** C4. The URL codec round-trips every filter state whose year and topic
    are values that the two drop-downs hold (any string for a control
    that holds what is assigned to it, the value of one of its options
    for a [select] element): reading the query that [updateURL] writes,
    with or without its leading question mark, gives the state back; and
    the query holds exactly the filters that are set, in the order
    search, year, topic, so that no parameter with an empty value is ever
    written. *)
Theorem url_round_trip :
  forall (yearSelect topicSelect : Control) (st : FilterState),
    retains yearSelect (yearFilter st) ->
    retains topicSelect (topicFilter st) ->
    fromQuery yearSelect topicSelect (toQuery st) = st
    /\ fromQuery yearSelect topicSelect (search_of st) = st
    /\ new_URLSearchParams (toQuery st)
       = filter (fun p => truthy (snd p))
                [("search", searchText st); ("year", yearFilter st);
                 ("topic", topicFilter st)]
    /\ Forall (fun p => snd p <> "") (new_URLSearchParams (toQuery st)).
Proof.
  intros yearSelect topicSelect st Hy Ht.
  assert (Hq : fromQuery yearSelect topicSelect (toQuery st)
               = fromQuery yearSelect topicSelect (search_of st)).
  { unfold fromQuery. now rewrite params_of_toQuery, params_of_search. }
  split; [rewrite Hq; now apply fromQuery_toQuery|].
  split; [now apply fromQuery_toQuery|].
  rewrite params_of_toQuery, url_params_spec. split; [reflexivity|].
  apply Forall_forall. intros p Hp. apply filter_In in Hp as [_ Hp].
  destruct (snd p); [discriminate|congruence].
Qed.

Definition shared_view : FilterState :=
  {| searchText := "graphs & trees"; yearFilter := "2023";
     topicFilter := "theory" |}.

(** A state chosen on a page whose drop-downs hold the options of the
    tutorial "Graphs 101". *)
Lemma url_round_trip_witness :
  fromQuery (DropDown (year_offers [graphs_101]))
            (DropDown (topic_offers [graphs_101])) (toQuery shared_view)
  = shared_view.
Proof.
  exact (proj1 (url_round_trip (DropDown (year_offers [graphs_101]))
                               (DropDown (topic_offers [graphs_101]))
                               shared_view eq_refl eq_refl)).
Defined.

Example shared_view_query :
  toQuery shared_view = "search=graphs+%26+trees&year=2023&topic=theory".
Proof. reflexivity. Qed.

(** ** Reading the URL *)

Lemma params_has_get name params :
  params_has name params = true <-> params_get name params <> None.
Proof.
  induction params as [|[n v] params IH]; simpl.
  - split; [discriminate|congruence].
  - destruct (String.eqb n name); simpl; [split; congruence|exact IH].
Qed.

Lemma read_params_spec params yearSelect topicSelect controls :
  read_params params yearSelect topicSelect controls =
  {| searchText := match params_get "search" params with
                   | Some v => v | None => searchText controls end;
     yearFilter := match params_get "year" params with
                   | Some v => assign_value yearSelect v
                   | None => yearFilter controls end;
     topicFilter := match params_get "topic" params with
                    | Some v => assign_value topicSelect v
                    | None => topicFilter controls end |}.
Proof.
  unfold read_params.
  assert (H : forall name control old,
             (if params_has name params
              then match params_get name params with
                   | Some v => assign_value control v
                   | None => old
                   end
              else old)
             = match params_get name params with
               | Some v => assign_value control v
               | None => old
               end).
  { intros name control old. destruct (params_has name params) eqn:E; auto.
    destruct (params_get name params) eqn:G; auto.
    assert (params_has name params = true); [|congruence].
    apply params_has_get. congruence. }
  rewrite !H. reflexivity.
Qed.

(** The names of the parameters that the script reads. *)
Definition recognised (p : string * string) : bool :=
  String.eqb (fst p) "search" || String.eqb (fst p) "year"
  || String.eqb (fst p) "topic".

Lemma params_get_filter (q : string * string -> bool) name params :
  (forall v, q (name, v) = true) ->
  params_get name (filter q params) = params_get name params.
Proof.
  intros Hq. induction params as [|[n v] params IH]; simpl; auto.
  destruct (String.eqb_spec n name) as [->|Hne].
  - rewrite Hq. simpl. now rewrite String.eqb_refl.
  - destruct (q (n, v)); simpl; auto.
    destruct (String.eqb_spec n name); congruence.
Qed.

Lemma read_params_recognised params yearSelect topicSelect controls :
  read_params (filter recognised params) yearSelect topicSelect controls
  = read_params params yearSelect topicSelect controls.
Proof.
  rewrite !read_params_spec.
  rewrite !params_get_filter; auto.
Qed.

Lemma shuffleWithinYears_nil rnd calls :
  shuffleWithinYears rnd [] calls = ([], calls).
Proof. reflexivity. Qed.

Lemma apply_no_match rnd allTutorials st calls :
  (forall t, In t allTutorials -> matches st t = false) ->
  apply rnd allTutorials st calls = ([], calls).
Proof.
  intros H. unfold apply, filtered. rewrite filter_none by exact H.
  apply shuffleWithinYears_nil.
Qed.

(** The values that the year drop-down offers are the empty one and the
    decimal strings of the years of the tutorials. *)
Lemma year_offers_false tutorials selected :
  selected <> "" ->
  (forall t, In t tutorials -> selected <> show_Z (year t)) ->
  year_offers tutorials selected = false.
Proof.
  intros Hne Hno. unfold year_offers.
  destruct (existsb (String.eqb selected) (year_option_values tutorials)) eqn:E;
    [|reflexivity].
  exfalso. apply existsb_exists in E as (value & Hin & Heq).
  apply String.eqb_eq in Heq. subst value.
  apply year_option_values_spec in Hin as [Hin|(t & Ht & Hin)]; [congruence|].
  exact (Hno t Ht Hin).
Qed.

Lemma year_offers_true tutorials t :
  In t tutorials -> year_offers tutorials (show_Z (year t)) = true.
Proof.
  intros Ht. unfold year_offers, year_option_values.
  apply existsb_exists. exists (show_Z (year t)).
  split; [|apply String.eqb_refl].
  right. apply in_map.
  apply (Permutation_in _ (Permutation_sym (sort_descending_permutation _))).
  clear -Ht. unfold distinct.
  assert (H : forall values seen y,
             In y seen \/ In y values ->
             In y (fold_left (fun seen y => if existsb (Z.eqb y) seen
                                            then seen else seen ++ [y])
                             values seen)).
  { induction values as [|v values IH]; intros seen y Hin; simpl.
    - destruct Hin as [Hin|[]]. exact Hin.
    - apply IH. destruct Hin as [Hin|[<-|Hin]]; [| |now right].
      + left. destruct (existsb (Z.eqb v) seen); [exact Hin|].
        apply in_or_app. now left.
      + left. destruct (existsb (Z.eqb v) seen) eqn:E.
        * apply existsb_exists in E as (x & Hx & Heq).
          apply Z.eqb_eq in Heq. now subst x.
        * apply in_or_app. right. now left. }
  apply H. right. now apply in_map.
Qed.

Lemma year_offers_empty tutorials : year_offers tutorials "" = true.
Proof. reflexivity. Qed.

Lemma matches_with_without_year lower strip equals st t :
  yearFilter st = "" ->
  matches_with lower strip equals st t
  = matchesSearch_with lower (strip (lower (searchText st))) t
    && matchesTopic (topicFilter st) t.
Proof.
  intros H. unfold matches_with, matchesYear_with, searchTerm_with.
  rewrite H. simpl. now rewrite andb_true_r.
Qed.

(** C6 (as amended). [yearSelect] is the year drop-down that
    [populateFilters] has filled with the years of the tutorials.  When
    the URL carries a year parameter that is not the value of one of its
    options (it is not empty and is not the decimal string of the year of
    any tutorial), the drop-down does not take it: the year filter of the
    resulting state is unset, a tutorial is in the result exactly when it
    passes the search and the topic filter (whatever [toLowerCase],
    [trim] and [==] compute), and with no search and no topic parameter
    the result holds every tutorial; nothing raises an error.  A year
    parameter that is empty or the decimal string of the year of a
    tutorial is kept as provided.  A recognised parameter that is missing
    leaves its filter unset, and parameters of other names do not affect
    the state. *)
Theorem url_year_without_match :
  (forall (rnd : Random) (tutorials : list Tutorial) (calls : nat)
          (topicSelect : Control) (query selected : string),
      params_get "year" (new_URLSearchParams query) = Some selected ->
      selected <> "" ->
      (forall t, In t tutorials -> selected <> show_Z (year t)) ->
      let st := fromQuery (DropDown (year_offers tutorials)) topicSelect query in
      yearFilter st = ""
      /\ (forall (lower strip : string -> string) (equals : Z -> string -> bool)
                 (t : Tutorial),
            In t (fst (apply_with lower strip equals rnd tutorials st calls)) <->
            In t tutorials
            /\ matchesSearch_with lower (strip (lower (searchText st))) t = true
            /\ matchesTopic (topicFilter st) t = true)
      /\ (params_get "search" (new_URLSearchParams query) = None ->
          params_get "topic" (new_URLSearchParams query) = None ->
          st = no_filters
          /\ Permutation (fst (apply rnd tutorials st calls)) tutorials))
  /\ (forall (tutorials : list Tutorial) (topicSelect : Control)
             (query selected : string),
        params_get "year" (new_URLSearchParams query) = Some selected ->
        selected = "" \/ (exists t, In t tutorials /\ selected = show_Z (year t)) ->
        yearFilter (fromQuery (DropDown (year_offers tutorials)) topicSelect query)
        = selected)
  /\ (forall (yearSelect topicSelect : Control) (query : string),
        (params_get "search" (new_URLSearchParams query) = None ->
         searchText (fromQuery yearSelect topicSelect query) = "")
        /\ (params_get "year" (new_URLSearchParams query) = None ->
            yearFilter (fromQuery yearSelect topicSelect query) = "")
        /\ (params_get "topic" (new_URLSearchParams query) = None ->
            topicFilter (fromQuery yearSelect topicSelect query) = ""))
  /\ (forall (yearSelect topicSelect : Control) (query : string),
        fromQuery yearSelect topicSelect query
        = read_params (filter recognised (new_URLSearchParams query))
                      yearSelect topicSelect no_filters).
Proof.
  split; [|split; [|split]].
  - intros rnd tutorials calls topicSelect query selected Hget Hne Hno st.
    assert (Hy : yearFilter st = "").
    { subst st. unfold fromQuery. rewrite read_params_spec. simpl.
      rewrite Hget. simpl. now rewrite year_offers_false. }
    split; [exact Hy|]. split.
    + intros lower strip equals t.
      rewrite apply_with_In, matches_with_without_year by exact Hy.
      rewrite andb_true_iff. reflexivity.
    + intros Hsearch Htopic.
      assert (Hst : st = no_filters).
      { destruct st as [s y tp] eqn:E. cbn in Hy. subst y.
        assert (Hs : searchText st = "").
        { subst st. unfold fromQuery. rewrite read_params_spec. simpl.
          now rewrite Hsearch. }
        assert (Ht : topicFilter st = "").
        { subst st. unfold fromQuery. rewrite read_params_spec. simpl.
          now rewrite Htopic. }
        rewrite E in Hs, Ht. cbn in Hs, Ht. now subst s tp. }
      split; [exact Hst|].
      rewrite Hst. unfold apply, filtered.
      rewrite (filter_all (matches no_filters));
        [apply shuffle_permutation|intros; reflexivity].
  - intros tutorials topicSelect query selected Hget Hoffered.
    unfold fromQuery. rewrite read_params_spec. simpl. rewrite Hget. simpl.
    destruct Hoffered as [->|(t & Ht & ->)].
    + reflexivity.
    + now rewrite year_offers_true.
  - intros yearSelect topicSelect query. unfold fromQuery.
    rewrite read_params_spec. simpl.
    repeat split; intros ->; reflexivity.
  - intros yearSelect topicSelect query. unfold fromQuery.
    now rewrite read_params_recognised.
Qed.

(** A year parameter that is no number, next to a parameter of an unknown
    name, read into the drop-down that holds the year 2023: the year
    filter is unset and the tutorial is shown. *)
Lemma url_year_without_match_witness :
  let st := fromQuery (DropDown (year_offers [graphs_101]))
                      (DropDown (topic_offers [graphs_101]))
                      "?year=abc&page=2" in
  yearFilter st = ""
  /\ (forall (lower strip : string -> string) (equals : Z -> string -> bool)
             (t : Tutorial),
        In t (fst (apply_with lower strip equals (fun _ => first_draw)
                              [graphs_101] st 0)) <->
        In t [graphs_101]
        /\ matchesSearch_with lower (strip (lower (searchText st))) t = true
        /\ matchesTopic (topicFilter st) t = true)
  /\ (params_get "search" (new_URLSearchParams "?year=abc&page=2") = None ->
      params_get "topic" (new_URLSearchParams "?year=abc&page=2") = None ->
      st = no_filters
      /\ Permutation (fst (apply (fun _ => first_draw) [graphs_101] st 0))
                     [graphs_101]).
Proof.
  apply (proj1 url_year_without_match
               (fun _ => first_draw) [graphs_101] 0
               (DropDown (topic_offers [graphs_101]))
               "?year=abc&page=2" "abc").
  - reflexivity.
  - discriminate.
  - intros t [<-|[]]. discriminate.
Defined.

(** What the specification states about a year parameter [selected] that
    matches the year of no tutorial: the state keeps it and the result is
    empty. *)
Definition stated_year_kept (tutorials : list Tutorial) (query selected : string)
    : Prop :=
  let st := fromQuery (DropDown (year_offers tutorials))
                      (DropDown (topic_offers tutorials)) query in
  yearFilter st = selected
  /\ fst (apply (fun _ => first_draw) tutorials st 0) = [].

(** C6, counterexample.  The year 1999 of the query [?year=1999] is an
    integer and the year of no tutorial of the collection, which holds
    one tutorial of 2023.  The drop-down offers "All Years" and 2023: it
    does not take 1999, the year filter is unset and the tutorial is
    shown. *)
Lemma unknown_year_is_not_kept :
  ~ stated_year_kept [graphs_101] "?year=1999" "1999".
Proof.
  intros [Hkept _]. vm_compute in Hkept. discriminate Hkept.
Qed.

(** The year 1999 of the query is the year of no tutorial: the populated
    drop-down does not retain it and the tutorial of 2023 is shown. *)
Example unknown_year_in_drop_down :
  let st := fromQuery (DropDown (year_offers [graphs_101]))
                      (DropDown (topic_offers [graphs_101])) "?year=1999" in
  yearFilter st = ""
  /\ fst (apply (fun _ => first_draw) [graphs_101] st 0) = [graphs_101].
Proof. split; reflexivity. Qed.

(** ** One run of [filterTutorials] *)

(** The page on which all the guarded elements are present and the two
    drop-downs are [select] elements. *)
Definition full_page : Page :=
  {| libraryContainer := true; resultsCount := true; clearButton := true;
     selects := true |}.

Definition display_of (st : FilterState) : string :=
  if hasFilters st then "inline-block" else "none".

(** The effects of [renderTutorials], [updateResultsCount] included. *)
Definition render_effects (page : Page) (result : list Tutorial) (total : nat)
    : list Effect :=
  if libraryContainer page
  then ClearContainer
       :: match result with
          | [] => ShowEmptyState
          | _ :: _ => RenderSections (year_sections result)
          end
       :: (if resultsCount page
           then [SetResultsCount (count_text (List.length result) total)]
           else [])
  else [].

(** The effects of one run of [filterTutorials], in their order. *)
Definition run_effects (page : Page) (path : string) (st : FilterState)
    (result : list Tutorial) (total : nat) : list Effect :=
  Filtered st result
  :: render_effects page result total
  ++ ReplaceState (newURL path st)
  :: (if clearButton page then [SetClearButton (display_of st)] else []).

Definition at_time (t : Z) (effects : list Effect) : list (Z * Effect) :=
  map (pair t) effects.

Lemma filterTutorials_eq rnd page w :
  filterTutorials rnd page w =
  let result := fst (apply rnd (allTutorials w) (controls w) (random_calls w)) in
  {| allTutorials := allTutorials w;
     filteredTutorials := result;
     controls := controls w;
     pathname := pathname w;
     location_search := search_of (controls w);
     searchDebounce := searchDebounce w;
     timers := timers w;
     next_timer := next_timer w;
     random_calls :=
       snd (apply rnd (allTutorials w) (controls w) (random_calls w));
     clock := clock w;
     phase := phase w;
     trace := trace w
              ++ at_time (clock w)
                   (run_effects page (pathname w) (controls w) result
                                (List.length (allTutorials w))) |}.
Proof.
  destruct w as [all stored st path query debounce pending next calls0 now ph tr].
  unfold filterTutorials.
  cbn [allTutorials controls random_calls].
  destruct (apply rnd all st calls0) as [result calls].
  destruct page as [[] [] [] ?], result as [|r result];
    cbv beta iota zeta delta
      [store_filtered emit renderTutorials updateResultsCount showEmptyState
       updateURL updateClearButton run_effects render_effects at_time
       display_of allTutorials filteredTutorials controls pathname
       location_search searchDebounce timers next_timer random_calls clock
       phase trace libraryContainer resultsCount clearButton negb fst snd map];
    rewrite <- ?app_assoc; reflexivity.
Qed.

(** ** The filter callback on objects *)

Lemma js_matches_to_object st t :
  js_matches st (to_object t) = Normal (matches st t).
Proof.
  unfold js_matches, js_matchesSearch, js_matchesTopic, js_matchesYear,
    matches, matchesSearch, matchesYear, matchesTopic. simpl.
  destruct (negb (truthy (searchTerm st))); simpl;
    destruct (includes (toLowerCase (title t)) (searchTerm st)); simpl;
    destruct (existsb (fun author => includes (toLowerCase author) (searchTerm st))
                      (authors t)); simpl;
    destruct (negb (truthy (topicFilter st))); simpl; reflexivity.
Qed.

Lemma js_filter_to_object st ts :
  js_filter (js_matches st) (map to_object ts)
  = Normal (map to_object (filter (matches st) ts)).
Proof.
  induction ts as [|t ts IH]; simpl; auto.
  rewrite js_matches_to_object, IH. simpl.
  now destruct (matches st t).
Qed.

(** An object with a title, a year and keywords and without authors, as
    the items of the scenario of the specification are written. *)
Definition without_authors (name : string) (y : Z) (kws : list string)
    : JsTutorial :=
  {| js_title := Some name; js_authors := None; js_year := Some y;
     js_keywords := Some kws |}.

(** The three items of the scenario of the specification. *)
Definition scenario_objects : list JsTutorial :=
  [ without_authors "Deep Learning Basics" 2023 ["ml"];
    without_authors "Graphs 101" 2023 ["theory"];
    without_authors "Compilers" 2022 ["pl"] ].

(** C5, the failing input.  On the three items of the scenario of the
    specification, which have no [authors], the filter with the search
    text "graph" raises a [TypeError]: the title of the first item does
    not contain the term, and the callback calls [some] on its missing
    authors.  The same items pass the filter while no search text is set
    (all of them with no filter, the one of 2022 with that year chosen),
    and [renderAuthors] accepts their missing authors and shows
    "Unknown". *)
Theorem filter_raises_on_items_without_authors :
  js_filter (js_matches (with_search "graph" no_filters)) scenario_objects
  = TypeError "some"
  /\ js_filter (js_matches no_filters) scenario_objects = Normal scenario_objects
  /\ js_filter (js_matches (with_year "2022" no_filters)) scenario_objects
     = Normal [without_authors "Compilers" 2022 ["pl"]]
  /\ Forall (fun item => renderAuthors (js_authors item) = "Unknown")
            scenario_objects.
Proof.
  split; [vm_compute; reflexivity|].
  split; [vm_compute; reflexivity|].
  split; [vm_compute; reflexivity|].
  repeat constructor.
Qed.

(** ** The order of the effects of a run *)

(** The effects that happened between the world [w] and the later world
    [w']. *)
Definition effects_since (w w' : World) : list Effect :=
  map snd (skipn (List.length (trace w)) (trace w')).

Lemma effects_since_app w w' t effects :
  trace w' = trace w ++ at_time t effects -> effects_since w w' = effects.
Proof.
  intros H. unfold effects_since.
  rewrite H, skipn_app, skipn_all, Nat.sub_diag. simpl.
  unfold at_time. rewrite map_map. apply map_id.
Qed.

(** C8 (as amended). On a page that has the container, the count
    indicator and the clear button, every run of [filterTutorials]
    performs all of the following, in this order: it computes and stores
    the result; it renders it (the empty state when the result is empty);
    it sets the count text, "Showing all T tutorials" when the number N
    of results equals the total T and "Showing N of T tutorials"
    otherwise; it replaces the URL; and last it shows the clear button
    when one of the three filters is set and hides it otherwise. *)
Theorem rerun_effects_in_order :
  forall (rnd : Random) (w : World),
    let st := controls w in
    let result := fst (apply rnd (allTutorials w) st (random_calls w)) in
    let shown := List.length result in
    let total := List.length (allTutorials w) in
    let w' := filterTutorials rnd full_page w in
    filteredTutorials w' = result
    /\ location_search w' = search_of st
    /\ trace w' =
       trace w
       ++ at_time (clock w)
            [ Filtered st result;
              ClearContainer;
              match result with
              | [] => ShowEmptyState
              | _ :: _ => RenderSections (year_sections result)
              end;
              SetResultsCount
                (if (shown =? total)%nat
                 then "Showing all " ++ show_nat total ++ " tutorials"
                 else "Showing " ++ show_nat shown ++ " of " ++ show_nat total
                      ++ " tutorials")%string;
              ReplaceState (newURL (pathname w) st);
              SetClearButton
                (if truthy (searchText st) || truthy (yearFilter st)
                    || truthy (topicFilter st)
                 then "inline-block" else "none") ].
Proof.
  intros rnd w st result shown total w'. subst w'.
  rewrite filterTutorials_eq.
  cbn [filteredTutorials location_search trace].
  split; [reflexivity|]. split; [reflexivity|].
  reflexivity.
Qed.

(** The order of the effects as the specification states it: the clear
    button before the URL. *)
Definition stated_order (effects : list Effect) : Prop :=
  exists st result shown text display url,
    effects = [Filtered st result; ClearContainer; shown;
               SetResultsCount text; SetClearButton display;
               ReplaceState url].

(** C8, counterexample.  On the page just initialised, a run of
    [filterTutorials] replaces the URL before it updates the clear
    button. *)
Lemma url_is_synced_before_clear_button :
  let w := init full_page "/materials.html" "" in
  ~ stated_order (effects_since w (filterTutorials (fun _ => first_draw) full_page w)).
Proof.
  intros w (st & result & shown & text & display & url & H).
  vm_compute in H. discriminate H.
Qed.

(** ** Events and timers *)

Arguments filterTutorials : simpl never.
Arguments apply : simpl never.
Arguments newURL : simpl never.
Arguments search_of : simpl never.
Arguments count_text : simpl never.
Arguments year_sections : simpl never.
Arguments new_URLSearchParams : simpl never.
Arguments read_params : simpl never.
Arguments load_error_text : simpl never.

Ltac world_fields :=
  cbn [allTutorials filteredTutorials controls pathname location_search
       searchDebounce timers next_timer random_calls clock phase trace].

(** At most one timeout is pending, and it is the one that
    [searchDebounce] names. *)
Definition timers_ok (w : World) : Prop :=
  match timers w with
  | [] => True
  | [(id, _)] => searchDebounce w = Some id
  | _ :: _ :: _ => False
  end.

(** While the page is loading, [allTutorials] is still the empty array. *)
Definition loading_ok (w : World) : Prop :=
  phase w = Loading -> allTutorials w = [].

Lemma filterTutorials_fields rnd page w :
  let w' := filterTutorials rnd page w in
  allTutorials w' = allTutorials w /\ phase w' = phase w
  /\ timers w' = timers w /\ searchDebounce w' = searchDebounce w
  /\ controls w' = controls w /\ clock w' = clock w
  /\ pathname w' = pathname w /\ next_timer w' = next_timer w.
Proof.
  intros w'. subst w'. rewrite filterTutorials_eq. world_fields.
  repeat split.
Qed.

Lemma pending_after_fire id due rest :
  filter (fun p : nat * Z => negb (fst p =? id)) [(id, due)] = []
  /\ due_time id ((id, due) :: rest) = Some due.
Proof. simpl. now rewrite Nat.eqb_refl. Qed.

Ltac through_filter :=
  match goal with
  | |- context [filterTutorials ?rnd ?page ?v] =>
      let H := fresh "H" in
      pose proof (filterTutorials_fields rnd page v) as H; cbv zeta in H;
      destruct H as (-> & -> & -> & -> & _); world_fields
  end.

Lemma step_invariants rnd page event w w' :
  step rnd page event w = Some w' ->
  timers_ok w /\ loading_ok w -> timers_ok w' /\ loading_ok w'.
Proof.
  destruct event as [t action]. unfold step.
  destruct (t <? clock w)%Z; [discriminate|].
  destruct w as [all stored st path query debounce pending next calls0 now ph tr].
  unfold timers_ok, loading_ok. world_fields.
  destruct action as [text|value|value| |id|data|message];
    unfold clearFilters, set_clock, set_controls; world_fields.
  - (* search input *)
    intros [= <-] [Ht Hl].
    unfold handleSearch, setTimeout_debounce, clearTimeout, set_timers.
    world_fields.
    destruct debounce as [i|]; world_fields; (split; [|exact Hl]).
    + destruct pending as [|[id due] [|]]; simpl in *; try tauto.
      injection Ht as ->. now rewrite Nat.eqb_refl.
    + destruct pending as [|[id due] [|]]; simpl in *; try tauto; discriminate.
  - intros [= <-] H. through_filter. exact H.
  - intros [= <-] H. through_filter. exact H.
  - destruct (clearButton page); [|discriminate]. intros [= <-] H.
    through_filter. exact H.
  - (* a timeout fires *)
    destruct (due_time id pending) as [due|] eqn:Ed; [|discriminate].
    destruct (due <=? t)%Z; [|discriminate].
    unfold set_timers. world_fields. intros [= <-] [Ht Hl].
    through_filter. split; [|exact Hl].
    destruct pending as [|[i d] [|]]; simpl in *; try tauto.
    destruct (Nat.eqb_spec i id); [simpl; exact I|discriminate].
  - (* the data arrives *)
    destruct ph; try discriminate. intros [= <-] [Ht _].
    unfold load_succeeds, initializeFromURL, populateFilters, set_controls.
    destruct (selects page); world_fields;
      through_filter; (split; [exact Ht|discriminate]).
  - (* the load fails *)
    destruct ph; try discriminate. intros [= <-] [Ht _].
    unfold load_fails, showError, emit. world_fields.
    destruct (negb (libraryContainer page)); world_fields;
      (split; [exact Ht|discriminate]).
Qed.

Lemma run_invariants rnd page events w w' :
  run rnd page events w = Some w' ->
  timers_ok w /\ loading_ok w -> timers_ok w' /\ loading_ok w'.
Proof.
  revert w. induction events as [|event events IH]; intros w; simpl.
  - now intros [= <-].
  - destruct (step rnd page event w) as [w1|] eqn:E; [|discriminate].
    intros Hrun Hinv. eapply IH; [exact Hrun|].
    eapply step_invariants; eauto.
Qed.

Lemma init_invariants page path query :
  timers_ok (init page path query) /\ loading_ok (init page path query).
Proof.
  unfold init, showLoading, emit, timers_ok, loading_ok.
  destruct (negb (libraryContainer page)); world_fields; auto.
Qed.

(** A world that the page can be in: reached from [init] by some sequence
    of events. *)
Definition reachable (rnd : Random) (page : Page) (w : World) : Prop :=
  exists path query events, run rnd page events (init page path query) = Some w.

Lemma reachable_invariants rnd page w :
  reachable rnd page w -> timers_ok w /\ loading_ok w.
Proof.
  intros (path & query & events & H).
  eapply run_invariants; [exact H|apply init_invariants].
Qed.

(** ** Input before the data has arrived *)

(** The effects of a run of [filterTutorials] over the empty collection. *)
Definition empty_run (path : string) (st : FilterState) : list Effect :=
  [ Filtered st []; ClearContainer; ShowEmptyState;
    SetResultsCount "Showing all 0 tutorials";
    ReplaceState (newURL path st); SetClearButton (display_of st) ].

Lemma filterTutorials_trace rnd page w :
  trace (filterTutorials rnd page w)
  = trace w
    ++ at_time (clock w)
         (run_effects page (pathname w) (controls w)
            (fst (apply rnd (allTutorials w) (controls w) (random_calls w)))
            (List.length (allTutorials w))).
Proof. rewrite filterTutorials_eq. reflexivity. Qed.

Lemma filterTutorials_empty_trace rnd w :
  allTutorials w = [] ->
  trace (filterTutorials rnd full_page w)
  = trace w ++ at_time (clock w) (empty_run (pathname w) (controls w)).
Proof.
  intros H. rewrite filterTutorials_trace, H. reflexivity.
Qed.

Lemma filterTutorials_phase rnd page w :
  phase (filterTutorials rnd page w) = phase w.
Proof. apply (filterTutorials_fields rnd page w). Qed.

(** C9 (as amended). The listeners are installed before the load starts,
    so an input event that arrives while the data is still loading is
    handled like any other, over the collection that is still empty: a
    change of a drop-down and a click on the clear button run
    [filterTutorials] at once, which shows the empty state, sets the count
    text and replaces the URL; a search input arms the timeout, and when
    it fires with the data still loading the same run happens. *)
Theorem input_before_load_is_handled :
  forall (rnd : Random) (w : World) (t : Z),
    reachable rnd full_page w -> phase w = Loading -> (clock w <= t)%Z ->
    (forall value, exists w',
        step rnd full_page (t, YearChange value) w = Some w'
        /\ phase w' = Loading
        /\ trace w' = trace w
             ++ at_time t (empty_run (pathname w) (with_year value (controls w))))
    /\ (forall value, exists w',
          step rnd full_page (t, TopicChange value) w = Some w'
          /\ phase w' = Loading
          /\ trace w' = trace w
               ++ at_time t (empty_run (pathname w) (with_topic value (controls w))))
    /\ (exists w',
          step rnd full_page (t, ClearClick) w = Some w'
          /\ phase w' = Loading
          /\ trace w' = trace w ++ at_time t (empty_run (pathname w) no_filters))
    /\ (forall text, exists w1,
          step rnd full_page (t, SearchInput text) w = Some w1
          /\ phase w1 = Loading
          /\ trace w1 = trace w
          /\ timers w1 = [(next_timer w, (t + 300)%Z)]
          /\ forall t', (t + 300 <= t')%Z -> exists w2,
               step rnd full_page (t', TimerFires (next_timer w)) w1 = Some w2
               /\ phase w2 = Loading
               /\ trace w2 = trace w
                    ++ at_time t' (empty_run (pathname w)
                                     (with_search text (controls w)))).
Proof.
  intros rnd w t Hreach Hphase Ht.
  destruct (reachable_invariants _ _ _ Hreach) as [Htimers Hload].
  specialize (Hload Hphase).
  assert (Hclock : (t <? clock w)%Z = false) by (apply Z.ltb_ge; exact Ht).
  destruct w as [all stored st path query debounce pending next calls0 now ph tr].
  unfold timers_ok in Htimers. cbn in Hphase, Hload, Hclock, Htimers. subst all ph.
  unfold step. world_fields. rewrite Hclock.
  unfold clearFilters, set_clock, set_controls. world_fields.
  repeat split.
  - intros value. eexists. split; [reflexivity|].
    rewrite filterTutorials_phase, filterTutorials_empty_trace by reflexivity.
    split; reflexivity.
  - intros value. eexists. split; [reflexivity|].
    rewrite filterTutorials_phase, filterTutorials_empty_trace by reflexivity.
    split; reflexivity.
  - eexists. split; [reflexivity|].
    rewrite filterTutorials_phase, filterTutorials_empty_trace by reflexivity.
    split; reflexivity.
  - intros text. eexists. split; [reflexivity|].
    unfold handleSearch, setTimeout_debounce, clearTimeout, set_timers.
    assert (Hpending :
              match debounce with
              | Some i => filter (fun p : nat * Z => negb (fst p =? i)) pending
              | None => pending
              end = []).
    { destruct debounce as [i|], pending as [|[id due] [|]];
        simpl in *; try tauto; try discriminate.
      injection Htimers as ->. now rewrite Nat.eqb_refl. }
    destruct debounce as [i|]; world_fields; rewrite Hpending;
      (split; [reflexivity|]); (split; [reflexivity|]);
      (split; [reflexivity|]);
      intros t' Ht';
      (assert (Hc : (t' <? t)%Z = false) by (apply Z.ltb_ge; lia));
      (assert (Hd : (t + 300 <=? t')%Z = true) by (apply Z.leb_le; lia));
      unfold step, set_clock, set_timers; world_fields;
      cbn [app due_time fst]; rewrite Hc, Nat.eqb_refl, Hd;
      eexists; (split; [reflexivity|]);
      rewrite filterTutorials_phase, filterTutorials_empty_trace by reflexivity;
      split; reflexivity.
Qed.

Definition materials_page : World := init full_page "/materials.html" "".

Lemma materials_page_reachable rnd : reachable rnd full_page materials_page.
Proof. exists "/materials.html", "", []. reflexivity. Qed.

(** A click on the clear button on the page just initialised. *)
Lemma input_before_load_is_handled_witness :
  exists w',
    step (fun _ => first_draw) full_page (0%Z, ClearClick) materials_page = Some w'
    /\ phase w' = Loading
    /\ trace w' = trace materials_page
         ++ at_time 0 (empty_run (pathname materials_page) no_filters).
Proof.
  apply (input_before_load_is_handled (fun _ => first_draw) materials_page 0).
  - exact (materials_page_reachable (fun _ => first_draw)).
  - reflexivity.
  - vm_compute. discriminate.
Defined.

(** What the specification states about the events [events] that arrive
    on a freshly initialised page: as long as the data is loading,
    nothing has happened since [init]. *)
Definition stated_no_effect (rnd : Random) (events : list (Z * Action)) : Prop :=
  forall w',
    run rnd full_page events materials_page = Some w' ->
    phase w' = Loading ->
    effects_since materials_page w' = [].

(** C9, counterexample.  The user types "a" right after [init]; 300 ms
    later the timeout fires while the data is still loading:
    [filterTutorials] runs, the empty state replaces the loading state and
    the URL becomes [/materials.html?search=a]. *)
Lemma search_before_load_runs_the_filter :
  ~ stated_no_effect (fun _ => first_draw)
      [(0%Z, SearchInput "a"); (300%Z, TimerFires 0)].
Proof.
  intros H.
  specialize (H _ eq_refl eq_refl). vm_compute in H. discriminate H.
Qed.

Example search_before_load_effects :
  option_map (effects_since materials_page)
    (run (fun _ => first_draw) full_page
         [(0%Z, SearchInput "a"); (300%Z, TimerFires 0)] materials_page)
  = Some [ Filtered (with_search "a" no_filters) []; ClearContainer;
           ShowEmptyState; SetResultsCount "Showing all 0 tutorials";
           ReplaceState "/materials.html?search=a";
           SetClearButton "inline-block" ].
Proof. reflexivity. Qed.

(** ** The debounce of the search input *)

Definition is_debounce_action (a : Action) : bool :=
  match a with
  | SearchInput _ | TimerFires _ => true
  | _ => false
  end.

(** The search inputs among the events, with their times. *)
Fixpoint search_inputs (events : list (Z * Action)) : list (Z * string) :=
  match events with
  | [] => []
  | (t, SearchInput text) :: events' => (t, text) :: search_inputs events'
  | _ :: events' => search_inputs events'
  end.

(** Every input arrives less than 300 ms after the one before it, the
    first of them after [previous]. *)
Fixpoint within_window (previous : Z) (inputs : list (Z * string)) : Prop :=
  match inputs with
  | [] => True
  | (t, _) :: inputs' => (t - previous < 300)%Z /\ within_window t inputs'
  end.

(** The effects of the run of [filterTutorials] that follows a burst
    begun in the world [w], once the search box holds [text]. *)
Definition debounced_run (rnd : Random) (page : Page) (w : World) (text : string)
    : list Effect :=
  let st := with_search text (controls w) in
  run_effects page (pathname w) st
              (fst (apply rnd (allTutorials w) st (random_calls w)))
              (List.length (allTutorials w)).

Definition is_run (e : Effect) : bool :=
  match e with Filtered _ _ => true | _ => false end.

Lemma run_effects_one_run page path st result total :
  filter is_run (run_effects page path st result total) = [Filtered st result].
Proof.
  unfold run_effects, render_effects.
  destruct page as [[] [] [] ?], result; reflexivity.
Qed.

Lemma last_cons {A : Type} (a d : A) l : last (a :: l) d = last l a.
Proof.
  revert a d. induction l as [|b l IH]; intros a d; [reflexivity|].
  change (last (a :: b :: l) d) with (last (b :: l) d).
  now rewrite (IH b d), (IH b a).
Qed.

Lemma with_search_idem text text' st :
  with_search text (with_search text' st) = with_search text st.
Proof. reflexivity. Qed.

Lemma with_search_same st : with_search (searchText st) st = st.
Proof. now destruct st. Qed.

(** With no timeout pending, nothing more can happen when every further
    search input would lie in the past. *)
Lemma idle_run rnd page events w w' :
  timers w = [] ->
  Forall (fun e => is_debounce_action (snd e) = true) events ->
  (forall t text rest, search_inputs events = (t, text) :: rest -> (t < clock w)%Z) ->
  run rnd page events w = Some w' ->
  events = [] /\ w' = w.
Proof.
  intros Htimers Hall Hpast Hrun.
  destruct events as [|[t action] events]; simpl in Hrun.
  - injection Hrun as <-. auto.
  - exfalso. inversion Hall as [|? ? Ha _]; subst. simpl in Ha.
    destruct action; try discriminate; simpl in Hrun.
    + specialize (Hpast t text _ eq_refl). apply Z.ltb_lt in Hpast.
      now rewrite Hpast in Hrun.
    + rewrite Htimers in Hrun.
      destruct (t <? clock w)%Z; discriminate.
Qed.

(** With the timeout of the debounce pending: the inputs that still
    arrive within the window replace it, and the run happens once, after
    the last of them. *)
Lemma armed_run rnd page events :
  forall w w' id due,
    timers w = [(id, due)] ->
    searchDebounce w = Some id ->
    Forall (fun e => is_debounce_action (snd e) = true) events ->
    within_window (due - 300) (search_inputs events) ->
    run rnd page events w = Some w' ->
    timers w' = [] ->
    let final := last (search_inputs events)
                      ((due - 300)%Z, searchText (controls w)) in
    exists t_run,
      (fst final + 300 <= t_run)%Z
      /\ trace w' = trace w ++ at_time t_run (debounced_run rnd page w (snd final)).
Proof.
  induction events as [|[t action] events IH];
    intros w w' id due Htimers Hdeb Hall Hwin Hrun Hdone final.
  - simpl in Hrun. injection Hrun as <-. congruence.
  - inversion Hall as [|? ? Ha Hall']; subst. simpl in Ha.
    destruct action as [text| | | |i| |]; try discriminate; clear Ha.
    + (* another input within the window *)
      simpl in Hwin. destruct Hwin as [Ht Hwin].
      simpl in Hrun.
      destruct (t <? clock w)%Z; [discriminate|].
      destruct w as [all stored st path query debounce pending next calls0
                       now ph tr].
      cbn in Htimers, Hdeb. subst pending debounce.
      unfold handleSearch, setTimeout_debounce, clearTimeout, set_timers,
        set_controls, set_clock in Hrun.
      cbn [allTutorials filteredTutorials controls pathname location_search
           searchDebounce timers next_timer random_calls clock phase trace
           filter fst negb app] in Hrun.
      rewrite Nat.eqb_refl in Hrun.
      cbn [negb app] in Hrun.
      eapply IH in Hrun; [|reflexivity|reflexivity|exact Hall'| |exact Hdone].
      * destruct Hrun as (t_run & Hge & Htrace).
        revert Hge Htrace. world_fields. cbn [searchText with_search].
        replace (t + 300 - 300)%Z with t by lia.
        intros Hge Htrace.
        exists t_run. subst final. cbn [search_inputs].
        rewrite last_cons. split; [exact Hge|]. exact Htrace.
      * world_fields. now replace (t + 300 - 300)%Z with t by lia.
    + (* the timeout fires *)
      simpl in Hwin, Hrun.
      destruct (t <? clock w)%Z eqn:Hclock; [discriminate|].
      rewrite Htimers in Hrun. cbn [due_time set_clock timers] in Hrun.
      destruct (Nat.eqb_spec id i) as [->|]; [|discriminate].
      destruct (Z.leb_spec due t) as [Hdue|]; [|discriminate].
      match type of Hrun with
      | run _ _ _ (filterTutorials _ _ ?v) = _ => set (fired := v) in *
      end.
      destruct (idle_run rnd page events (filterTutorials rnd page fired) w')
        as [-> ->]; auto.
      * destruct (filterTutorials_fields rnd page fired) as (_ & _ & -> & _).
        subst fired. unfold set_timers, set_clock. world_fields.
        cbn [filter fst]. now rewrite Nat.eqb_refl.
      * intros t' text rest Hin. rewrite Hin in Hwin. destruct Hwin as [Hw _].
        destruct (filterTutorials_fields rnd page fired)
          as (_ & _ & _ & _ & _ & -> & _).
        subst fired. unfold set_timers, set_clock. world_fields. lia.
      * exists t. subst final. cbn [search_inputs last fst snd].
        split; [lia|].
        rewrite filterTutorials_trace. subst fired.
        unfold set_timers, set_clock, debounced_run. world_fields.
        now rewrite with_search_same.
Qed.

(** The events of a burst: its search inputs, in their order. *)
Definition input_events (inputs : list (Z * string)) : list (Z * Action) :=
  map (fun p => (fst p, SearchInput (snd p))) inputs.

(** The inputs arrive in the order of their times, none before
    [previous]. *)
Fixpoint ascending (previous : Z) (inputs : list (Z * string)) : Prop :=
  match inputs with
  | [] => True
  | (t, _) :: inputs' => (previous <= t)%Z /\ ascending t inputs'
  end.

Lemma ascending_last previous text inputs :
  ascending previous inputs ->
  (previous <= fst (last inputs (previous, text)))%Z.
Proof.
  revert previous text. induction inputs as [|[t x] inputs IH];
    intros previous text H; [simpl; lia|].
  destruct H as [Ht H]. rewrite last_cons.
  specialize (IH t x H). lia.
Qed.

Lemma last_default_time (inputs : list (Z * string)) t x y :
  fst (last inputs (t, x)) = fst (last inputs (t, y)).
Proof.
  destruct inputs as [|p inputs]; [reflexivity|].
  now rewrite !last_cons.
Qed.

(** With the timeout of the debounce pending, a burst can always be
    completed: the inputs are taken one after the other, and the timeout
    set by the last of them fires at any time from its due time on. *)
Lemma armed_burst_completes rnd page inputs :
  forall w id due t_run,
    timers w = [(id, due)] ->
    searchDebounce w = Some id ->
    ascending (clock w) inputs ->
    (clock w <= t_run)%Z ->
    (fst (last inputs ((due - 300)%Z, "")) + 300 <= t_run)%Z ->
    exists id' w',
      run rnd page (input_events inputs ++ [(t_run, TimerFires id')]) w = Some w'
      /\ timers w' = [].
Proof.
  induction inputs as [|[t x] inputs IH];
    intros w id due t_run Htimers Hdeb Hasc Hclock Hrun.
  - exists id. cbn [input_events map app run step].
    apply Z.ltb_ge in Hclock. rewrite Hclock.
    unfold set_clock. world_fields. rewrite Htimers.
    cbn [due_time]. rewrite Nat.eqb_refl.
    cbn [last fst] in Hrun.
    assert (Hdue : (due <=? t_run)%Z = true) by (apply Z.leb_le; lia).
    rewrite Hdue. eexists. split; [reflexivity|].
    match goal with
    | |- context [filterTutorials ?r ?p ?v] =>
        destruct (filterTutorials_fields r p v) as (_ & _ & -> & _)
    end.
    unfold set_timers. world_fields.
    cbn [filter fst]. now rewrite Nat.eqb_refl.
  - destruct Hasc as [Ht Hasc].
    rewrite last_cons in Hrun.
    pose proof (ascending_last t x inputs Hasc) as Hlast.
    destruct w as [all stored st path query debounce pending next calls0
                     now ph tr].
    cbn in Htimers, Hdeb, Ht, Hclock. subst pending debounce.
    cbn [input_events map app run step fst snd].
    fold (input_events inputs).
    world_fields. apply Z.ltb_ge in Ht. rewrite Ht.
    unfold handleSearch, setTimeout_debounce, clearTimeout, set_timers,
      set_controls, set_clock.
    cbn [allTutorials filteredTutorials controls pathname location_search
         searchDebounce timers next_timer random_calls clock phase trace
         filter fst negb app].
    rewrite Nat.eqb_refl. cbn [negb app].
    apply (IH _ next (t + 300)%Z t_run); world_fields; auto.
    + lia.
    + replace (t + 300 - 300)%Z with t by lia.
      rewrite (last_default_time inputs t "" x). exact Hrun.
Qed.

(** C7. A burst of search inputs that begins with no timeout pending, and
    in which every input arrives less than 300 ms after the one before
    it.  The burst can be completed: after its inputs the pending timeout
    fires at any time from 300 ms after the last input on.  And whatever
    the order in which the inputs and the firing of timeouts are
    interleaved, once no timeout is pending any more [filterTutorials] has
    run exactly once, no earlier than 300 ms after the last input, with
    the text of the last input in the search box.  For the inputs "a" at
    0 ms, "ab" at 100 ms and "abc" at 150 ms this is one run with "abc",
    no earlier than 450 ms. *)
Theorem debounce_single_run :
  forall (rnd : Random) (page : Page) (w : World) (first : Z * string)
         (rest : list (Z * string)),
    timers w = [] ->
    within_window (fst first) rest ->
    let final := last rest first in
    let st := with_search (snd final) (controls w) in
    let result := fst (apply rnd (allTutorials w) st (random_calls w)) in
    (ascending (clock w) (first :: rest) ->
     forall t_run, (fst final + 300 <= t_run)%Z ->
       exists id w',
         run rnd page (input_events (first :: rest) ++ [(t_run, TimerFires id)]) w
         = Some w'
         /\ timers w' = [])
    /\ (forall (events : list (Z * Action)) (w' : World),
          Forall (fun e => is_debounce_action (snd e) = true) events ->
          search_inputs events = first :: rest ->
          run rnd page events w = Some w' ->
          timers w' = [] ->
          exists t_run,
            (fst final + 300 <= t_run)%Z
            /\ trace w' = trace w
                 ++ at_time t_run (debounced_run rnd page w (snd final))
            /\ filter is_run (effects_since w w') = [Filtered st result]).
Proof.
  intros rnd page w first rest Htimers Hwin final st result. split.
  { (* the burst completes *)
    intros Hasc t_run Hrun. destruct first as [t x].
    destruct Hasc as [Ht Hasc].
    pose proof (ascending_last t x rest Hasc) as Hlast.
    destruct w as [all stored st0 path query debounce pending next calls0
                     now ph tr].
    cbn in Htimers, Ht. subst pending.
    cbn [input_events map app run step fst snd]. fold (input_events rest).
    world_fields. apply Z.ltb_ge in Ht. rewrite Ht.
    unfold handleSearch, setTimeout_debounce, clearTimeout, set_timers,
      set_controls, set_clock.
    assert (Harmed :
              exists id w',
                run rnd page (input_events rest ++ [(t_run, TimerFires id)])
                    (Build_World all stored (with_search x st0) path query
                       (Some next) [(next, (t + 300)%Z)] (S next) calls0 t ph tr)
                = Some w' /\ timers w' = []).
    { apply (armed_burst_completes rnd page rest _ next (t + 300)%Z t_run);
        world_fields; auto.
      - subst final. cbn [fst] in *. lia.
      - replace (t + 300 - 300)%Z with t by lia.
        rewrite (last_default_time rest t "" x). exact Hrun. }
    destruct debounce; exact Harmed. }
  intros events w' Hall Hinputs Hrun Hdone.
  assert (Hkey : exists t_run,
             (fst final + 300 <= t_run)%Z
             /\ trace w' = trace w
                  ++ at_time t_run (debounced_run rnd page w (snd final))).
  { destruct events as [|[t action] events]; [discriminate|].
    inversion Hall as [|? ? Ha Hall']; subst. simpl in Ha.
    destruct action as [text| | | |i| |]; try discriminate; clear Ha.
    - simpl in Hinputs. injection Hinputs as <- <-.
      cbn [run step] in Hrun. destruct (t <? clock w)%Z; [discriminate|].
      destruct w as [all stored st0 path query debounce pending next calls0
                       now ph tr].
      cbn in Htimers. subst pending.
      unfold handleSearch, setTimeout_debounce, clearTimeout, set_timers,
        set_controls, set_clock in Hrun.
      assert (Harmed :
                run rnd page events
                    (Build_World all stored (with_search text st0) path query
                       (Some next) [(next, (t + 300)%Z)] (S next) calls0 t ph tr)
                = Some w').
      { destruct debounce; exact Hrun. }
      clear Hrun.
      eapply (armed_run rnd page events _ w' next (t + 300)%Z) in Harmed;
        [|reflexivity|reflexivity|exact Hall'| |exact Hdone].
      + destruct Harmed as (t_run & Hge & Htrace).
        revert Hge Htrace. unfold debounced_run. world_fields.
        cbn [searchText with_search].
        replace (t + 300 - 300)%Z with t by lia.
        intros Hge Htrace. exists t_run. split; [exact Hge|exact Htrace].
      + cbn [fst] in Hwin. now replace (t + 300 - 300)%Z with t by lia.
    - exfalso. simpl in Hrun. rewrite Htimers in Hrun.
      destruct (t <? clock w)%Z; discriminate. }
  destruct Hkey as (t_run & Hge & Htrace).
  exists t_run. split; [exact Hge|]. split; [exact Htrace|].
  rewrite (effects_since_app _ _ _ _ Htrace).
  apply run_effects_one_run.
Qed.

(** The three inputs of the example, and the timeout (the third one set,
    hence of id 2) firing at 450 ms. *)
Definition burst_events : list (Z * Action) :=
  [ (0%Z, SearchInput "a"); (100%Z, SearchInput "ab");
    (150%Z, SearchInput "abc"); (450%Z, TimerFires 2) ].

Definition after_burst : World :=
  match run (fun _ => first_draw) full_page burst_events materials_page with
  | Some w => w
  | None => materials_page
  end.

(** The example of the specification: inputs at 0, 100 and 150 ms, the
    timeout firing at 450 ms. *)
Lemma debounce_single_run_witness :
  exists t_run,
    (150 + 300 <= t_run)%Z
    /\ trace after_burst
       = trace materials_page
         ++ at_time t_run
              (debounced_run (fun _ => first_draw) full_page materials_page "abc")
    /\ filter is_run (effects_since materials_page after_burst)
       = [Filtered (with_search "abc" no_filters) []].
Proof.
  refine (proj2 (debounce_single_run (fun _ => first_draw) full_page
                   materials_page (0%Z, "a") [(100%Z, "ab"); (150%Z, "abc")]
                   _ _)
                burst_events after_burst _ _ _ _).
  - reflexivity.
  - simpl. lia.
  - repeat constructor.
  - reflexivity.
  - vm_compute. reflexivity.
  - vm_compute. reflexivity.
Defined.

(** The timeout of the example cannot fire before 450 ms. *)
Example timeout_not_before_450 :
  run (fun _ => first_draw) full_page
      [ (0%Z, SearchInput "a"); (100%Z, SearchInput "ab");
        (150%Z, SearchInput "abc"); (449%Z, TimerFires 2) ] materials_page
  = None.
Proof. vm_compute. reflexivity. Qed.

(** ** The scenario of the specification *)

Definition deep_learning_basics : Tutorial :=
  {| title := "Deep Learning Basics"; authors := []; year := 2023;
     status := Some winner; keywords := ["ml"];
     thumbnail := None; url := None |}.

Definition compilers : Tutorial :=
  {| title := "Compilers"; authors := []; year := 2022;
     status := Some finalist; keywords := ["pl"];
     thumbnail := None; url := None |}.

Definition scenario : list Tutorial :=
  [deep_learning_basics; graphs_101; compilers].

Example scenario_unfiltered rnd calls :
  year_sections (fst (apply rnd scenario no_filters calls))
  = [(2023%Z, [deep_learning_basics; graphs_101]); (2022%Z, [compilers])].
Proof. reflexivity. Qed.

Example scenario_year_2022 rnd calls :
  year_sections (fst (apply rnd scenario (with_year "2022" no_filters) calls))
  = [(2022%Z, [compilers])].
Proof. reflexivity. Qed.

Example scenario_search_graph rnd calls :
  year_sections (fst (apply rnd scenario (with_search "graph" no_filters) calls))
  = [(2023%Z, [graphs_101])].
Proof. reflexivity. Qed.

(** Years are compared as numbers: 999 comes after 2023, although its
    decimal string is the greater one. *)
Example years_sorted_as_numbers :
  sort_descending (own_keys [(999%Z, []); (2023%Z, []); ((-5)%Z, [])])
  = [2023%Z; 999%Z; (-5)%Z].
Proof. reflexivity. Qed.

(* ===================================================================== *)
(** * Further properties of the code *)
(* ===================================================================== *)

(** ** What holds in every world that the page can reach *)

Lemma reachable_induction rnd page (P : World -> Prop) :
  (forall path query, P (init page path query)) ->
  (forall event w w', P w -> step rnd page event w = Some w' -> P w') ->
  forall w, reachable rnd page w -> P w.
Proof.
  intros Hinit Hstep w (path & query & events & Hrun).
  assert (H : forall events v, P v -> run rnd page events v = Some w -> P w).
  { clear -Hstep. induction events as [|event events IH]; intros v Hv; simpl.
    - now intros [= <-].
    - destruct (step rnd page event v) as [v'|] eqn:E; [|discriminate].
      apply IH. eapply Hstep; eauto. }
  eapply H; [apply Hinit|exact Hrun].
Qed.

Ltac past_filter :=
  match goal with
  | |- context [filterTutorials ?rnd ?page ?v] =>
      let H := fresh "H" in
      pose proof (filterTutorials_fields rnd page v) as H; cbv zeta in H;
      let H1 := fresh in let H2 := fresh in let H3 := fresh in
      let H4 := fresh in let H5 := fresh in let H6 := fresh in
      let H7 := fresh in let H8 := fresh in
      destruct H as (H1 & H2 & H3 & H4 & H5 & H6 & H7 & H8);
      rewrite ?H1, ?H2, ?H3, ?H4, ?H5, ?H6, ?H7, ?H8;
      clear H1 H2 H3 H4 H5 H6 H7 H8; world_fields
  end.

(** The pending timeout, if there is one, is the one that [searchDebounce]
    names, and it is due within the delay of the debounce. *)
Definition debounce_pending (w : World) : Prop :=
  match timers w with
  | [] => True
  | [(id, due)] => searchDebounce w = Some id /\ (due <= clock w + 300)%Z
  | _ :: _ :: _ => False
  end.

Lemma step_debounce_pending rnd page event w w' :
  debounce_pending w -> step rnd page event w = Some w' -> debounce_pending w'.
Proof.
  destruct event as [t action]. unfold step.
  destruct (t <? clock w)%Z eqn:Hclock; [discriminate|].
  apply Z.ltb_ge in Hclock.
  destruct w as [all stored st path query debounce pending next calls0 now ph tr].
  unfold debounce_pending. world_fields. cbn [clock] in Hclock.
  destruct action as [text|value|value| |id|data|message];
    unfold clearFilters, set_clock, set_controls; world_fields.
  - intros Ht [= <-].
    unfold handleSearch, setTimeout_debounce, clearTimeout, set_timers.
    world_fields.
    destruct debounce as [i|]; world_fields.
    + destruct pending as [|[id due] [|]]; simpl in *; try tauto.
      * split; [reflexivity|lia].
      * destruct Ht as [[= ->] _]. rewrite Nat.eqb_refl. simpl.
        split; [reflexivity|lia].
    + destruct pending as [|[id due] [|]]; simpl in *; try tauto.
      * split; [reflexivity|lia].
      * destruct Ht as [Ht _]. discriminate.
  - intros H [= <-]. past_filter.
    destruct pending as [|[id due] [|]]; simpl in *; try tauto.
    split; [tauto|lia].
  - intros H [= <-]. past_filter.
    destruct pending as [|[id due] [|]]; simpl in *; try tauto.
    split; [tauto|lia].
  - destruct (clearButton page); [|discriminate]. intros H [= <-].
    past_filter.
    destruct pending as [|[id due] [|]]; simpl in *; try tauto.
    split; [tauto|lia].
  - destruct (due_time id pending) as [due|] eqn:Ed; [|discriminate].
    destruct (due <=? t)%Z; [|discriminate].
    unfold set_timers. world_fields. intros Ht [= <-].
    past_filter.
    destruct pending as [|[i d] [|]]; simpl in *; try tauto.
    destruct (Nat.eqb_spec i id); [simpl; exact I|discriminate].
  - destruct ph; try discriminate. intros Ht [= <-].
    unfold load_succeeds, initializeFromURL, populateFilters, set_controls.
    destruct (selects page); world_fields; past_filter;
      (destruct pending as [|[id due] [|]]; simpl in *; try tauto;
       split; [tauto|lia]).
  - destruct ph; try discriminate. intros Ht [= <-].
    unfold load_fails, showError, emit. world_fields.
    destruct (negb (libraryContainer page)); world_fields;
      (destruct pending as [|[id due] [|]]; simpl in *; try tauto;
       split; [tauto|lia]).
Qed.

(** X1. At any moment at most one timeout is pending; it is the one whose
    id [searchDebounce] holds, and it becomes due no later than 300 ms
    from now. *)
Theorem at_most_one_timeout_pending :
  forall (rnd : Random) (page : Page) (w : World),
    reachable rnd page w ->
    timers w = []
    \/ exists id due,
         timers w = [(id, due)] /\ searchDebounce w = Some id
         /\ (due <= clock w + 300)%Z.
Proof.
  intros rnd page w Hreach.
  assert (H : debounce_pending w).
  { revert w Hreach. apply reachable_induction.
    - intros path query. unfold init, showLoading, emit, debounce_pending.
      destruct (negb (libraryContainer page)); world_fields; exact I.
    - intros event w w'. apply step_debounce_pending. }
  unfold debounce_pending in H.
  destruct (timers w) as [|[id due] [|]]; [now left| |contradiction].
  right. exists id, due. tauto.
Qed.

(** The page just after the user has typed one letter. *)
Definition typing_page : World :=
  match run (fun _ => first_draw) full_page [(10%Z, SearchInput "g")]
            materials_page with
  | Some w => w
  | None => materials_page
  end.

Lemma at_most_one_timeout_pending_witness :
  timers typing_page = []
  \/ exists id due,
       timers typing_page = [(id, due)] /\ searchDebounce typing_page = Some id
       /\ (due <= clock typing_page + 300)%Z.
Proof.
  apply (at_most_one_timeout_pending (fun _ => first_draw) full_page typing_page).
  exists "/materials.html", "", [(10%Z, SearchInput "g")].
  vm_compute. reflexivity.
Defined.

(** ** The URL and the stored result follow the controls *)

(** The URL shows the values of the controls, and [filteredTutorials]
    holds the tutorials that match them. *)
Definition in_sync (w : World) : Prop :=
  location_search w = search_of (controls w)
  /\ Permutation (filteredTutorials w) (filtered (allTutorials w) (controls w)).

Lemma filterTutorials_in_sync rnd page w : in_sync (filterTutorials rnd page w).
Proof.
  unfold in_sync. rewrite filterTutorials_eq. world_fields.
  split; [reflexivity|]. apply shuffle_permutation.
Qed.

Definition sync_or_pending (w : World) : Prop :=
  phase w = Ready -> in_sync w \/ timers w <> [].

Lemma step_sync_or_pending rnd page event w w' :
  step rnd page event w = Some w' -> sync_or_pending w'.
Proof.
  destruct event as [t action]. unfold step, sync_or_pending.
  destruct (t <? clock w)%Z; [discriminate|].
  destruct action as [text|value|value| |id|data|message].
  - intros [= <-] _. right.
    unfold handleSearch, setTimeout_debounce, set_timers. world_fields.
    intros H. now apply app_eq_nil in H as [_ H].
  - intros [= <-] _. left. apply filterTutorials_in_sync.
  - intros [= <-] _. left. apply filterTutorials_in_sync.
  - destruct (clearButton page); [|discriminate].
    intros [= <-] _. left. apply filterTutorials_in_sync.
  - destruct (due_time id (timers (set_clock t w))); [|discriminate].
    destruct (_ <=? t)%Z; [|discriminate].
    intros [= <-] _. left. apply filterTutorials_in_sync.
  - destruct (phase (set_clock t w)); try discriminate.
    intros [= <-] _. left. apply filterTutorials_in_sync.
  - destruct (phase (set_clock t w)); try discriminate.
    intros [= <-]. unfold load_fails, showError, emit.
    destruct (negb (libraryContainer page)); world_fields; discriminate.
Qed.

(** X2. Once the data has arrived and no debounce is pending, the URL and
    the stored result agree with the controls: [location.search] is the
    query of the three control values, and [filteredTutorials] is a
    rearrangement of the tutorials that match them. *)
Theorem idle_page_is_in_sync :
  forall (rnd : Random) (page : Page) (w : World),
    reachable rnd page w -> phase w = Ready -> timers w = [] ->
    location_search w = search_of (controls w)
    /\ Permutation (filteredTutorials w)
                   (filtered (allTutorials w) (controls w)).
Proof.
  intros rnd page w Hreach Hphase Htimers.
  assert (H : sync_or_pending w).
  { revert w Hreach Hphase Htimers. intros w Hreach _ _. revert w Hreach.
    apply reachable_induction.
    - intros path query. unfold init, showLoading, emit, sync_or_pending.
      destruct (negb (libraryContainer page)); world_fields; discriminate.
    - intros event w w' _. apply step_sync_or_pending. }
  destruct (H Hphase) as [Hsync|Hpending]; [exact Hsync|contradiction].
Qed.

(** The page of the scenario once its data has arrived. *)
Definition loaded_page : World :=
  match run (fun _ => first_draw) full_page [(0%Z, LoadSucceeds scenario)]
            materials_page with
  | Some w => w
  | None => materials_page
  end.

Lemma loaded_page_reachable : reachable (fun _ => first_draw) full_page loaded_page.
Proof.
  exists "/materials.html", "", [(0%Z, LoadSucceeds scenario)].
  vm_compute. reflexivity.
Qed.

Lemma idle_page_is_in_sync_witness :
  location_search loaded_page = search_of (controls loaded_page)
  /\ Permutation (filteredTutorials loaded_page)
                 (filtered (allTutorials loaded_page) (controls loaded_page)).
Proof.
  apply (idle_page_is_in_sync (fun _ => first_draw) full_page loaded_page).
  - exact loaded_page_reachable.
  - reflexivity.
  - reflexivity.
Defined.

(** ** The clear button *)

Lemma append_empty_r (s : string) : (s ++ "")%string = s.
Proof. induction s as [|c s IH]; simpl; congruence. Qed.

Lemma append_assoc (s1 s2 s3 : string) :
  ((s1 ++ s2) ++ s3)%string = (s1 ++ s2 ++ s3)%string.
Proof. induction s1 as [|c s1 IH]; simpl; congruence. Qed.

Lemma matches_no_filters t : matches no_filters t = true.
Proof. reflexivity. Qed.

Lemma filtered_no_filters tutorials : filtered tutorials no_filters = tutorials.
Proof. unfold filtered. apply filter_all. intros t _. apply matches_no_filters. Qed.

(** X3. A click on the clear button empties the three controls and runs
    the filter at once: every tutorial is in the result, the count text is
    "Showing all T tutorials", the URL is the bare path without a query,
    and the clear button is hidden. *)
Theorem clear_filters_shows_everything :
  forall (rnd : Random) (w : World),
    let w' := clearFilters rnd full_page w in
    controls w' = no_filters
    /\ location_search w' = ""
    /\ Permutation (filteredTutorials w') (allTutorials w)
    /\ effects_since w w' =
       [ Filtered no_filters (filteredTutorials w');
         ClearContainer;
         match filteredTutorials w' with
         | [] => ShowEmptyState
         | _ :: _ => RenderSections (year_sections (filteredTutorials w'))
         end;
         SetResultsCount
           ("Showing all " ++ show_nat (List.length (allTutorials w))
            ++ " tutorials")%string;
         ReplaceState (pathname w);
         SetClearButton "none" ].
Proof.
  intros rnd w w'. subst w'. unfold clearFilters.
  rewrite filterTutorials_eq.
  destruct w as [all stored st path query debounce pending next calls0 now ph tr].
  unfold set_controls. world_fields. cbv zeta.
  assert (Hp : Permutation (fst (apply rnd all no_filters calls0)) all).
  { unfold apply. rewrite filtered_no_filters. apply shuffle_permutation. }
  split; [reflexivity|]. split; [reflexivity|]. split; [exact Hp|].
  unfold effects_since. world_fields.
  rewrite skipn_app, skipn_all, Nat.sub_diag. cbn [skipn app].
  unfold at_time. rewrite map_map, map_id.
  unfold run_effects, render_effects, full_page, count_text.
  cbn [libraryContainer resultsCount clearButton].
  rewrite (Permutation_length Hp), Nat.eqb_refl.
  destruct (fst (apply rnd all no_filters calls0)); reflexivity.
Qed.

Lemma params_set_not_nil name value params : params_set name value params <> [].
Proof. destruct params as [|[n v] params]; simpl; [discriminate|]. now destruct (n =? name)%string. Qed.

Lemma hasFilters_query st : hasFilters st = truthy (toQuery st).
Proof.
  unfold hasFilters, toQuery.
  destruct (truthy (params_toString (url_params st))) eqn:E.
  - destruct (truthy (searchText st)) eqn:E1, (truthy (yearFilter st)) eqn:E2,
      (truthy (topicFilter st)) eqn:E3; try reflexivity.
    unfold url_params in E. rewrite E1, E2, E3 in E. discriminate E.
  - assert (H : url_params st = []).
    { apply toString_empty. now destruct (params_toString (url_params st)). }
    unfold url_params in H.
    destruct (truthy (searchText st)), (truthy (yearFilter st)),
      (truthy (topicFilter st)); try reflexivity;
      exfalso; revert H; apply params_set_not_nil.
Qed.

(** X4. [updateURL] and [updateClearButton] decide alike: after a run of
    [filterTutorials] the URL installed is the path followed by
    [location.search], and the clear button is shown exactly when that
    URL carries a query. *)
Theorem clear_button_shown_iff_url_has_query :
  forall (rnd : Random) (w : World),
    let w' := filterTutorials rnd full_page w in
    exists before,
      effects_since w w'
      = before
        ++ [ ReplaceState (pathname w ++ location_search w')%string;
             SetClearButton (if truthy (location_search w')
                             then "inline-block" else "none") ].
Proof.
  intros rnd w w'. subst w'.
  rewrite (effects_since_app w _ (clock w)
             (run_effects full_page (pathname w) (controls w)
                (fst (apply rnd (allTutorials w) (controls w) (random_calls w)))
                (List.length (allTutorials w))))
    by apply filterTutorials_trace.
  rewrite filterTutorials_eq. world_fields. cbv zeta.
  unfold run_effects.
  exists (Filtered (controls w)
            (fst (apply rnd (allTutorials w) (controls w) (random_calls w)))
          :: render_effects full_page
               (fst (apply rnd (allTutorials w) (controls w) (random_calls w)))
               (List.length (allTutorials w))).
  cbn [clearButton full_page app]. f_equal. f_equal.
  unfold display_of, newURL, search_of. rewrite hasFilters_query.
  destruct (truthy (toQuery (controls w))).
  - reflexivity.
  - cbn [truthy]. now rewrite append_empty_r.
Qed.

(** ** The count text *)

Lemma filter_length_all {A : Type} (p : A -> bool) l :
  List.length (filter p l) = List.length l <-> forall a, In a l -> p a = true.
Proof.
  split.
  - induction l as [|a l IH]; simpl; [tauto|].
    pose proof (filter_length_le p l) as Hle.
    destruct (p a) eqn:E; simpl; intros H.
    + intros b [<-|Hb]; [exact E|]. apply IH; [lia|exact Hb].
    + lia.
  - intros H. now rewrite filter_all.
Qed.

Lemma count_text_all shown total :
  count_text shown total
  = ("Showing all " ++ show_nat total ++ " tutorials")%string
  <-> shown = total.
Proof.
  unfold count_text. destruct (Nat.eqb_spec shown total) as [->|Hne].
  - tauto.
  - split; [|contradiction]. intros H. exfalso.
    pose proof (show_nat_digits shown) as Hd.
    pose proof (show_nat_not_empty shown) as Hn.
    destruct (show_nat shown) as [|c r]; [now apply Hn|].
    simpl in H. injection H as H _. subst c. discriminate Hd.
Qed.

(** X5. The count indicator never reports more tutorials than there are,
    and it reads "Showing all T tutorials" exactly when every tutorial
    matches the filters; otherwise it reads "Showing N of T tutorials". *)
Theorem count_reads_all_iff_every_tutorial_matches :
  forall (rnd : Random) (tutorials : list Tutorial) (st : FilterState)
         (calls : nat),
    let shown := List.length (fst (apply rnd tutorials st calls)) in
    let total := List.length tutorials in
    shown <= total
    /\ (count_text shown total
        = ("Showing all " ++ show_nat total ++ " tutorials")%string
        <-> forall t, In t tutorials -> matches st t = true)
    /\ (count_text shown total
        = ("Showing " ++ show_nat shown ++ " of " ++ show_nat total
           ++ " tutorials")%string
        <-> exists t, In t tutorials /\ matches st t = false).
Proof.
  intros rnd tutorials st calls shown total.
  assert (Hshown : shown = List.length (filter (matches st) tutorials)).
  { subst shown. apply Permutation_length. unfold apply, filtered.
    apply shuffle_permutation. }
  pose proof (filter_length_le (matches st) tutorials) as Hle.
  split; [subst total; lia|]. split.
  - rewrite count_text_all, Hshown. apply filter_length_all.
  - split.
    + intros H.
      assert (Hne : shown <> total).
      { intros Heq. unfold count_text in H. rewrite Heq, Nat.eqb_refl in H.
        pose proof (show_nat_digits total) as Hd.
        pose proof (show_nat_not_empty total) as Hn.
        destruct (show_nat total) as [|c r]; [now apply Hn|].
        simpl in H. injection H as H _. subst c. discriminate Hd. }
      rewrite Hshown in Hne. subst total.
      destruct (existsb (fun t => negb (matches st t)) tutorials) eqn:E.
      * apply existsb_exists in E as (t & Ht & Hm). exists t.
        split; [exact Ht|]. now destruct (matches st t).
      * exfalso. apply Hne, filter_length_all. intros t Ht.
        destruct (matches st t) eqn:Em; [reflexivity|].
        assert (Hex : existsb (fun t => negb (matches st t)) tutorials = true).
        { apply existsb_exists. exists t. now rewrite Em. }
        congruence.
    + intros (t & Ht & Hm). unfold count_text.
      destruct (Nat.eqb_spec shown total) as [Heq|Hne]; [|reflexivity].
      exfalso. rewrite Hshown in Heq. subst total.
      rewrite filter_length_all in Heq. specialize (Heq t Ht). congruence.
Qed.

(** ** A page without the result container *)

(** The effects that do not touch the result container or the count
    indicator. *)
Definition leaves_container (e : Effect) : bool :=
  match e with
  | Filtered _ _ | ReplaceState _ | SetClearButton _ => true
  | _ => false
  end.

Lemma forallb_at_time p t effects :
  forallb (fun e : Z * Effect => p (snd e)) (at_time t effects) = forallb p effects.
Proof. unfold at_time. induction effects as [|e effects IH]; simpl; congruence. Qed.

Lemma step_leaves_container rnd page event w w' :
  libraryContainer page = false ->
  forallb (fun e => leaves_container (snd e)) (trace w) = true ->
  step rnd page event w = Some w' ->
  forallb (fun e => leaves_container (snd e)) (trace w') = true.
Proof.
  intros Hpage Hw. destruct event as [t action]. unfold step.
  destruct (t <? clock w)%Z; [discriminate|].
  assert (Hrun : forall v, trace v = trace w ->
            forallb (fun e => leaves_container (snd e))
                    (trace (filterTutorials rnd page v)) = true).
  { intros v Hv. rewrite filterTutorials_trace, Hv, forallb_app, Hw.
    rewrite forallb_at_time. unfold run_effects, render_effects.
    rewrite Hpage. simpl. now destruct (clearButton page). }
  destruct w as [all stored st path query debounce pending next calls0 now ph tr].
  unfold set_clock, set_controls. world_fields. cbn [trace] in Hw, Hrun.
  destruct action as [text|value|value| |id|data|message].
  - intros [= <-].
    unfold handleSearch, setTimeout_debounce, clearTimeout, set_timers.
    now destruct debounce.
  - intros [= <-]. now apply Hrun.
  - intros [= <-]. now apply Hrun.
  - destruct (clearButton page) eqn:Hc; [|discriminate].
    intros [= <-]. unfold clearFilters, set_controls. now apply Hrun.
  - destruct (due_time id pending); [|discriminate].
    destruct (_ <=? t)%Z; [|discriminate].
    intros [= <-]. now apply Hrun.
  - destruct ph; try discriminate.
    intros [= <-].
    unfold load_succeeds, initializeFromURL, populateFilters, set_controls.
    apply Hrun. now destruct (selects page).
  - destruct ph; try discriminate.
    intros [= <-]. unfold load_fails, showError. rewrite Hpage. exact Hw.
Qed.

(** X6. On a page without the result container nothing is ever written to
    the page except the display of the clear button: no loading, empty or
    error state, no cards, and the count indicator is never set even when
    it is present, since [updateResultsCount] is only reached behind the
    container test of [renderTutorials].  The filter still runs and the
    URL is still replaced. *)
Theorem without_container_nothing_is_rendered :
  forall (rnd : Random) (page : Page) (w : World),
    libraryContainer page = false ->
    reachable rnd page w ->
    Forall (fun e : Z * Effect =>
              match snd e with
              | Filtered _ _ | ReplaceState _ | SetClearButton _ => True
              | _ => False
              end)
           (trace w).
Proof.
  intros rnd page w Hpage Hreach.
  assert (H : forallb (fun e => leaves_container (snd e)) (trace w) = true).
  { revert w Hreach. apply reachable_induction.
    - intros path query. unfold init, showLoading. now rewrite Hpage.
    - intros event w w'. now apply step_leaves_container. }
  rewrite forallb_forall in H. apply Forall_forall. intros e He.
  specialize (H e He). now destruct (snd e).
Qed.

(** A page that has only the count indicator and the clear button. *)
Definition bare_page : Page :=
  {| libraryContainer := false; resultsCount := true; clearButton := true;
     selects := true |}.

Definition bare_page_after_load : World :=
  match run (fun _ => first_draw) bare_page
            [(0%Z, LoadSucceeds scenario); (5%Z, YearChange "2022")]
            (init bare_page "/materials.html" "") with
  | Some w => w
  | None => init bare_page "/materials.html" ""
  end.

Lemma without_container_nothing_is_rendered_witness :
  Forall (fun e : Z * Effect =>
            match snd e with
            | Filtered _ _ | ReplaceState _ | SetClearButton _ => True
            | _ => False
            end)
         (trace bare_page_after_load).
Proof.
  apply (without_container_nothing_is_rendered (fun _ => first_draw) bare_page).
  - reflexivity.
  - exists "/materials.html", "",
      [(0%Z, LoadSucceeds scenario); (5%Z, YearChange "2022")].
    vm_compute. reflexivity.
Defined.

(** ** After a failed load *)






(** ** Other input while a debounce is pending *)

Lemma filterTutorials_ran rnd page v :
  In (clock v, Filtered (controls v) (filteredTutorials (filterTutorials rnd page v)))
     (trace (filterTutorials rnd page v)).
Proof.
  rewrite filterTutorials_eq. world_fields. cbv zeta.
  apply in_or_app. right. now left.
Qed.

(** X8. Only a search input cancels the pending debounce.  A change of a
    drop-down, a click on the clear button and the end of the load leave
    the timeout pending; when it becomes due it fires, and
    [filterTutorials] runs once more on the values that the controls then
    hold. *)
Theorem other_input_keeps_the_pending_debounce :
  forall (rnd : Random) (page : Page) (w w' : World) (t : Z) (action : Action),
    match action with
    | SearchInput _ | TimerFires _ => False
    | _ => True
    end ->
    step rnd page (t, action) w = Some w' ->
    timers w' = timers w
    /\ searchDebounce w' = searchDebounce w
    /\ forall id due t',
         due_time id (timers w) = Some due -> (due <= t')%Z -> (t <= t')%Z ->
         exists w'',
           step rnd page (t', TimerFires id) w' = Some w''
           /\ In (t', Filtered (controls w') (filteredTutorials w'')) (trace w'').
Proof.
  intros rnd page w w' t action Haction Hstep.
  assert (Hfields : timers w' = timers w /\ searchDebounce w' = searchDebounce w
                    /\ clock w' = t).
  { revert Hstep. unfold step.
    destruct (t <? clock w)%Z; [discriminate|].
    destruct w as [all stored st path query debounce pending next calls0 now ph tr].
    unfold set_clock, set_controls. world_fields.
    destruct action as [text|value|value| |id|data|message];
      try contradiction.
    - intros [= <-]. now past_filter.
    - intros [= <-]. now past_filter.
    - destruct (clearButton page); [|discriminate].
      intros [= <-]. unfold clearFilters, set_controls. now past_filter.
    - destruct ph; try discriminate. intros [= <-].
      unfold load_succeeds, initializeFromURL, populateFilters, set_controls.
      destruct (selects page); world_fields; now past_filter.
    - destruct ph; try discriminate. intros [= <-].
      unfold load_fails, showError, emit.
      now destruct (negb (libraryContainer page)). }
  destruct Hfields as (Ht & Hd & Hc).
  split; [exact Ht|]. split; [exact Hd|].
  intros id due t' Hdue Hle Hlater.
  unfold step. rewrite Hc.
  assert (Hclock : (t' <? t)%Z = false) by (apply Z.ltb_ge; exact Hlater).
  rewrite Hclock.
  destruct w' as [all stored st path query debounce pending next calls0 now ph tr].
  unfold set_clock. world_fields. cbn [timers] in Ht. rewrite Ht, Hdue.
  assert (Hle' : (due <=? t')%Z = true) by (apply Z.leb_le; exact Hle).
  rewrite Hle'. eexists. split; [reflexivity|].
  match goal with
  | |- In (_, Filtered _ (filteredTutorials (filterTutorials _ _ ?v))) _ =>
      exact (filterTutorials_ran rnd page v)
  end.
Qed.

(** The same page after a click on the clear button, 90 ms later. *)
Definition cleared_while_typing : World :=
  match step (fun _ => first_draw) full_page (100%Z, ClearClick) typing_page with
  | Some w => w
  | None => typing_page
  end.

Lemma other_input_keeps_the_pending_debounce_witness :
  timers cleared_while_typing = timers typing_page.
Proof.
  apply (other_input_keeps_the_pending_debounce
           (fun _ => first_draw) full_page typing_page cleared_while_typing
           100 ClearClick I).
  vm_compute. reflexivity.
Defined.

(** ** The options of the two drop-downs *)

Lemma distinct_fold_spec (values seen : list Z) :
  let result :=
    fold_left (fun seen y => if existsb (Z.eqb y) seen then seen else seen ++ [y])
              values seen in
  (NoDup seen -> NoDup result)
  /\ forall y, In y result <-> In y seen \/ In y values.
Proof.
  revert seen. induction values as [|v values IH]; intros seen; simpl.
  - split; [auto|]. intros y. tauto.
  - destruct (IH (if existsb (Z.eqb v) seen then seen else seen ++ [v]))
      as [IHn IHi].
    split.
    + intros Hn. apply IHn.
      destruct (existsb (Z.eqb v) seen) eqn:E; [exact Hn|].
      apply NoDup_app; [exact Hn|repeat constructor; intros []|].
      intros y Hy [->|[]].
      assert (Hex : existsb (Z.eqb y) seen = true).
      { apply existsb_exists. exists y. split; [exact Hy|apply Z.eqb_refl]. }
      congruence.
    + intros y. rewrite IHi.
      destruct (existsb (Z.eqb v) seen) eqn:E.
      * apply existsb_exists in E as (x & Hx & Heq).
        apply Z.eqb_eq in Heq. subst x.
        split; [tauto|]. intros [H|[<-|H]]; auto.
      * rewrite in_app_iff. simpl. tauto.
Qed.

Lemma distinct_NoDup values : NoDup (distinct values).
Proof. apply (distinct_fold_spec values []). constructor. Qed.

Lemma distinct_In_iff values y : In y (distinct values) <-> In y values.
Proof.
  unfold distinct. rewrite (proj2 (distinct_fold_spec values [])). simpl. tauto.
Qed.

(** X9. The year drop-down offers "All Years" (the empty value) and then
    the years of the loaded tutorials as decimal strings, each year once,
    newest first. *)
Theorem year_options_are_the_years_descending :
  forall tutorials : list Tutorial,
    exists years,
      year_option_values tutorials = "" :: map show_Z years
      /\ StronglySorted Z.gt years
      /\ (forall y, In y years <-> exists t, In t tutorials /\ year t = y).
Proof.
  intros tutorials.
  exists (sort_descending (distinct (map year tutorials))).
  split; [reflexivity|]. split.
  - apply sort_descending_strict, distinct_NoDup.
  - intros y. split.
    + intros Hy.
      apply (Permutation_in _ (sort_descending_permutation _)) in Hy.
      apply distinct_In_iff, in_map_iff in Hy as (t & <- & Ht). eauto.
    + intros (t & Ht & <-).
      apply (Permutation_in _ (Permutation_sym (sort_descending_permutation _))).
      apply distinct_In_iff, in_map. exact Ht.
Qed.

Definition only_year (value : string) : FilterState :=
  {| searchText := ""; yearFilter := value; topicFilter := "" |}.

Definition only_topic (value : string) : FilterState :=
  {| searchText := ""; yearFilter := ""; topicFilter := value |}.

Lemma show_Z_truthy y : truthy (show_Z y) = true.
Proof.
  destruct y as [|p|p]; [reflexivity| |reflexivity].
  simpl. pose proof (show_nat_not_empty (Pos.to_nat p)) as H.
  now destruct (show_nat (Pos.to_nat p)).
Qed.

Lemma matches_only_year y t : matches (only_year (show_Z y)) t = year_is y t.
Proof.
  unfold matches, only_year, matchesYear, matchesTopic.
  cbn [searchText yearFilter topicFilter].
  change (searchTerm _) with "".
  unfold matchesSearch. cbn [truthy negb orb andb].
  rewrite loose_eq_show_Z, show_Z_truthy. unfold year_is.
  cbn [negb orb]. now rewrite andb_true_r.
Qed.

(** X10. Every year that the drop-down offers leads to a result: with the
    other two filters unset, choosing the option of a year shows the
    tutorials of exactly that year, and there is at least one. *)
Theorem offered_year_shows_its_tutorials :
  forall (rnd : Random) (tutorials : list Tutorial) (value : string)
         (calls : nat),
    In value (year_option_values tutorials) -> value <> "" ->
    let result := fst (apply rnd tutorials (only_year value) calls) in
    result <> []
    /\ exists y, value = show_Z y
                 /\ Permutation result (filter (year_is y) tutorials).
Proof.
  intros rnd tutorials value calls Hin Hne result.
  apply year_option_values_spec in Hin as [->|(t & Ht & ->)]; [contradiction|].
  assert (Hp : Permutation result (filter (year_is (year t)) tutorials)).
  { subst result. unfold apply, filtered.
    rewrite (filter_ext _ _ (matches_only_year (year t))).
    apply shuffle_permutation. }
  split.
  - intros Hnil. rewrite Hnil in Hp. apply Permutation_nil in Hp.
    assert (Hint : In t (filter (year_is (year t)) tutorials)).
    { apply filter_In. split; [exact Ht|]. unfold year_is. apply Z.eqb_refl. }
    rewrite Hp in Hint. exact Hint.
  - exists (year t). split; [reflexivity|exact Hp].
Qed.

Lemma offered_year_shows_its_tutorials_witness :
  fst (apply (fun _ => first_draw) scenario (only_year "2022") 0) <> []
  /\ exists y, "2022" = show_Z y
               /\ Permutation
                    (fst (apply (fun _ => first_draw) scenario (only_year "2022") 0))
                    (filter (year_is y) scenario).
Proof.
  apply (offered_year_shows_its_tutorials (fun _ => first_draw) scenario "2022" 0).
  - vm_compute. tauto.
  - discriminate.
Defined.

Lemma matches_only_topic value t :
  value <> "" ->
  matches (only_topic value) t = existsb (String.eqb value) (keywords t).
Proof.
  intros Hne. unfold matches, only_topic, matchesYear, matchesTopic.
  cbn [searchText yearFilter topicFilter].
  change (searchTerm _) with "".
  unfold matchesSearch. cbn [truthy negb orb andb].
  destruct value; [contradiction|reflexivity].
Qed.

(** X11. Every topic that the drop-down offers leads to a result: with the
    other two filters unset, choosing the option of a keyword shows the
    tutorials that carry exactly that keyword, and there is at least
    one. *)
Theorem offered_topic_shows_its_tutorials :
  forall (rnd : Random) (tutorials : list Tutorial) (value : string)
         (calls : nat),
    topic_offers tutorials value = true -> value <> "" ->
    let result := fst (apply rnd tutorials (only_topic value) calls) in
    result <> []
    /\ forall t, In t result <-> In t tutorials /\ In value (keywords t).
Proof.
  intros rnd tutorials value calls Hoffer Hne result.
  assert (Hin : forall t, In t result <-> In t tutorials /\ In value (keywords t)).
  { intros t. subst result. rewrite apply_In, matches_only_topic by exact Hne.
    rewrite existsb_exists. split.
    - intros [Ht (kw & Hkw & Heq)]. apply String.eqb_eq in Heq. now subst kw.
    - intros [Ht Hkw]. split; [exact Ht|]. exists value.
      split; [exact Hkw|apply String.eqb_refl]. }
  split; [|exact Hin].
  unfold topic_offers in Hoffer.
  destruct value as [|c value]; [contradiction|]. cbn [truthy negb orb] in Hoffer.
  apply existsb_exists in Hoffer as (t & Ht & Hkw).
  apply existsb_exists in Hkw as (kw & Hkw & Heq).
  apply String.eqb_eq in Heq. subst kw.
  intros Hnil. assert (H : In t result) by (apply Hin; tauto).
  rewrite Hnil in H. exact H.
Qed.

Lemma offered_topic_shows_its_tutorials_witness :
  fst (apply (fun _ => first_draw) scenario (only_topic "pl") 0) <> []
  /\ forall t, In t (fst (apply (fun _ => first_draw) scenario (only_topic "pl") 0))
               <-> In t scenario /\ In "pl" (keywords t).
Proof.
  apply (offered_topic_shows_its_tutorials (fun _ => first_draw) scenario "pl" 0).
  - vm_compute. reflexivity.
  - discriminate.
Defined.

(** ** The text of a card *)

Definition is_angle (c : ascii) : bool := is_char c "<" || is_char c ">".

Lemma text_markup_no_angle text :
  all_chars (fun c => negb (is_angle c)) (text_markup text) = true.
Proof.
  assert (H : forall n text, String.length text <= n ->
                all_chars (fun c => negb (is_angle c)) (text_markup text) = true).
  { clear text. induction n as [|n IH]; intros [|c rest] Hlen; simpl in *;
      try reflexivity; try lia.
    destruct (is_char c "&") eqn:E1; [simpl; apply IH; lia|].
    destruct (is_char c "<") eqn:E2; [simpl; apply IH; lia|].
    destruct (is_char c ">") eqn:E3; [simpl; apply IH; lia|].
    assert (Hc : negb (is_angle c) = true) by (unfold is_angle; now rewrite E2, E3).
    destruct (nat_of_ascii c =? 194) eqn:E4.
    - destruct rest as [|d rest']; [simpl; now rewrite Hc|].
      destruct (nat_of_ascii d =? 160).
      + simpl. apply IH. simpl in Hlen. lia.
      + cbn [all_chars]. rewrite Hc. apply IH. lia.
    - cbn [all_chars]. rewrite Hc. apply IH. lia. }
  now apply (H (String.length text)).
Qed.

Lemma all_chars_join p sep parts :
  all_chars p sep = true ->
  Forall (fun s => all_chars p s = true) parts ->
  all_chars p (join sep parts) = true.
Proof.
  intros Hsep. induction 1 as [|s parts Hs Hparts IH]; [reflexivity|].
  destruct parts as [|s' parts]; [exact Hs|].
  change (join sep (s :: s' :: parts))
    with (s ++ sep ++ join sep (s' :: parts))%string.
  now rewrite !all_chars_app, Hs, Hsep, IH.
Qed.

(** X12. Text that goes through [escapeHtml] cannot open or close a tag:
    the result never contains [<] or [>], whatever the text.  The same
    holds for what [renderAuthors] returns, for every list of authors and
    for a tutorial without authors. *)
Theorem escaped_text_has_no_angle_bracket :
  (forall text : option string,
      all_chars (fun c => negb (is_char c "<" || is_char c ">"))
                (escapeHtml text) = true)
  /\ (forall authors : option (list string),
        all_chars (fun c => negb (is_char c "<" || is_char c ">"))
                  (renderAuthors authors) = true).
Proof.
  split.
  - intros [text|]; [apply text_markup_no_angle|reflexivity].
  - intros [[|a names]|]; try reflexivity.
    unfold renderAuthors, escapeHtml. apply text_markup_no_angle.
Qed.

(** The characters that [escapeHtml] rewrites, or may rewrite: [&], [<],
    [>] and the first byte of the no-break space. *)
Definition is_special (c : ascii) : bool :=
  is_char c "&" || is_char c "<" || is_char c ">" || (nat_of_ascii c =? 194).

(** X13. [escapeHtml] rewrites nothing but [&], [<], [>] and the no-break
    space: a text without them is returned unchanged, with the double
    quotes and apostrophes it contains. *)
Theorem escapeHtml_keeps_other_characters :
  forall text : string,
    all_chars (fun c => negb (is_special c)) text = true ->
    escapeHtml (Some text) = text.
Proof.
  unfold escapeHtml.
  induction text as [|c rest IH]; [reflexivity|].
  cbn [all_chars]. intros H. apply andb_true_iff in H as [Hc Hrest].
  unfold is_special in Hc. rewrite !negb_orb, !andb_true_iff in Hc.
  destruct Hc as [[[H1 H2] H3] H4].
  apply negb_true_iff in H1, H2, H3, H4.
  cbn [text_markup]. rewrite H1, H2, H3, H4. f_equal. now apply IH.
Qed.

(** A file name that closes the attribute it is written into. *)
Definition quoted_path : string :=
  ("img/a.png" ++ double_quote ++ " onload=" ++ double_quote ++ "go()")%string.

Lemma escapeHtml_keeps_other_characters_witness :
  escapeHtml (Some quoted_path) = quoted_path.
Proof.
  apply (escapeHtml_keeps_other_characters quoted_path). vm_compute. reflexivity.
Defined.

(** ** The keyword tags of a card *)

(** The number of places of [s] at which [sub] occurs. *)
Fixpoint occurrences (sub s : string) : nat :=
  match s with
  | EmptyString => 0
  | String _ s' => (if prefix sub s then 1 else 0) + occurrences sub s'
  end.

Lemma occurrences_skip sub c s1 s2 :
  all_chars (fun a => negb (is_char a c)) s1 = true ->
  occurrences (String c sub) (s1 ++ s2) = occurrences (String c sub) s2.
Proof.
  induction s1 as [|a s1 IH]; [reflexivity|].
  cbn [all_chars]. intros H. apply andb_true_iff in H as [Ha Hs].
  cbn [append occurrences prefix].
  destruct (ascii_dec c a) as [->|Hne].
  - unfold is_char in Ha. now rewrite Ascii.eqb_refl in Ha.
  - now rewrite IH.
Qed.

Lemma text_markup_no_open text :
  all_chars (fun a => negb (is_char a "<")) (text_markup text) = true.
Proof.
  eapply all_chars_impl; [|apply text_markup_no_angle].
  intros c. unfold is_angle. now destruct (is_char c "<").
Qed.

Lemma occurrences_self c sub rest :
  all_chars (fun a => negb (is_char a c)) sub = true ->
  occurrences (String c sub) (String c sub ++ rest)
  = S (occurrences (String c sub) rest).
Proof.
  intros H. change (String c sub ++ rest)%string with (String c (sub ++ rest)).
  cbn [occurrences].
  assert (Hp : prefix (String c sub) (String c (sub ++ rest)) = true).
  { apply prefix_spec. now exists rest. }
  rewrite Hp. now rewrite occurrences_skip.
Qed.

Lemma keyword_open_shape :
  exists sub,
    keyword_open = String "<" sub
    /\ all_chars (fun a => negb (is_char a "<")) sub = true.
Proof.
  eexists. split.
  - unfold keyword_open, double_quote. cbn [append]. reflexivity.
  - reflexivity.
Qed.

Lemma occurrences_close_tag name rest :
  match name with EmptyString | String "s" _ => False | _ => True end ->
  all_chars (fun a => negb (is_char a "<")) name = true ->
  occurrences keyword_open (String "<" name ++ rest)
  = occurrences keyword_open rest.
Proof.
  intros Hname Hplain.
  destruct keyword_open_shape as (sub & E & Hsub).
  change (String "<" name ++ rest)%string with (String "<" (name ++ rest)).
  cbn [occurrences].
  rewrite E at 2. rewrite occurrences_skip by exact Hplain. rewrite <- E.
  assert (Hp : prefix keyword_open (String "<" (name ++ rest)) = false).
  { unfold keyword_open, double_quote. cbn [append].
    destruct name as [|c name]; [contradiction|].
    change (String c name ++ rest)%string with (String c (name ++ rest)).
    cbn [prefix]. destruct (ascii_dec "<" "<"); [|contradiction].
    destruct (ascii_dec "s" c) as [<-|]; [contradiction|reflexivity]. }
  now rewrite Hp.
Qed.

Lemma occurrences_keyword_tag kw rest :
  occurrences keyword_open (keyword_tag kw ++ rest)
  = S (occurrences keyword_open rest).
Proof.
  unfold keyword_tag, escapeHtml. rewrite !append_assoc.
  destruct keyword_open_shape as (sub & E & Hsub).
  rewrite E. rewrite occurrences_self by exact Hsub.
  rewrite occurrences_skip by apply text_markup_no_open.
  rewrite <- E.
  now rewrite (occurrences_close_tag "/span>" rest I eq_refl).
Qed.

Lemma join_empty_cons part parts :
  join "" (part :: parts) = (part ++ join "" parts)%string.
Proof.
  destruct parts as [|part' parts]; [|reflexivity].
  simpl. now rewrite append_empty_r.
Qed.

Lemma occurrences_keyword_tags kws rest :
  occurrences keyword_open (join "" (map keyword_tag kws) ++ rest)
  = List.length kws + occurrences keyword_open rest.
Proof.
  induction kws as [|kw kws IH]; [reflexivity|].
  cbn [map]. rewrite join_empty_cons, append_assoc, occurrences_keyword_tag, IH.
  reflexivity.
Qed.

(** X14. A card shows at most five keywords: the markup that
    [renderKeywords] returns holds one keyword tag for each of the first
    five keywords and none for the others, whatever characters the
    keywords contain; a tutorial without keywords gets no markup at
    all. *)
Theorem card_shows_at_most_five_keywords :
  (forall kws : list string,
      occurrences keyword_open (renderKeywords (Some kws))
      = Nat.min 5 (List.length kws))
  /\ (forall kws : list string,
        renderKeywords (Some kws) = renderKeywords (Some (firstn 5 kws)))
  /\ renderKeywords (Some []) = ""
  /\ renderKeywords None = "".
Proof.
  split; [|split; [|split; reflexivity]].
  - intros [|kw kws]; [reflexivity|].
    unfold renderKeywords.
    remember (kw :: kws) as l eqn:El. clear El.
    change ("<div class=" ++ double_quote ++ "mec-card__keywords" ++ double_quote
            ++ ">" ++ join "" (map keyword_tag (firstn 5 l)) ++ "</div>")%string
      with (String "<" ("div class=" ++ double_quote ++ "mec-card__keywords"
                        ++ double_quote ++ ">")
            ++ join "" (map keyword_tag (firstn 5 l)) ++ "</div>")%string.
    rewrite occurrences_close_tag; [|exact I|reflexivity].
    rewrite occurrences_keyword_tags, length_firstn.
    change (occurrences keyword_open "</div>") with 0. lia.
  - intros [|kw kws]; [reflexivity|].
    unfold renderKeywords.
    change (firstn 5 (kw :: kws)) with (kw :: firstn 4 kws). cbv iota beta.
    change (firstn 5 (kw :: firstn 4 kws)) with (kw :: firstn 4 (firstn 4 kws)).
    now rewrite firstn_firstn.
Qed.

(** ** The search text and the labels of the topics *)

Lemma lower_upper_char c : lower_char (upper_char c) = lower_char c.
Proof. destruct c as [[] [] [] [] [] [] [] []]; reflexivity. Qed.

Lemma toLowerCase_capitalizeFirst s :
  toLowerCase (capitalizeFirst s) = toLowerCase s.
Proof. destruct s as [|c s]; [reflexivity|]. simpl. now rewrite lower_upper_char. Qed.

Lemma trimStart_suffix s : exists pre, s = (pre ++ trimStart s)%string.
Proof.
  induction s as [|c s [pre IH]]; [now exists ""|]. simpl.
  destruct (is_space c).
  - exists (String c pre). simpl. now rewrite <- IH.
  - now exists "".
Qed.

Lemma trimEnd_prefix s : exists post, s = (trimEnd s ++ post)%string.
Proof.
  induction s as [|c s [post IH]]; [now exists ""|].
  cbn [trimEnd]. destruct (all_space (String c s)).
  - now exists (String c s).
  - exists post. simpl. now rewrite <- IH.
Qed.

Lemma trim_substring s : substring_of (trim s) s.
Proof.
  unfold trim, substring_of.
  destruct (trimStart_suffix s) as [pre Hpre].
  destruct (trimEnd_prefix (trimStart s)) as [post Hpost].
  exists pre, post. now rewrite <- Hpost.
Qed.

(** The first character of the text, if there is one, is of the ASCII
    range, where [capitalizeFirst] is [charAt(0).toUpperCase()]. *)
Definition ascii_initial (s : string) : Prop :=
  match s with
  | EmptyString => True
  | String c _ => nat_of_ascii c < 128
  end.

(** X15. The label of a topic finds the topic, for a keyword that begins
    with a character of the ASCII range: when the text that the topic
    drop-down shows for the keyword ([capitalizeFirst] of it) is typed
    into the search box, with no year and no topic chosen, every tutorial
    that carries the keyword is in the result. *)
Theorem topic_label_typed_into_search_finds_the_topic :
  forall (rnd : Random) (tutorials : list Tutorial) (calls : nat)
         (kw : string) (t : Tutorial),
    ascii_initial kw ->
    In t tutorials -> In kw (keywords t) ->
    In t (fst (apply rnd tutorials
                     (with_search (capitalizeFirst kw) no_filters) calls)).
Proof.
  intros rnd tutorials calls kw t _ Ht Hkw.
  apply apply_In. split; [exact Ht|].
  apply matches_spec. unfold searchTerm.
  cbn [with_search searchText yearFilter topicFilter no_filters].
  rewrite toLowerCase_capitalizeFirst.
  split; [|split; now left].
  right. right. right. apply Exists_exists. exists kw.
  split; [exact Hkw|apply trim_substring].
Qed.

Lemma topic_label_typed_into_search_finds_the_topic_witness :
  In graphs_101
     (fst (apply (fun _ => first_draw) scenario
                 (with_search (capitalizeFirst "theory") no_filters) 0)).
Proof.
  apply (topic_label_typed_into_search_finds_the_topic
           (fun _ => first_draw) scenario 0 "theory" graphs_101).
  - vm_compute. repeat constructor.
  - vm_compute. tauto.
  - vm_compute. tauto.
Defined.

Lemma is_space_lower_char c : is_space (lower_char c) = is_space c.
Proof. destruct c as [[] [] [] [] [] [] [] []]; reflexivity. Qed.

Lemma lower_char_idempotent c : lower_char (lower_char c) = lower_char c.
Proof. destruct c as [[] [] [] [] [] [] [] []]; reflexivity. Qed.

Lemma toLowerCase_idempotent s : toLowerCase (toLowerCase s) = toLowerCase s.
Proof. induction s as [|c s IH]; simpl; [reflexivity|]. now rewrite lower_char_idempotent, IH. Qed.

Lemma trimStart_toLowerCase s :
  trimStart (toLowerCase s) = toLowerCase (trimStart s).
Proof.
  induction s as [|c s IH]; [reflexivity|]. simpl.
  rewrite is_space_lower_char. now destruct (is_space c).
Qed.

Lemma all_space_toLowerCase s : all_space (toLowerCase s) = all_space s.
Proof.
  induction s as [|c s IH]; [reflexivity|]. simpl.
  now rewrite is_space_lower_char, IH.
Qed.

Lemma trimEnd_toLowerCase s : trimEnd (toLowerCase s) = toLowerCase (trimEnd s).
Proof.
  induction s as [|c s IH]; [reflexivity|].
  change (toLowerCase (String c s)) with (String (lower_char c) (toLowerCase s)).
  cbn [trimEnd].
  change (String (lower_char c) (toLowerCase s)) with (toLowerCase (String c s)).
  rewrite all_space_toLowerCase.
  destruct (all_space (String c s)); [reflexivity|]. simpl. now rewrite IH.
Qed.

Lemma trim_toLowerCase s : trim (toLowerCase s) = toLowerCase (trim s).
Proof. unfold trim. now rewrite trimStart_toLowerCase, trimEnd_toLowerCase. Qed.

Lemma all_space_trimEnd s : all_space (trimEnd s) = all_space s.
Proof.
  induction s as [|c s IH]; [reflexivity|].
  cbn [trimEnd]. destruct (all_space (String c s)) eqn:E; [reflexivity|].
  cbn [all_space] in *. now rewrite IH.
Qed.

Lemma trimEnd_idempotent s : trimEnd (trimEnd s) = trimEnd s.
Proof.
  induction s as [|c s IH]; [reflexivity|].
  cbn [trimEnd]. destruct (all_space (String c s)) eqn:E; [reflexivity|].
  cbn [trimEnd]. cbn [all_space] in *. rewrite all_space_trimEnd, E.
  now rewrite IH.
Qed.

Lemma trimStart_fixed s :
  match s with String c _ => is_space c = false | EmptyString => True end ->
  trimStart s = s.
Proof. destruct s as [|c s]; [reflexivity|]. simpl. now intros ->. Qed.

Lemma trimStart_head s :
  match trimStart s with String c _ => is_space c = false | EmptyString => True end.
Proof.
  induction s as [|c s IH]; [exact I|]. simpl.
  destruct (is_space c) eqn:E; [exact IH|exact E].
Qed.

Lemma trimEnd_head s :
  match s with String c _ => is_space c = false | EmptyString => True end ->
  match trimEnd s with String c _ => is_space c = false | EmptyString => True end.
Proof.
  destruct s as [|c s]; [intros _; exact I|]. intros Hc.
  cbn [trimEnd all_space]. rewrite Hc. exact Hc.
Qed.

Lemma trim_idempotent s : trim (trim s) = trim s.
Proof.
  unfold trim.
  rewrite (trimStart_fixed (trimEnd (trimStart s))).
  - apply trimEnd_idempotent.
  - apply trimEnd_head, trimStart_head.
Qed.

Lemma searchTerm_idempotent st :
  searchTerm (with_search (searchTerm st) st) = searchTerm st.
Proof.
  unfold searchTerm. cbn [with_search searchText].
  now rewrite <- trim_toLowerCase, toLowerCase_idempotent, trim_toLowerCase,
    <- trim_toLowerCase, trim_idempotent.
Qed.

(** X16. The search ignores letter case and the white space around the
    text: two search texts that are equal once trimmed and lower-cased
    select the same tutorials, and so does the trimmed lower-case form of
    the text itself. *)
Theorem search_ignores_case_and_outer_space :
  forall (st : FilterState) (text : string) (t : Tutorial),
    toLowerCase (trim text) = toLowerCase (trim (searchText st)) ->
    matches (with_search text st) t = matches st t
    /\ matches (with_search (trim (toLowerCase text)) st) t = matches st t.
Proof.
  intros st text t H.
  assert (E : searchTerm (with_search text st) = searchTerm st).
  { unfold searchTerm. cbn [with_search searchText].
    now rewrite !trim_toLowerCase. }
  split.
  - unfold matches. now rewrite E.
  - assert (E2 : searchTerm (with_search (trim (toLowerCase text)) st)
                 = searchTerm st).
    { rewrite <- E. apply (searchTerm_idempotent (with_search text st)). }
    unfold matches. now rewrite E2.
Qed.

Lemma search_ignores_case_and_outer_space_witness :
  matches (with_search "  GRAPHS " no_filters) graphs_101
  = matches (with_search "graphs" no_filters) graphs_101
  /\ matches (with_search (trim (toLowerCase "  GRAPHS ")) no_filters) graphs_101
     = matches (with_search "graphs" no_filters) graphs_101.
Proof.
  apply (search_ignores_case_and_outer_space
           (with_search "graphs" no_filters) "  GRAPHS " graphs_101).
  vm_compute. reflexivity.
Defined.

(** ** What the shuffle can and cannot do *)

Section Shuffle.
Context {A : Type}.

Lemma fisher_yates_ext (rnd rnd' : Random) i (arr : list A) calls :
  (forall n, calls <= n -> rnd n = rnd' n) ->
  fisher_yates rnd i arr calls = fisher_yates rnd' i arr calls.
Proof.
  revert arr calls. induction i as [|i IH]; intros arr calls H; [reflexivity|].
  cbn [fisher_yates]. rewrite (H calls) by lia.
  apply IH. intros n Hn. apply H. lia.
Qed.

Lemma set_nth_app i (x : A) pre suf :
  i < List.length pre -> set_nth i x (pre ++ suf) = set_nth i x pre ++ suf.
Proof.
  revert i. induction pre as [|a pre IH]; intros i Hi; simpl in *; [lia|].
  destruct i as [|i]; [reflexivity|]. simpl. f_equal. apply IH. lia.
Qed.

Lemma swap_app i j (pre suf : list A) :
  i < List.length pre -> j < List.length pre ->
  swap i j (pre ++ suf) = swap i j pre ++ suf.
Proof.
  intros Hi Hj. unfold swap.
  rewrite !nth_error_app1 by assumption.
  destruct (nth_error pre i) as [a|] eqn:Ei.
  2:{ apply nth_error_None in Ei. lia. }
  destruct (nth_error pre j) as [b|] eqn:Ej.
  2:{ apply nth_error_None in Ej. lia. }
  rewrite (set_nth_app i b pre suf Hi).
  rewrite set_nth_app; [reflexivity|]. now rewrite set_nth_length.
Qed.

(** The loop entered at the index [i] leaves the elements after [i]
    where they are. *)
Lemma fisher_yates_app rnd i (pre suf : list A) calls :
  i < List.length pre ->
  fisher_yates rnd i (pre ++ suf) calls
  = (fst (fisher_yates rnd i pre calls) ++ suf,
     snd (fisher_yates rnd i pre calls)).
Proof.
  revert pre calls. induction i as [|i IH]; intros pre calls Hi; [reflexivity|].
  cbn [fisher_yates].
  pose proof (floor_scaled_lt (rnd calls) (S i + 1)) as Hj.
  rewrite swap_app by lia.
  apply IH. rewrite swap_length. lia.
Qed.

Lemma swap_moves_to_end i j (arr : list A) x :
  List.length arr = S i -> nth_error arr j = Some x ->
  exists pre, swap i j arr = pre ++ [x] /\ List.length pre = i.
Proof.
  intros Hlen Hx.
  assert (Hj : j < List.length arr) by (apply nth_error_Some; congruence).
  assert (Hlast : nth_error (swap i j arr) i = Some x).
  { destruct (swap_in_range i j arr) as (a & b & Ha & Hb & ->); [lia|lia|].
    assert (b = x) by congruence. subst b.
    destruct (Nat.eq_dec j i) as [->|Hne].
    - assert (a = x) by congruence. subst a.
      apply nth_error_set_nth_eq. rewrite set_nth_length. lia.
    - rewrite nth_error_set_nth_ne by exact Hne.
      apply nth_error_set_nth_eq. lia. }
  pose proof (swap_length i j arr) as Hl. rewrite Hlen in Hl.
  destruct (exists_last (l := swap i j arr)) as (pre & y & E).
  { intros E. rewrite E in Hl. discriminate. }
  rewrite E in Hl, Hlast. rewrite length_app in Hl. simpl in Hl.
  assert (Hpre : List.length pre = i) by lia.
  rewrite nth_error_app2, Hpre, Nat.sub_diag in Hlast by lia.
  injection Hlast as ->. exists pre. now rewrite E.
Qed.

(** The value of [Math.random] that makes [Math.floor(u * n)] the index
    [j]. *)
Definition draw_for (j n : nat) (H : j < n) : Draw :=
  {| numer := j; denom := n; in_unit := H |}.

Lemma floor_scaled_draw_for j n H : floor_scaled (draw_for j n H) n = j.
Proof. unfold floor_scaled. simpl. apply Nat.div_mul. lia. Qed.

Lemma fisher_yates_reaches i :
  forall (arr target : list A) calls,
    List.length arr = S i -> Permutation arr target ->
    exists rnd, fst (fisher_yates rnd i arr calls) = target.
Proof.
  induction i as [|i IH]; intros arr target calls Hlen Hperm.
  - exists (fun _ => first_draw). simpl.
    destruct arr as [|a [|]]; try discriminate.
    symmetry. now apply Permutation_length_1_inv.
  - destruct (exists_last (l := target)) as (target' & x & ->).
    { intros ->. apply Permutation_length in Hperm. rewrite Hlen in Hperm.
      discriminate. }
    assert (Hin : In x arr).
    { apply (Permutation_in _ (Permutation_sym Hperm)), in_or_app.
      right. now left. }
    apply In_nth_error in Hin as [j Hj].
    assert (Hlt : j < S i + 1).
    { assert (j < List.length arr) by (apply nth_error_Some; congruence). lia. }
    destruct (swap_moves_to_end (S i) j arr x Hlen Hj) as (pre & Hswap & Hpre).
    assert (Hp : Permutation pre target').
    { apply (Permutation_app_inv_r [x]). rewrite <- Hswap.
      rewrite swap_permutation. exact Hperm. }
    destruct (IH pre target' (S calls) Hpre Hp) as [rnd' Hrnd'].
    exists (fun n => if n =? calls then draw_for j (S i + 1) Hlt else rnd' n).
    cbn [fisher_yates]. rewrite Nat.eqb_refl, floor_scaled_draw_for, Hswap.
    rewrite (fisher_yates_ext _ rnd').
    + rewrite fisher_yates_app by lia. cbn [fst]. now rewrite Hrnd'.
    + intros n Hn. destruct (Nat.eqb_spec n calls); [lia|reflexivity].
Qed.

End Shuffle.

(** X17. The shuffle can produce every order: for each rearrangement of an
    array there are values of [Math.random] for which the loop of
    [shuffleWithinYears], started at the last index, leaves the array in
    exactly that order. *)
Theorem shuffle_reaches_every_order :
  forall (A : Type) (arr target : list A) (calls : nat),
    Permutation arr target ->
    exists rnd : Random,
      fst (fisher_yates rnd (List.length arr - 1) arr calls) = target.
Proof.
  intros A arr target calls Hperm.
  destruct arr as [|a arr].
  - apply Permutation_nil in Hperm. subst target.
    now exists (fun _ => first_draw).
  - apply fisher_yates_reaches; [|exact Hperm]. simpl. lia.
Qed.

Lemma shuffle_reaches_every_order_witness :
  exists rnd : Random,
    fst (fisher_yates rnd (List.length [1; 2; 3] - 1) [1; 2; 3] 0) = [3; 1; 2].
Proof.
  apply (shuffle_reaches_every_order nat [1; 2; 3] [3; 1; 2] 0).
  apply (perm_trans (l' := [1; 3; 2])).
  - apply perm_skip, perm_swap.
  - apply perm_swap.
Defined.

Lemma permutation_short {A : Type} (l r : list A) :
  List.length l <= 1 -> Permutation r l -> r = l.
Proof.
  destruct l as [|a [|b l]]; simpl; intros Hlen Hp; try lia.
  - now apply Permutation_nil, Permutation_sym.
  - now apply Permutation_length_1_inv, Permutation_sym.
Qed.

(** X18. Chance only orders the regular tutorials of a year among
    themselves: when no year has two regular tutorials, the order that
    [shuffleWithinYears] returns does not depend on the values of
    [Math.random]; it is, year by year from the newest, the winners, the
    finalists and then the regular tutorial, each tier in the order of
    the input. *)
Theorem order_is_fixed_without_two_regulars :
  forall (rnd rnd' : Random) (tutorials : list Tutorial) (calls calls' : nat),
    (forall y, List.length (filter is_regular (filter (year_is y) tutorials)) <= 1) ->
    fst (shuffleWithinYears rnd tutorials calls)
    = fst (shuffleWithinYears rnd' tutorials calls')
    /\ fst (shuffleWithinYears rnd tutorials calls)
       = flat_map (fun y => filter is_winner (filter (year_is y) tutorials)
                            ++ filter is_finalist (filter (year_is y) tutorials)
                            ++ filter is_regular (filter (year_is y) tutorials))
                  (sort_descending (distinct (map year tutorials))).
Proof.
  intros rnd rnd' tutorials calls calls' Hone.
  assert (H : forall r c,
             fst (shuffleWithinYears r tutorials c)
             = flat_map (fun y => filter is_winner (filter (year_is y) tutorials)
                                  ++ filter is_finalist (filter (year_is y) tutorials)
                                  ++ filter is_regular (filter (year_is y) tutorials))
                        (sort_descending (distinct (map year tutorials)))).
  { intros r c.
    destruct (shuffleWithinYears_groups r tutorials c)
      as (m & -> & Hnodup & Hkeys & Htiered).
    assert (Hyears : sort_descending (own_keys m)
                     = sort_descending (distinct (map year tutorials))).
    { apply strict_sorted_unique.
      - apply sort_descending_strict, own_keys_NoDup, Hnodup.
      - apply sort_descending_strict, distinct_NoDup.
      - intros y.
        pose proof (sort_descending_permutation (own_keys m)) as P1.
        pose proof (sort_descending_permutation (distinct (map year tutorials)))
          as P2.
        split; intros Hy.
        + apply (Permutation_in _ (Permutation_sym P2)), distinct_In_iff, Hkeys,
            own_keys_In.
          exact (Permutation_in _ P1 Hy).
        + apply (Permutation_in _ (Permutation_sym P1)), own_keys_In, Hkeys,
            distinct_In_iff.
          exact (Permutation_in _ P2 Hy). }
    rewrite Hyears. apply flat_map_ext. intros y.
    destruct (Htiered y) as (regulars & Hperm & ->).
    now rewrite (permutation_short _ _ (Hone y) Hperm). }
  split; [now rewrite (H rnd calls), (H rnd' calls')|apply H].
Qed.

Lemma order_is_fixed_without_two_regulars_witness :
  fst (shuffleWithinYears (fun _ => first_draw) scenario 0)
  = flat_map (fun y => filter is_winner (filter (year_is y) scenario)
                       ++ filter is_finalist (filter (year_is y) scenario)
                       ++ filter is_regular (filter (year_is y) scenario))
             (sort_descending (distinct (map year scenario))).
Proof.
  apply (order_is_fixed_without_two_regulars
           (fun _ => first_draw) (fun _ => first_draw) scenario 0 0).
  intros y.
  destruct (Z.eq_dec y 2023) as [->|H1]; [vm_compute; lia|].
  destruct (Z.eq_dec y 2022) as [->|H2]; [vm_compute; lia|].
  rewrite (filter_none (year_is y)); [simpl; lia|].
  intros t [<-|[<-|[<-|[]]]]; unfold year_is;
    cbn [year deep_learning_basics graphs_101 compilers];
    apply Z.eqb_neq; congruence.
Defined.

(** ** The drop-downs of the navigation bar *)

(** The number of drop-downs that are open. *)
Definition open_count (dropdowns : list NavDropdown) : nat :=
  List.length (filter active dropdowns).

Lemma filter_active_closed dropdowns :
  filter active (map remove_active dropdowns) = [].
Proof. induction dropdowns as [|d ds IH]; simpl; auto. Qed.

Lemma open_count_closed dropdowns : open_count (map remove_active dropdowns) = 0.
Proof. unfold open_count. now rewrite filter_active_closed. Qed.

Lemma toggles_closed dropdowns :
  map has_toggle (map remove_active dropdowns) = map has_toggle dropdowns.
Proof. rewrite map_map. reflexivity. Qed.

Lemma toggle_click_count i dropdowns :
  open_count (toggle_at i (close_others i dropdowns)) <= 1.
Proof.
  unfold open_count. revert i.
  induction dropdowns as [|d ds IH]; intros [|i]; simpl; auto.
  rewrite filter_active_closed.
  destruct (negb (active d)); simpl; lia.
Qed.

Lemma toggle_click_toggles i dropdowns :
  map has_toggle (toggle_at i (close_others i dropdowns)) = map has_toggle dropdowns.
Proof.
  revert i. induction dropdowns as [|d ds IH]; intros [|i]; simpl; auto.
  - now rewrite toggles_closed.
  - now rewrite IH.
Qed.

Lemma nav_step_keeps event dropdowns dropdowns' :
  nav_step event dropdowns = Some dropdowns' ->
  map has_toggle dropdowns' = map has_toggle dropdowns
  /\ (open_count dropdowns <= 1 -> open_count dropdowns' <= 1).
Proof.
  destruct event as [i|inside|key]; simpl.
  - destruct (nth_error dropdowns i) as [d|]; [|discriminate].
    destruct (has_toggle d); [|discriminate]. intros [= <-].
    split; [apply toggle_click_toggles|]. intros _. apply toggle_click_count.
  - destruct inside; simpl; intros [= <-]; [tauto|].
    split; [apply toggles_closed|]. rewrite open_count_closed. lia.
  - destruct (key =? "Escape")%string; intros [= <-]; [|tauto].
    split; [apply toggles_closed|]. rewrite open_count_closed. lia.
Qed.

(** X19. At most one drop-down of the navigation bar is open: when at most
    one is open to begin with (none is, in the markup), then after every
    sequence of clicks and keys at most one is open, and the listeners
    change nothing but the [active] class. *)
Theorem at_most_one_dropdown_open :
  forall (events : list NavEvent) (dropdowns dropdowns' : list NavDropdown),
    open_count dropdowns <= 1 ->
    nav_run events dropdowns = Some dropdowns' ->
    open_count dropdowns' <= 1
    /\ map has_toggle dropdowns' = map has_toggle dropdowns.
Proof.
  induction events as [|event events IH]; intros ds ds' Hopen; simpl.
  - intros [= <-]. auto.
  - destruct (nav_step event ds) as [ds1|] eqn:E; [|discriminate].
    apply nav_step_keeps in E as [Ht Hc]. intros Hrun.
    destruct (IH ds1 ds' (Hc Hopen) Hrun) as [H1 H2].
    split; [exact H1|congruence].
Qed.

(** A navigation bar with two menus and one drop-down without a toggle. *)
Definition navigation_bar : list NavDropdown :=
  [ {| has_toggle := true; active := false |};
    {| has_toggle := true; active := false |};
    {| has_toggle := false; active := false |} ].

Lemma at_most_one_dropdown_open_witness :
  open_count [ {| has_toggle := true; active := true |};
               {| has_toggle := true; active := false |};
               {| has_toggle := false; active := false |} ] <= 1
  /\ map has_toggle [ {| has_toggle := true; active := true |};
                      {| has_toggle := true; active := false |};
                      {| has_toggle := false; active := false |} ]
     = map has_toggle navigation_bar.
Proof.
  apply (at_most_one_dropdown_open
           [ToggleClick 1; OtherClick true; ToggleClick 0; KeyDown "Tab"]
           navigation_bar).
  - vm_compute. lia.
  - vm_compute. reflexivity.
Defined.

Lemma nth_error_toggle_click i dropdowns j :
  nth_error (toggle_at i (close_others i dropdowns)) j
  = option_map (fun d => if j =? i then toggle_active d else remove_active d)
               (nth_error dropdowns j).
Proof.
  revert i j. induction dropdowns as [|d ds IH]; intros [|i] [|j]; simpl;
    try reflexivity.
  - now rewrite nth_error_map.
  - apply IH.
Qed.

Lemma open_count_single i dropdowns :
  (forall j d, nth_error dropdowns j = Some d -> active d = true -> j = i) ->
  open_count dropdowns
  = match nth_error dropdowns i with
    | Some d => if active d then 1 else 0
    | None => 0
    end.
Proof.
  unfold open_count. revert i.
  induction dropdowns as [|a ds IH]; intros i H; [now destruct i|].
  destruct i as [|i]; simpl.
  - assert (Hrest : filter active ds = []).
    { apply filter_none. intros b Hb.
      apply In_nth_error in Hb as [j Hj].
      destruct (active b) eqn:Eb; [|reflexivity].
      specialize (H (S j) b Hj Eb). discriminate. }
    rewrite Hrest. now destruct (active a).
  - destruct (active a) eqn:Ea.
    + specialize (H 0 a eq_refl Ea). discriminate.
    + apply IH. intros j d' Hj Hd'.
      specialize (H (S j) d' Hj Hd'). now injection H.
Qed.

(** X20. A click on the toggle of a drop-down, whatever was open before:
    every other drop-down is closed, and the clicked one is open exactly
    when it was closed before; so a second click on the same toggle closes
    it again and leaves the whole bar closed. *)
Theorem toggle_click_opens_one_or_closes_all :
  forall (i : nat) (dropdowns after : list NavDropdown),
    nav_step (ToggleClick i) dropdowns = Some after ->
    (forall j d, nth_error after j = Some d -> active d = true -> j = i)
    /\ option_map active (nth_error after i)
       = option_map (fun d => negb (active d)) (nth_error dropdowns i)
    /\ exists again,
         nav_step (ToggleClick i) after = Some again
         /\ option_map active (nth_error again i)
            = option_map active (nth_error dropdowns i)
         /\ (option_map active (nth_error dropdowns i) = Some false ->
             open_count after = 1 /\ open_count again = 0).
Proof.
  intros i ds after. simpl.
  destruct (nth_error ds i) as [d|] eqn:Ed; [|discriminate].
  destruct (has_toggle d) eqn:Et; [|discriminate]. intros [= <-].
  assert (Hi : nth_error (toggle_at i (close_others i ds)) i
               = Some (toggle_active d)).
  { now rewrite nth_error_toggle_click, Ed, Nat.eqb_refl. }
  split; [|split].
  - intros j d'. rewrite nth_error_toggle_click.
    destruct (nth_error ds j) as [dj|]; [|discriminate]. simpl.
    destruct (Nat.eqb_spec j i); [auto|]. intros [= <-]. discriminate.
  - now rewrite Hi.
  - rewrite Hi. cbn [toggle_active has_toggle]. rewrite Et.
    eexists. split; [reflexivity|].
    rewrite nth_error_toggle_click, Hi, Nat.eqb_refl. simpl.
    split; [now rewrite negb_involutive|].
    intros [= Hclosed].
    split.
    + rewrite (open_count_single i).
      * rewrite Hi. simpl. now rewrite Hclosed.
      * intros j d'. rewrite nth_error_toggle_click.
        destruct (nth_error ds j) as [dj|]; [|discriminate]. simpl.
        destruct (Nat.eqb_spec j i); [auto|]. intros [= <-]. discriminate.
    + rewrite (open_count_single i).
      * rewrite nth_error_toggle_click, Hi, Nat.eqb_refl. simpl.
        now rewrite Hclosed.
      * intros j d'. rewrite nth_error_toggle_click.
        destruct (nth_error (toggle_at i (close_others i ds)) j) as [dj|];
          [|discriminate]. simpl.
        destruct (Nat.eqb_spec j i); [auto|]. intros [= <-]. discriminate.
Qed.

Lemma toggle_click_opens_one_or_closes_all_witness :
  exists after,
    nav_step (ToggleClick 1) navigation_bar = Some after
    /\ open_count after = 1
    /\ exists again,
         nav_step (ToggleClick 1) after = Some again /\ open_count again = 0.
Proof.
  eexists. split; [reflexivity|].
  destruct (toggle_click_opens_one_or_closes_all 1 navigation_bar _ eq_refl)
    as (_ & _ & again & Hagain & _ & Hcount).
  destruct (Hcount eq_refl) as [H1 H0].
  split; [exact H1|]. exists again. split; [exact Hagain|exact H0].
Defined.

(** ** The theme toggle *)

(** The theme that [toggleTheme] takes to be the current one. *)
Definition current_theme (env : ThemeToggle.ThemeEnv) : string :=
  match ThemeToggle.data_theme env with
  | Some (String c s) => String c s
  | _ => ThemeToggle.THEME_LIGHT
  end.

(** The other one of the two themes; light for anything that is not
    light. *)
Definition other_theme (theme : string) : string :=
  if (theme =? ThemeToggle.THEME_LIGHT)%string
  then ThemeToggle.THEME_DARK else ThemeToggle.THEME_LIGHT.

Lemma toggleTheme_fields env :
  let env' := ThemeToggle.toggleTheme env in
  ThemeToggle.data_theme env' = Some (other_theme (current_theme env))
  /\ ThemeToggle.theme_toggle env' = ThemeToggle.theme_toggle env
  /\ ThemeToggle.readable env' = ThemeToggle.readable env
  /\ ThemeToggle.writable env' = ThemeToggle.writable env
  /\ ThemeToggle.prefers_dark env' = ThemeToggle.prefers_dark env
  /\ ThemeToggle.stored env'
     = (if ThemeToggle.writable env
        then Some (other_theme (current_theme env))
        else ThemeToggle.stored env)
  /\ ThemeToggle.warnings env'
     = (if ThemeToggle.writable env
        then ThemeToggle.warnings env
        else ThemeToggle.warnings env ++ ["Unable to store theme preference"]).
Proof.
  destruct env as [r w st pd dt tg ic ih al wn].
  unfold ThemeToggle.toggleTheme, ThemeToggle.setStoredTheme,
    ThemeToggle.applyTheme, current_theme, other_theme.
  cbn [ThemeToggle.data_theme ThemeToggle.writable].
  destruct w; cbn; repeat split.
Qed.

Lemma other_theme_truthy theme : exists c s, other_theme theme = String c s.
Proof.
  unfold other_theme. destruct (theme =? ThemeToggle.THEME_LIGHT)%string;
    eexists; eexists; reflexivity.
Qed.

(** X21. The theme that the button chose is the theme of the next visit:
    when the storage takes the item, a page that loads later with that
    storage applies the theme last chosen, whatever the system prefers;
    when the storage refuses it, the stored item stays as it was and a
    warning is written. *)
Theorem chosen_theme_survives_reload :
  forall env later : ThemeToggle.ThemeEnv,
    ThemeToggle.readable later = true ->
    ThemeToggle.stored later = ThemeToggle.stored (ThemeToggle.toggleTheme env) ->
    (ThemeToggle.writable env = true ->
     ThemeToggle.data_theme (ThemeToggle.init later)
     = ThemeToggle.data_theme (ThemeToggle.toggleTheme env))
    /\ (ThemeToggle.writable env = false ->
        ThemeToggle.stored (ThemeToggle.toggleTheme env) = ThemeToggle.stored env
        /\ ThemeToggle.warnings (ThemeToggle.toggleTheme env)
           = ThemeToggle.warnings env ++ ["Unable to store theme preference"]).
Proof.
  intros env later Hread Hstored.
  destruct (toggleTheme_fields env) as (Hd & _ & _ & _ & _ & Hs & Hw).
  split.
  - intros Hwritable. rewrite Hwritable in Hs. rewrite Hd.
    unfold ThemeToggle.init, ThemeToggle.applyTheme.
    cbn [ThemeToggle.data_theme]. f_equal.
    unfold ThemeToggle.getPreferredTheme, ThemeToggle.getStoredTheme.
    rewrite Hread, Hstored, Hs.
    now destruct (other_theme_truthy (current_theme env)) as (c & s & ->).
  - intros Hwritable. rewrite Hwritable in Hs, Hw. now split.
Qed.

(** A visitor whose system prefers the light theme and whose page shows
    it. *)
Definition light_visitor : ThemeToggle.ThemeEnv :=
  {| ThemeToggle.readable := true; ThemeToggle.writable := true;
     ThemeToggle.stored := None; ThemeToggle.prefers_dark := Some false;
     ThemeToggle.data_theme := Some "light";
     ThemeToggle.theme_toggle := true; ThemeToggle.theme_icon := true;
     ThemeToggle.icon_html := ThemeToggle.moon_icon;
     ThemeToggle.aria_label := Some "Switch to dark mode";
     ThemeToggle.warnings := [] |}.

(** The same visitor on the next page, before the script has run. *)
Definition next_visit : ThemeToggle.ThemeEnv :=
  {| ThemeToggle.readable := true; ThemeToggle.writable := true;
     ThemeToggle.stored := Some "dark"; ThemeToggle.prefers_dark := Some false;
     ThemeToggle.data_theme := None;
     ThemeToggle.theme_toggle := true; ThemeToggle.theme_icon := true;
     ThemeToggle.icon_html := ""; ThemeToggle.aria_label := None;
     ThemeToggle.warnings := [] |}.

Lemma chosen_theme_survives_reload_witness :
  ThemeToggle.data_theme (ThemeToggle.init next_visit) = Some "dark".
Proof.
  apply (chosen_theme_survives_reload light_visitor next_visit);
    reflexivity.
Defined.

Lemma other_theme_thrice theme :
  other_theme (other_theme (other_theme theme)) = other_theme theme.
Proof.
  unfold other_theme.
  destruct (theme =? ThemeToggle.THEME_LIGHT)%string; reflexivity.
Qed.

Lemma other_theme_differs theme : other_theme (other_theme theme) <> other_theme theme.
Proof.
  unfold other_theme.
  destruct (theme =? ThemeToggle.THEME_LIGHT)%string; discriminate.
Qed.

Lemma current_theme_toggled env :
  current_theme (ThemeToggle.toggleTheme env) = other_theme (current_theme env).
Proof.
  unfold current_theme at 1.
  rewrite (proj1 (toggleTheme_fields env)).
  now destruct (other_theme_truthy (current_theme env)) as (c & s & ->).
Qed.

Lemma clicks_current n env :
  ThemeToggle.theme_toggle env = true ->
  ThemeToggle.theme_toggle (ThemeToggle.clicks n env) = true
  /\ current_theme (ThemeToggle.clicks n env)
     = Nat.iter n other_theme (current_theme env)
  /\ (0 < n ->
      ThemeToggle.data_theme (ThemeToggle.clicks n env)
      = Some (Nat.iter n other_theme (current_theme env))).
Proof.
  revert env. induction n as [|n IH]; intros env Htoggle.
  - simpl. split; [exact Htoggle|]. split; [reflexivity|lia].
  - cbn [ThemeToggle.clicks]. rewrite Htoggle.
    destruct (toggleTheme_fields env) as (Hd & Ht & _).
    destruct (IH (ThemeToggle.toggleTheme env)) as (H1 & H2 & H3);
      [now rewrite Ht|].
    rewrite current_theme_toggled in H2, H3.
    assert (E : forall c, Nat.iter n other_theme (other_theme c)
                          = Nat.iter (S n) other_theme c).
    { intros c. clear. induction n as [|n IHn]; [reflexivity|].
      simpl in *. now rewrite IHn. }
    rewrite E in H2, H3.
    split; [exact H1|]. split; [exact H2|]. intros _.
    destruct n as [|n]; [|apply H3; lia].
    simpl. exact Hd.
Qed.

(** X22. The button switches between the two themes: after the first click
    the page shows the dark theme when it showed the light one (or none)
    and the light theme after anything else, each further click changes
    the theme, and every second click restores it. *)
Theorem theme_button_alternates :
  forall (env : ThemeToggle.ThemeEnv) (n : nat),
    ThemeToggle.theme_toggle env = true ->
    let shown k := ThemeToggle.data_theme (ThemeToggle.clicks k env) in
    shown 1 = Some (if (current_theme env =? "light")%string
                    then "dark" else "light")
    /\ (shown (S n) = Some "light" \/ shown (S n) = Some "dark")
    /\ shown (S (S n)) <> shown (S n)
    /\ shown (S (S (S n))) = shown (S n).
Proof.
  intros env n Htoggle shown. subst shown. cbv beta.
  destruct (clicks_current 1 env Htoggle) as (_ & _ & H1).
  destruct (clicks_current (S n) env Htoggle) as (_ & _ & Hn).
  destruct (clicks_current (S (S n)) env Htoggle) as (_ & _ & Hn2).
  destruct (clicks_current (S (S (S n))) env Htoggle) as (_ & _ & Hn3).
  rewrite H1, Hn, Hn2, Hn3 by lia.
  change (Nat.iter (S (S (S n))) other_theme (current_theme env))
    with (other_theme (other_theme (other_theme
            (Nat.iter n other_theme (current_theme env))))).
  change (Nat.iter (S (S n)) other_theme (current_theme env))
    with (other_theme (other_theme (Nat.iter n other_theme (current_theme env)))).
  change (Nat.iter (S n) other_theme (current_theme env))
    with (other_theme (Nat.iter n other_theme (current_theme env))).
  split; [reflexivity|]. split; [|split].
  - generalize (Nat.iter n other_theme (current_theme env)). intros theme.
    unfold other_theme.
    destruct (theme =? ThemeToggle.THEME_LIGHT)%string; [now right|now left].
  - intros [= H]. now apply other_theme_differs in H.
  - now rewrite other_theme_thrice.
Qed.

Lemma theme_button_alternates_witness :
  ThemeToggle.data_theme (ThemeToggle.clicks 1 light_visitor) = Some "dark"
  /\ (ThemeToggle.data_theme (ThemeToggle.clicks 2 light_visitor) = Some "light"
      \/ ThemeToggle.data_theme (ThemeToggle.clicks 2 light_visitor) = Some "dark")
  /\ ThemeToggle.data_theme (ThemeToggle.clicks 3 light_visitor)
     <> ThemeToggle.data_theme (ThemeToggle.clicks 2 light_visitor)
  /\ ThemeToggle.data_theme (ThemeToggle.clicks 4 light_visitor)
     = ThemeToggle.data_theme (ThemeToggle.clicks 2 light_visitor).
Proof.
  apply (theme_button_alternates light_visitor 1). reflexivity.
Defined.

(** ** Tutorial objects with missing properties *)

Lemma js_matches_unset st t :
  searchTerm st = "" -> topicFilter st = "" ->
  js_matches st t = Normal (js_matchesYear (yearFilter st) t).
Proof.
  intros Hs Ht. unfold js_matches, js_matchesSearch, js_matchesTopic.
  rewrite Hs, Ht. simpl. now rewrite andb_true_r.
Qed.

(** X23. The callback of the filter reads a property only when it needs
    it: while the search text is empty (or white space) and no topic is
    chosen, the filter raises no error on any array of objects, also when
    they lack [title], [authors], [keywords] or [year], and it keeps the
    objects whose year is the chosen one (all of them when no year is
    chosen; an object without a year never equals a chosen year). *)
Theorem unset_filters_read_no_property :
  forall (st : FilterState) (objects : list JsTutorial),
    searchTerm st = "" -> topicFilter st = "" ->
    js_filter (js_matches st) objects
    = Normal (filter (js_matchesYear (yearFilter st)) objects)
    /\ (yearFilter st = "" -> js_filter (js_matches st) objects = Normal objects).
Proof.
  intros st objects Hs Ht.
  assert (H : js_filter (js_matches st) objects
              = Normal (filter (js_matchesYear (yearFilter st)) objects)).
  { induction objects as [|t objects IH]; [reflexivity|].
    cbn [js_filter filter]. rewrite js_matches_unset, IH by assumption.
    reflexivity. }
  split; [exact H|].
  intros Hy. rewrite H. f_equal. apply filter_all.
  intros t _. unfold js_matchesYear. now rewrite Hy.
Qed.

(** An object that has nothing but a title. *)
Definition title_only : JsTutorial :=
  {| js_title := Some "Untitled"; js_authors := None; js_year := None;
     js_keywords := None |}.

Lemma unset_filters_read_no_property_witness :
  js_filter (js_matches (with_search "   " no_filters)) [title_only; title_only]
  = Normal [title_only; title_only].
Proof.
  apply (unset_filters_read_no_property (with_search "   " no_filters)
           [title_only; title_only]); reflexivity.
Defined.

Lemma js_filter_raises {A : Type} (callback : A -> Completion bool)
    before (a : A) after method :
  (forall x, In x before -> exists keep, callback x = Normal keep) ->
  callback a = TypeError method ->
  js_filter callback (before ++ a :: after) = TypeError method.
Proof.
  intros Hbefore Ha. induction before as [|x before IH]; simpl.
  - now rewrite Ha.
  - destruct (Hbefore x (or_introl eq_refl)) as [keep ->]. simpl.
    rewrite IH; [reflexivity|]. intros y Hy. apply Hbefore. now right.
Qed.

(** X24. A missing property makes the whole filter fail once a filter
    needs it: with a search term, an object without [title] raises a
    [TypeError] (at [toLowerCase]), and so does an object without
    [authors] whose title does not contain the term (at [some]); with a
    topic chosen and the search passed, an object without [keywords]
    raises (at [includes]).  The error of one object is the outcome of
    [allTutorials.filter]: no partial result is returned. *)
Theorem missing_property_raises :
  forall (st : FilterState) (t : JsTutorial),
    (searchTerm st <> "" -> js_title t = None ->
     js_matches st t = TypeError "toLowerCase")
    /\ (forall title,
          searchTerm st <> "" -> js_title t = Some title ->
          includes (toLowerCase title) (searchTerm st) = false ->
          js_authors t = None ->
          js_matches st t = TypeError "some")
    /\ (searchTerm st = "" -> topicFilter st <> "" -> js_keywords t = None ->
        js_matches st t = TypeError "includes")
    /\ (forall method before after,
          js_matches st t = TypeError method ->
          (forall x, In x before -> exists keep, js_matches st x = Normal keep) ->
          js_filter (js_matches st) (before ++ t :: after) = TypeError method).
Proof.
  intros st t. unfold js_matches, js_matchesSearch, js_matchesTopic.
  repeat split.
  - intros Hs Ht. rewrite Ht. now destruct (searchTerm st).
  - intros title Hs Ht Hno Ha. rewrite Ht, Ha. cbn. rewrite Hno.
    now destruct (searchTerm st).
  - intros Hs Htopic Hk. rewrite Hs, Hk. cbn.
    now destruct (topicFilter st).
  - intros method before after Hraise Hbefore.
    now apply js_filter_raises.
Qed.

(** ** Opening a shared URL *)

(** X25. A shared URL restores the view: on a page opened with the query
    that [updateURL] wrote for the control values [st], once the data has
    arrived the controls hold [st] again, the URL still shows it, and the
    stored result is a rearrangement of the tutorials that match [st];
    provided the year and the topic of [st] are among the options that
    the data gives to the two drop-downs. *)
Theorem shared_url_restores_the_view :
  forall (rnd : Random) (page : Page) (path : string) (st : FilterState)
         (data : list Tutorial) (t : Z),
    year_offers data (yearFilter st) = true ->
    topic_offers data (topicFilter st) = true ->
    (0 <= t)%Z ->
    exists w',
      step rnd page (t, LoadSucceeds data) (init page path (search_of st))
      = Some w'
      /\ controls w' = st
      /\ location_search w' = search_of st
      /\ allTutorials w' = data
      /\ Permutation (filteredTutorials w') (filtered data st).
Proof.
  intros rnd page path st data t Hyear Htopic Ht.
  assert (Hclock : (t <? 0)%Z = false) by (apply Z.ltb_ge; exact Ht).
  assert (Hrestore :
            read_params (new_URLSearchParams (search_of st))
                        (year_control page data) (topic_control page data)
                        no_filters = st).
  { apply (fromQuery_toQuery (year_control page data) (topic_control page data)).
    - unfold retains, year_control. destruct (selects page); [|reflexivity].
      simpl. now rewrite Hyear.
    - unfold retains, topic_control. destruct (selects page); [|reflexivity].
      simpl. now rewrite Htopic. }
  unfold step, init, showLoading, emit.
  destruct (negb (libraryContainer page)); world_fields; rewrite Hclock;
    unfold set_clock; world_fields;
    unfold load_succeeds, initializeFromURL, populateFilters, set_controls;
    destruct (selects page) eqn:Hsel; world_fields;
    cbn [searchText no_filters];
    change {| searchText := ""; yearFilter := ""; topicFilter := "" |}
      with no_filters;
    rewrite Hrestore;
    (eexists; split; [reflexivity|]);
    rewrite filterTutorials_eq; world_fields; cbv zeta;
    (split; [reflexivity|]); (split; [reflexivity|]); (split; [reflexivity|]);
    apply shuffle_permutation.
Qed.

Lemma shared_url_restores_the_view_witness :
  exists w',
    step (fun _ => first_draw) full_page (40%Z, LoadSucceeds scenario)
         (init full_page "/materials.html" (search_of shared_view))
    = Some w'
    /\ controls w' = shared_view
    /\ location_search w' = search_of shared_view
    /\ allTutorials w' = scenario
    /\ Permutation (filteredTutorials w') (filtered scenario shared_view).
Proof.
  apply (shared_url_restores_the_view (fun _ => first_draw) full_page
           "/materials.html" shared_view scenario 40).
  - vm_compute. reflexivity.
  - vm_compute. reflexivity.
  - lia.
Defined.

(** ** The layout of any list of tutorials *)

Lemma year_sections_map ts :
  year_sections ts
  = map (fun y => (y, filter (year_is y) ts)) (map fst (year_sections ts)).
Proof.
  rewrite year_sections_years. unfold year_sections.
  apply map_ext. intros y. f_equal. apply group_of_group_by_year.
Qed.

Lemma strict_sorted_NoDup l : StronglySorted Z.gt l -> NoDup l.
Proof.
  induction 1 as [|a l Hs IH Ha]; constructor; [|exact IH].
  intros Hin. rewrite Forall_forall in Ha. specialize (Ha a Hin). lia.
Qed.

(** X26. [renderTutorials] gives every tutorial of its argument exactly one
    card, whatever the list: the sections are those of the years that
    occur, newest first and each once; a section holds the tutorials of
    its year in the order of the list and is never empty; and the cards
    of all sections together are as many as the count that is
    reported. *)
Theorem every_tutorial_gets_one_card :
  forall tutorials : list Tutorial,
    let sections := year_sections tutorials in
    StronglySorted Z.gt (map fst sections)
    /\ Forall (fun section : Z * list Tutorial =>
                 snd section = filter (year_is (fst section)) tutorials
                 /\ snd section <> [])
              sections
    /\ Permutation (flat_map snd sections) tutorials
    /\ list_sum (map (fun section => List.length (snd section)) sections)
       = List.length tutorials.
Proof.
  intros tutorials sections. subst sections.
  assert (Hperm : Permutation (flat_map snd (year_sections tutorials)) tutorials).
  { rewrite year_sections_map at 1.
    rewrite flat_map_concat_map, map_map. cbn [snd].
    rewrite <- flat_map_concat_map.
    rewrite flat_map_years by apply strict_sorted_NoDup, year_sections_strict.
    rewrite filter_all; [reflexivity|].
    intros t Ht. apply existsb_exists. exists (year t).
    split; [|apply Z.eqb_refl].
    apply year_sections_cover, in_map, Ht. }
  split; [apply year_sections_strict|]. split; [|split; [exact Hperm|]].
  - apply Forall_forall. intros [y g] Hin.
    apply year_sections_group in Hin as [Hy ->]. split; [reflexivity|].
    apply in_map_iff in Hy as (t & <- & Ht). cbn [fst snd].
    intros Hnil.
    assert (Hint : In t (filter (year_is (year t)) tutorials)).
    { apply filter_In. split; [exact Ht|apply Z.eqb_refl]. }
    rewrite Hnil in Hint. exact Hint.
  - rewrite <- (Permutation_length Hperm).
    generalize (year_sections tutorials). intros l.
    induction l as [|[y g] l IH]; [reflexivity|].
    cbn [map list_sum flat_map snd fold_right]. rewrite length_app.
    unfold list_sum in IH. now rewrite IH.
Qed.

(** ** The message of a failed load *)

Lemma prefix_head c sub d s :
  c <> d -> prefix (String c sub) (String d s) = false.
Proof. intros H. simpl. now destruct (ascii_dec c d). Qed.

Lemma includes_without_head c sub s :
  all_chars (fun a => negb (is_char a c)) s = true ->
  includes s (String c sub) = false.
Proof.
  induction s as [|d s IH]; [reflexivity|].
  cbn [all_chars]. intros H. apply andb_true_iff in H as [Hd Hs].
  cbn [includes]. rewrite prefix_head, (IH Hs); [reflexivity|].
  intros <-. unfold is_char in Hd. now rewrite Ascii.eqb_refl in Hd.
Qed.

Lemma digit_is_not_F c : is_digit c = true -> negb (is_char c "F") = true.
Proof. destruct c as [[] [] [] [] [] [] [] []]; vm_compute; congruence. Qed.

Lemma load_error_text_http status :
  load_error_text (http_error_message status)
  = ("Failed to load tutorials: HTTP error! status: " ++ show_nat status)%string.
Proof.
  unfold load_error_text.
  rewrite includes_without_head; [reflexivity|].
  unfold http_error_message. rewrite all_chars_app.
  apply andb_true_iff. split; [reflexivity|].
  eapply all_chars_impl; [|apply show_nat_digits].
  apply digit_is_not_F.
Qed.

(** X27. A response that is not [ok] is reported with its status: the
    error thrown for the status N is caught by [loadTutorials] itself and
    the error state shows "Failed to load tutorials: HTTP error! status:
    N", never the hint about the web server; the collection stays as it
    was and the load has failed. *)
Theorem http_error_is_reported_with_its_status :
  forall (rnd : Random) (w : World) (t : Z) (status : nat),
    phase w = Loading -> (clock w <= t)%Z ->
    exists w',
      step rnd full_page (t, LoadFails (http_error_message status)) w = Some w'
      /\ effects_since w w'
         = [ShowError ("Failed to load tutorials: HTTP error! status: "
                       ++ show_nat status)%string]
      /\ phase w' = Failed
      /\ allTutorials w' = allTutorials w
      /\ controls w' = controls w.
Proof.
  intros rnd w t status Hphase Ht.
  assert (Hclock : (t <? clock w)%Z = false) by (apply Z.ltb_ge; exact Ht).
  destruct w as [all stored st path query debounce pending next calls0 now ph tr].
  cbn in Hphase, Hclock. subst ph.
  unfold step. world_fields. rewrite Hclock.
  unfold set_clock. world_fields.
  eexists. split; [reflexivity|].
  unfold load_fails, showError, emit.
  cbn [libraryContainer full_page negb]. world_fields.
  rewrite load_error_text_http.
  split; [|repeat split].
  apply (effects_since_app _ _ t). reflexivity.
Qed.

Lemma http_error_is_reported_with_its_status_witness :
  exists w',
    step (fun _ => first_draw) full_page (30%Z, LoadFails (http_error_message 404))
         materials_page = Some w'
    /\ effects_since materials_page w'
       = [ShowError "Failed to load tutorials: HTTP error! status: 404"]
    /\ phase w' = Failed
    /\ allTutorials w' = allTutorials materials_page
    /\ controls w' = controls materials_page.
Proof.
  apply (http_error_is_reported_with_its_status (fun _ => first_draw)
           materials_page 30 404).
  - reflexivity.
  - vm_compute. discriminate.
Defined.
